(** * A URL shortener bot: validation, short ids, cache, adapters, dispatch

    Shallow embedding of [bot.py] (and of [check_service_status] and
    [api_status], which [app.py] repeats) and proofs of its specified
    properties.

    Modelling conventions.
    - A Python [str] is the list of its Unicode code points, each a [Z].
      String literals of the source are written with [lit] when they are
      ASCII; other characters are spliced in as code points, exactly the
      ones stored in the source file.
    - Tables of the Python runtime the code depends on ([str.isspace],
      [str.isdecimal], case-insensitive matching of ASCII letters) are written
      out for CPython 3.11 (Unicode 14).
    - [re] patterns are embedded as regular expressions over code points and
      run by a derivative matcher; the patterns of the source use no
      back-reference or look-around, so whether [re.match] finds a match is a
      question of language membership only.
    - [hashlib.md5] and [str.encode] are implemented in full.
    - The process-wide [url_cache], the provider calls made through
      [requests] and the calls made on the Telegram [query] object are the
      state of the world; handlers are computations in a state and exception
      monad over it.  Provider replies come from an oracle that sees the
      whole history of requests, and so does the decision whether a call on
      [query] raises.  A [requests.Response] is what the code reads of it:
      status, text, and the outcome of [response.json()].
    - Handlers run one at a time ([await] is sequencing); logging is left
      out. *)

From Stdlib Require Import ZArith List Lia Bool String Ascii Floats DecimalString.
From stdpp Require Import gmap list.

Import ListNotations.
Local Open Scope Z_scope.

(* ================================================================== *)
(** ** Python strings *)
(* ================================================================== *)

Abbreviation str := (list Z).

(** An ASCII literal of the source, as code points. *)
Fixpoint lit (s : string) : str :=
  match s with
  | EmptyString => []
  | String a s' => Z.of_N (N_of_ascii a) :: lit s'
  end.

Definition in_range (lo hi c : Z) : bool := (lo <=? c) && (c <=? hi).

(** [str.isspace] on one code point; it is also the class [\s] of [re] on
    [str] patterns and the set that [str.strip()] removes. *)
Definition isspace (c : Z) : bool :=
  in_range 0x09 0x0D c || in_range 0x1C 0x20 c
  || (c =? 0x85) || (c =? 0xA0) || (c =? 0x1680)
  || in_range 0x2000 0x200A c
  || (c =? 0x2028) || (c =? 0x2029) || (c =? 0x202F)
  || (c =? 0x205F) || (c =? 0x3000).

(** Code points of general category Nd, as ranges. *)
Definition decimal_ranges : list (Z * Z) :=
  [ (0x30, 0x39); (0x660, 0x669); (0x6F0, 0x6F9); (0x7C0, 0x7C9);
    (0x966, 0x96F); (0x9E6, 0x9EF); (0xA66, 0xA6F); (0xAE6, 0xAEF);
    (0xB66, 0xB6F); (0xBE6, 0xBEF); (0xC66, 0xC6F); (0xCE6, 0xCEF);
    (0xD66, 0xD6F); (0xDE6, 0xDEF); (0xE50, 0xE59); (0xED0, 0xED9);
    (0xF20, 0xF29); (0x1040, 0x1049); (0x1090, 0x1099); (0x17E0, 0x17E9);
    (0x1810, 0x1819); (0x1946, 0x194F); (0x19D0, 0x19D9); (0x1A80, 0x1A89);
    (0x1A90, 0x1A99); (0x1B50, 0x1B59); (0x1BB0, 0x1BB9); (0x1C40, 0x1C49);
    (0x1C50, 0x1C59); (0xA620, 0xA629); (0xA8D0, 0xA8D9); (0xA900, 0xA909);
    (0xA9D0, 0xA9D9); (0xA9F0, 0xA9F9); (0xAA50, 0xAA59); (0xABF0, 0xABF9);
    (0xFF10, 0xFF19); (0x104A0, 0x104A9); (0x10D30, 0x10D39);
    (0x11066, 0x1106F); (0x110F0, 0x110F9); (0x11136, 0x1113F);
    (0x111D0, 0x111D9); (0x112F0, 0x112F9); (0x11450, 0x11459);
    (0x114D0, 0x114D9); (0x11650, 0x11659); (0x116C0, 0x116C9);
    (0x11730, 0x11739); (0x118E0, 0x118E9); (0x11950, 0x11959);
    (0x11C50, 0x11C59); (0x11D50, 0x11D59); (0x11DA0, 0x11DA9);
    (0x16A60, 0x16A69); (0x16AC0, 0x16AC9); (0x16B50, 0x16B59);
    (0x1D7CE, 0x1D7FF); (0x1E140, 0x1E149); (0x1E2F0, 0x1E2F9);
    (0x1E950, 0x1E959); (0x1FBF0, 0x1FBF9) ].

(** [str.isdecimal] on one code point: the class [\d] of [re]. *)
Definition isdecimal (c : Z) : bool :=
  existsb (fun r => in_range (fst r) (snd r) c) decimal_ranges.

Definition is_upper_ascii (c : Z) : bool := in_range 0x41 0x5A c.
Definition is_lower_ascii (c : Z) : bool := in_range 0x61 0x7A c.

(** The class [[A-Z]] compiled with [re.IGNORECASE]: the 52 ASCII letters
    and the four letters that case-fold into them: U+0130, U+0131, U+017F
    and U+212A. *)
Definition letter_ic (c : Z) : bool :=
  is_upper_ascii c || is_lower_ascii c
  || (c =? 0x130) || (c =? 0x131) || (c =? 0x17F) || (c =? 0x212A).

(** A literal ASCII character [x] of a pattern compiled with
    [re.IGNORECASE], tested against the code point [c]: a letter matches in
    both cases, and [s], [k] and [i] also match the letters that case-fold
    into them (U+017F; U+212A; U+0130 and U+0131). *)
Definition char_ic (x c : Z) : bool :=
  (c =? x)
  || (is_lower_ascii x && (c =? x - 32))
  || (is_upper_ascii x && (c =? x + 32))
  || (((x =? 0x73) || (x =? 0x53)) && (c =? 0x17F))
  || (((x =? 0x6B) || (x =? 0x4B)) && (c =? 0x212A))
  || (((x =? 0x69) || (x =? 0x49)) && ((c =? 0x130) || (c =? 0x131))).

(** [s.strip()]: drop leading and trailing whitespace. *)
Fixpoint lstrip (s : str) : str :=
  match s with
  | c :: s' => if isspace c then lstrip s' else s
  | [] => []
  end.

Definition rstrip (s : str) : str := rev (lstrip (rev s)).
Definition strip (s : str) : str := rstrip (lstrip s).

(** [s.startswith(p)]. *)
Fixpoint startswith (s p : str) : bool :=
  match p, s with
  | [], _ => true
  | x :: p', c :: s' => (c =? x) && startswith s' p'
  | _ :: _, [] => false
  end.

(** [p in s] for strings. *)
Fixpoint contains (s p : str) : bool :=
  startswith s p ||
  match s with
  | [] => false
  | _ :: s' => contains s' p
  end.

(** [bool(s)] for a string. *)
Definition nonempty (s : str) : bool :=
  match s with [] => false | _ :: _ => true end.

(* ================================================================== *)
(** ** Regular expressions *)
(* ================================================================== *)

Inductive regex : Type :=
| Never                        (* matches nothing *)
| Eps                          (* the empty string *)
| Class (p : Z -> bool)        (* one code point satisfying [p] *)
| Seq (r1 r2 : regex)
| Alt (r1 r2 : regex)
| Star (r : regex).

Definition Opt (r : regex) : regex := Alt r Eps.
Definition Plus (r : regex) : regex := Seq r (Star r).

(** [r{0,n}] *)
Fixpoint UpTo (r : regex) (n : nat) : regex :=
  match n with
  | O => Eps
  | S n' => Opt (Seq r (UpTo r n'))
  end.

(** [m] copies of [r], then [rest]. *)
Fixpoint Times (r : regex) (m : nat) (rest : regex) : regex :=
  match m with
  | O => rest
  | S m' => Seq r (Times r m' rest)
  end.

(** [r{m,n}] *)
Definition Rep (r : regex) (m n : nat) : regex := Times r m (UpTo r (n - m)).

(** A literal string, case-sensitive and with [re.IGNORECASE]. *)
Fixpoint Lit (s : str) : regex :=
  match s with
  | [] => Eps
  | x :: s' => Seq (Class (Z.eqb x)) (Lit s')
  end.

Fixpoint LitIC (s : str) : regex :=
  match s with
  | [] => Eps
  | x :: s' => Seq (Class (char_ic x)) (LitIC s')
  end.

(** [$] without [re.MULTILINE] holds at the end of the text and just before
    a newline that ends the text.  At the end of a pattern it therefore
    stands for an optional final newline. *)
Definition Dollar : regex := Opt (Class (Z.eqb 0x0A)).

(** The language of a regular expression. *)
Inductive re_lang : regex -> str -> Prop :=
| L_eps : re_lang Eps []
| L_class p c : p c = true -> re_lang (Class p) [c]
| L_seq r1 r2 s1 s2 :
    re_lang r1 s1 -> re_lang r2 s2 -> re_lang (Seq r1 r2) (s1 ++ s2)
| L_alt_l r1 r2 s : re_lang r1 s -> re_lang (Alt r1 r2) s
| L_alt_r r1 r2 s : re_lang r2 s -> re_lang (Alt r1 r2) s
| L_star_nil r : re_lang (Star r) []
| L_star_app r s1 s2 :
    re_lang r s1 -> re_lang (Star r) s2 -> re_lang (Star r) (s1 ++ s2).

Fixpoint nullable (r : regex) : bool :=
  match r with
  | Never => false
  | Eps => true
  | Class _ => false
  | Seq r1 r2 => nullable r1 && nullable r2
  | Alt r1 r2 => nullable r1 || nullable r2
  | Star _ => true
  end.

(** Constructors that drop dead branches, so derivatives stay small. *)
Definition mk_seq (r1 r2 : regex) : regex :=
  match r1, r2 with
  | Never, _ => Never
  | _, Never => Never
  | Eps, _ => r2
  | _, _ => Seq r1 r2
  end.

Definition mk_alt (r1 r2 : regex) : regex :=
  match r1, r2 with
  | Never, _ => r2
  | _, Never => r1
  | _, _ => Alt r1 r2
  end.

(** The derivative of [r] with respect to the code point [c]. *)
Fixpoint deriv (c : Z) (r : regex) : regex :=
  match r with
  | Never => Never
  | Eps => Never
  | Class p => if p c then Eps else Never
  | Seq r1 r2 =>
      mk_alt (mk_seq (deriv c r1) r2)
             (if nullable r1 then deriv c r2 else Never)
  | Alt r1 r2 => mk_alt (deriv c r1) (deriv c r2)
  | Star r1 => mk_seq (deriv c r1) (Star r1)
  end.

(** Does the whole of [s] belong to the language of [r]? *)
Fixpoint matches (r : regex) (s : str) : bool :=
  match s with
  | [] => nullable r
  | c :: s' => matches (deriv c r) s'
  end.

(* ================================================================== *)
(** ** URL validation *)
(* ================================================================== *)

(** The pieces of the pattern of [is_valid_url], in the order of the source:
<<
    r'^https?://'
    r'(?:(?:[A-Z0-9](?:[A-Z0-9-]{0,61}[A-Z0-9])?\.)+[A-Z]{2,6}\.?|'
    r'localhost|'
    r'\d{1,3}\.\d{1,3}\.\d{1,3}\.\d{1,3})'
    r'(?::\d+)?'
    r'(?:/?|[/?]\S+)$', re.IGNORECASE
>> *)
Module UrlPattern.

(** [[A-Z0-9]], [[A-Z0-9-]], [[A-Z]], [\d], [[/?]] and [\S]. *)
Definition alnum (c : Z) : bool := letter_ic c || in_range 0x30 0x39 c.
Definition alnum_hyphen (c : Z) : bool := alnum c || (c =? 0x2D).
Definition slash_or_query (c : Z) : bool := (c =? 0x2F) || (c =? 0x3F).
Definition nonspace (c : Z) : bool := negb (isspace c).

Definition dot : regex := Class (Z.eqb 0x2E).

(** [https?://] *)
Definition scheme : regex :=
  Seq (LitIC (lit "http")) (Seq (Opt (LitIC (lit "s"))) (LitIC (lit "://"))).

(** [[A-Z0-9](?:[A-Z0-9-]{0,61}[A-Z0-9])?\.] *)
Definition label_dot : regex :=
  Seq (Class alnum)
      (Seq (Opt (Seq (Rep (Class alnum_hyphen) 0 61) (Class alnum))) dot).

(** [(?:label\.)+[A-Z]{2,6}\.?] *)
Definition domain : regex :=
  Seq (Plus label_dot) (Seq (Rep (Class letter_ic) 2 6) (Opt dot)).

Definition localhost : regex := LitIC (lit "localhost").

(** [\d{1,3}\.\d{1,3}\.\d{1,3}\.\d{1,3}] *)
Definition octet : regex := Rep (Class isdecimal) 1 3.
Definition ip : regex :=
  Seq octet (Seq dot (Seq octet (Seq dot (Seq octet (Seq dot octet))))).

Definition host : regex := Alt domain (Alt localhost ip).

(** [(?::\d+)?] *)
Definition port : regex :=
  Opt (Seq (Class (Z.eqb 0x3A)) (Plus (Class isdecimal))).

(** [(?:/?|[/?]\S+)] *)
Definition tail : regex :=
  Alt (Opt (Class (Z.eqb 0x2F)))
      (Seq (Class slash_or_query) (Plus (Class nonspace))).

Definition pattern : regex :=
  Seq scheme (Seq host (Seq port (Seq tail Dollar))).

End UrlPattern.

(** [is_valid_url]: [re.match(pattern, url) is not None]. *)
Definition is_valid_url (url : str) : bool := matches UrlPattern.pattern url.


(* ================================================================== *)
(** ** Exceptions and outcomes *)
(* ================================================================== *)

(** The exceptions the modelled code can meet; all derive from
    [Exception], [UnicodeEncodeError] also from [ValueError]. *)
Inductive exn : Type :=
| UnicodeEncodeError
| ValueError          (* [response.json()] on a body that is not JSON *)
| RecursionError      (* [response.json()] on JSON nested too deeply *)
| KeyError
| TypeError
| AttributeError
| RequestException    (* any failure of [requests.get] / [requests.post] *)
| TelegramError.      (* any failure of a call on the [query] object *)

Inductive outcome (A : Type) : Type :=
| Ok (a : A)
| Raise (e : exn).
Arguments Ok {A} a.
Arguments Raise {A} e.

(* ================================================================== *)
(** ** [str.encode()] and [hashlib.md5] *)
(* ================================================================== *)

(** UTF-8 bytes of one code point; [None] for a surrogate, which
    [str.encode()] refuses with [UnicodeEncodeError]. *)
Definition utf8_char (c : Z) : option (list Z) :=
  if c <? 0 then None
  else if c <? 0x80 then Some [c]
  else if c <? 0x800 then
    Some [Z.lor 0xC0 (Z.shiftr c 6); Z.lor 0x80 (Z.land c 0x3F)]
  else if in_range 0xD800 0xDFFF c then None
  else if c <? 0x10000 then
    Some [Z.lor 0xE0 (Z.shiftr c 12);
          Z.lor 0x80 (Z.land (Z.shiftr c 6) 0x3F);
          Z.lor 0x80 (Z.land c 0x3F)]
  else if c <? 0x110000 then
    Some [Z.lor 0xF0 (Z.shiftr c 18);
          Z.lor 0x80 (Z.land (Z.shiftr c 12) 0x3F);
          Z.lor 0x80 (Z.land (Z.shiftr c 6) 0x3F);
          Z.lor 0x80 (Z.land c 0x3F)]
  else None.

(** [s.encode()] *)
Fixpoint encode (s : str) : outcome (list Z) :=
  match s with
  | [] => Ok []
  | c :: s' =>
      match utf8_char c, encode s' with
      | Some b, Ok bs => Ok (b ++ bs)
      | _, _ => Raise UnicodeEncodeError
      end
  end.

(** MD5 (RFC 1321) on bytes; 32-bit words are [Z] reduced modulo [2^32]. *)
Module MD5.

Definition mask32 : Z := 0xFFFFFFFF.
Definition add32 (a b : Z) : Z := Z.land (a + b) mask32.
Definition not32 (a : Z) : Z := Z.lxor a mask32.
Definition rotl32 (x n : Z) : Z :=
  Z.lor (Z.land (Z.shiftl x n) mask32) (Z.shiftr x (32 - n)).

Definition S : list Z :=
  [ 7; 12; 17; 22; 7; 12; 17; 22; 7; 12; 17; 22; 7; 12; 17; 22;
    5; 9; 14; 20; 5; 9; 14; 20; 5; 9; 14; 20; 5; 9; 14; 20;
    4; 11; 16; 23; 4; 11; 16; 23; 4; 11; 16; 23; 4; 11; 16; 23;
    6; 10; 15; 21; 6; 10; 15; 21; 6; 10; 15; 21; 6; 10; 15; 21 ].

(** [floor(2^32 * abs(sin(i + 1)))] for [i = 0 .. 63]. *)
Definition K : list Z :=
  [
    0xd76aa478; 0xe8c7b756; 0x242070db; 0xc1bdceee;
    0xf57c0faf; 0x4787c62a; 0xa8304613; 0xfd469501;
    0x698098d8; 0x8b44f7af; 0xffff5bb1; 0x895cd7be;
    0x6b901122; 0xfd987193; 0xa679438e; 0x49b40821;
    0xf61e2562; 0xc040b340; 0x265e5a51; 0xe9b6c7aa;
    0xd62f105d; 0x02441453; 0xd8a1e681; 0xe7d3fbc8;
    0x21e1cde6; 0xc33707d6; 0xf4d50d87; 0x455a14ed;
    0xa9e3e905; 0xfcefa3f8; 0x676f02d9; 0x8d2a4c8a;
    0xfffa3942; 0x8771f681; 0x6d9d6122; 0xfde5380c;
    0xa4beea44; 0x4bdecfa9; 0xf6bb4b60; 0xbebfbc70;
    0x289b7ec6; 0xeaa127fa; 0xd4ef3085; 0x04881d05;
    0xd9d4d039; 0xe6db99e5; 0x1fa27cf8; 0xc4ac5665;
    0xf4292244; 0x432aff97; 0xab9423a7; 0xfc93a039;
    0x655b59c3; 0x8f0ccc92; 0xffeff47d; 0x85845dd1;
    0x6fa87e4f; 0xfe2ce6e0; 0xa3014314; 0x4e0811a1;
    0xf7537e82; 0xbd3af235; 0x2ad7d2bb; 0xeb86d391 ].

Record state := { sa : Z; sb : Z; sc : Z; sd : Z }.

Definition init : state :=
  {| sa := 0x67452301; sb := 0xefcdab89; sc := 0x98badcfe; sd := 0x10325476 |}.

(** Little-endian word of four bytes, and back. *)
Definition word_of (b : list Z) : Z :=
  match b with
  | [b0; b1; b2; b3] =>
      Z.lor b0 (Z.lor (Z.shiftl b1 8) (Z.lor (Z.shiftl b2 16) (Z.shiftl b3 24)))
  | _ => 0
  end.

Definition bytes_of (w : Z) : list Z :=
  [ Z.land w 0xFF; Z.land (Z.shiftr w 8) 0xFF;
    Z.land (Z.shiftr w 16) 0xFF; Z.land (Z.shiftr w 24) 0xFF ].

Fixpoint words (n : nat) (b : list Z) : list Z :=
  match n with
  | O => []
  | Datatypes.S n' => word_of (firstn 4 b) :: words n' (skipn 4 b)
  end.

(** One of the 64 operations on a block whose words are [m]. *)
Definition step (m : list Z) (st : state) (i : Z) : state :=
  let '(Build_state a b c d) := st in
  let '(f, g) :=
    if i <? 16 then (Z.lor (Z.land b c) (Z.land (not32 b) d), i)
    else if i <? 32 then
      (Z.lor (Z.land d b) (Z.land (not32 d) c), (5 * i + 1) mod 16)
    else if i <? 48 then (Z.lxor b (Z.lxor c d), (3 * i + 5) mod 16)
    else (Z.lxor c (Z.lor b (not32 d)), (7 * i) mod 16) in
  let f' :=
    add32 (add32 (add32 f a) (nth (Z.to_nat i) K 0)) (nth (Z.to_nat g) m 0) in
  {| sa := d; sb := add32 b (rotl32 f' (nth (Z.to_nat i) S 0)); sc := b; sd := c |}.

Definition block (st : state) (blk : list Z) : state :=
  let m := words 16 blk in
  let st' := fold_left (step m) (map Z.of_nat (seq 0 64)) st in
  {| sa := add32 (sa st) (sa st'); sb := add32 (sb st) (sb st');
     sc := add32 (sc st) (sc st'); sd := add32 (sd st) (sd st') |}.

(** The message, a [0x80] byte, zeros up to 56 modulo 64, and the length
    in bits as 8 little-endian bytes. *)
Definition pad (msg : list Z) : list Z :=
  let n := Z.of_nat (length msg) in
  let zeros := Z.to_nat ((55 - n) mod 64) in
  let bits := 8 * n in
  msg ++ [0x80] ++ repeat 0 zeros
      ++ bytes_of (Z.land bits mask32)
      ++ bytes_of (Z.land (Z.shiftr bits 32) mask32).

Fixpoint blocks (n : nat) (st : state) (b : list Z) : state :=
  match n with
  | O => st
  | Datatypes.S n' => blocks n' (block st (firstn 64 b)) (skipn 64 b)
  end.

Definition digest (msg : list Z) : list Z :=
  let p := pad msg in
  let st := blocks (Nat.div (length p) 64) init p in
  bytes_of (sa st) ++ bytes_of (sb st) ++ bytes_of (sc st) ++ bytes_of (sd st).

Definition hex_digit (d : Z) : Z := if d <? 10 then 0x30 + d else 0x61 + (d - 10).

(** [hashlib.md5(msg).hexdigest()] *)
Definition hexdigest (msg : list Z) : str :=
  flat_map (fun b => [hex_digit (Z.shiftr b 4); hex_digit (Z.land b 0xF)])
           (digest msg).

End MD5.

(** [generate_url_id]: [hashlib.md5(url.encode()).hexdigest()[:8]]. *)
Definition generate_url_id (url : str) : outcome str :=
  match encode url with
  | Ok bytes => Ok (firstn 8 (MD5.hexdigest bytes))
  | Raise e => Raise e
  end.

(* ================================================================== *)
(** ** Python values that come out of [response.json()] *)
(* ================================================================== *)

(** [None], [bool], [int], [float] (an IEEE double), [str], [list] and
    [dict] with string keys. *)
#[local] Unset Elimination Schemes.
Inductive pyobj : Type :=
| PyNone
| PyBool (b : bool)
| PyInt (n : Z)
| PyFloat (f : float)
| PyStr (s : str)
| PyList (l : list pyobj)
| PyDict (d : list (str * pyobj)).
#[local] Set Elimination Schemes.

(** [a == b] for strings. *)
Definition str_eqb (a b : str) : bool := bool_decide (a = b).

(** [bool(o)] *)
Definition truthy (o : pyobj) : bool :=
  match o with
  | PyNone => false
  | PyBool b => b
  | PyInt n => negb (n =? 0)
  | PyFloat f => negb (PrimFloat.eqb f 0%float)
  | PyStr s => nonempty s
  | PyList l => match l with [] => false | _ => true end
  | PyDict d => match d with [] => false | _ => true end
  end.

(** [a or b] *)
Definition py_or (a b : pyobj) : pyobj := if truthy a then a else b.

(** Lookup in a dict, kept as the list of its items. *)
Fixpoint assoc {V : Type} (k : str) (d : list (str * V)) : option V :=
  match d with
  | [] => None
  | (k', v) :: d' => if str_eqb k' k then Some v else assoc k d'
  end.

(** [o[k]] for a string key [k]. *)
Definition getitem (o : pyobj) (k : str) : outcome pyobj :=
  match o with
  | PyDict d => match assoc k d with Some v => Ok v | None => Raise KeyError end
  | _ => Raise TypeError
  end.

(** [o.get(k, default)]; only a dict has the method. *)
Definition dict_get (o : pyobj) (k : str) (default : pyobj) : outcome pyobj :=
  match o with
  | PyDict d => match assoc k d with Some v => Ok v | None => Ok default end
  | _ => Raise AttributeError
  end.

(** [o == 7] *)
Definition eq_7 (o : pyobj) : bool :=
  match o with
  | PyInt n => n =? 7
  | PyFloat f => PrimFloat.eqb f 7%float
  | _ => false
  end.

(** [o == s] for a string literal [s]. *)
Definition eq_str (o : pyobj) (s : str) : bool :=
  match o with
  | PyStr t => str_eqb t s
  | _ => false
  end.

(* ================================================================== *)
(** ** The world: cache, provider calls, Telegram calls *)
(* ================================================================== *)

Inductive http_method : Type := GET | POST.

(** A call of [requests.get] or [requests.post] with its keyword
    arguments. *)
Record request : Type := {
  req_method : http_method;
  req_url : str;
  req_params : list (str * str);
  req_headers : list (str * str);
  req_json : list (str * str);
  req_data : list (str * str);
  req_timeout : Z }.

(** What the code reads of a [requests.Response]; [json] is the outcome of
    [response.json()]: the value parsed, or the exception raised, which is
    [ValueError] for a body that is not JSON and can be another one, as
    [RecursionError] for JSON nested too deeply. *)
Record response : Type := {
  status_code : Z;
  text : str;
  json : outcome pyobj }.

Inductive reply : Type :=
| Reply (r : response)
| Fails.                  (* the call raised: no connection, timeout, ... *)

(** Calls on the callback [query] of the Telegram SDK. *)
Inductive tg_call : Type :=
| Answer
| ReplyChatAction (action : str)
| EditMessageText (text : str) (markdown : bool)
| ReplyText (text : str).

Record World : Type := {
  url_cache : gmap (list Z) (list Z);
  requests : list request;
  tg_calls : list tg_call }.

Record Config : Type := {
  BITLY_TOKEN : str;
  CUTTLY_API : str;
  GPLINKS_API : str }.

(** What the code is run against: the configuration read from the
    environment, the providers (a reply for each request, given the requests
    made before it), the Telegram SDK (does this call raise, given the calls
    made before it), and two built-ins of Python left abstract: [str(o)] of
    a float, list or dict, and [str.capitalize]. *)
Record Env : Type := {
  config : Config;
  net : list request -> request -> reply;
  tg_raises : list tg_call -> tg_call -> bool;
  py_repr : pyobj -> str;
  capitalize : str -> str }.

(** Computations that read and change the world and may raise. *)
Definition M (A : Type) : Type := World -> outcome A * World.

Definition ret {A : Type} (a : A) : M A := fun w => (Ok a, w).

Definition bind {A B : Type} (m : M A) (k : A -> M B) : M B :=
  fun w =>
    match m w with
    | (Ok a, w') => k a w'
    | (Raise e, w') => (Raise e, w')
    end.

Definition lift {A : Type} (o : outcome A) : M A := fun w => (o, w).

(** [try: m except Exception: h] *)
Definition try_except {A : Type} (m : M A) (h : M A) : M A :=
  fun w =>
    match m w with
    | (Ok a, w') => (Ok a, w')
    | (Raise _, w') => h w'
    end.

Definition is_value_error (e : exn) : bool :=
  match e with
  | ValueError | UnicodeEncodeError => true
  | _ => false
  end.

(** [try: m except ValueError: h] *)
Definition try_except_value_error {A : Type} (m : M A) (h : M A) : M A :=
  fun w =>
    match m w with
    | (Ok a, w') => (Ok a, w')
    | (Raise e, w') => if is_value_error e then h w' else (Raise e, w')
    end.

Notation "x <- m ;; k" := (bind m (fun x => k))
  (at level 100, m at next level, right associativity).
Notation "m >> k" := (bind m (fun _ => k))
  (at level 100, right associativity).

(** [requests.get] / [requests.post]: the call is recorded, the provider
    answers or the call raises. *)
Definition send_request (E : Env) (r : request) : M response :=
  fun w =>
    let w' := {| url_cache := url_cache w;
                 requests := requests w ++ [r];
                 tg_calls := tg_calls w |} in
    match net E (requests w) r with
    | Reply resp => (Ok resp, w')
    | Fails => (Raise RequestException, w')
    end.

Definition requests_get (E : Env) (url : str) (params headers : list (str * str))
    (timeout : Z) : M response :=
  send_request E {| req_method := GET; req_url := url; req_params := params;
                    req_headers := headers; req_json := []; req_data := [];
                    req_timeout := timeout |}.

Definition requests_post (E : Env) (url : str) (headers json data : list (str * str))
    (timeout : Z) : M response :=
  send_request E {| req_method := POST; req_url := url; req_params := [];
                    req_headers := headers; req_json := json; req_data := data;
                    req_timeout := timeout |}.

(** [response.json()] *)
Definition response_json (r : response) : M pyobj := lift (json r).

(** A call on [query]: recorded, then it returns or raises. *)
Definition tg (E : Env) (c : tg_call) : M unit :=
  fun w =>
    let w' := {| url_cache := url_cache w;
                 requests := requests w;
                 tg_calls := tg_calls w ++ [c] |} in
    if tg_raises E (tg_calls w) c then (Raise TelegramError, w') else (Ok tt, w').

(* ================================================================== *)
(** ** Configuration of the services *)
(* ================================================================== *)

Record ServiceInfo : Type := {
  name : str;
  api_url : str;
  requires_key : bool }.

(** [Config.SUPPORTED_SERVICES]; a dict keeps the order of insertion. *)
Definition SUPPORTED_SERVICES : list (str * ServiceInfo) :=
  [ (lit "bitly",
     {| name := lit "Bitly";
        api_url := lit "https://api-ssl.bitly.com/v4/shorten";
        requires_key := true |});
    (lit "tinyurl",
     {| name := lit "TinyURL";
        api_url := lit "http://tinyurl.com/api-create.php";
        requires_key := false |});
    (lit "cuttly",
     {| name := lit "Cuttly";
        api_url := lit "https://cutt.ly/api/api.php";
        requires_key := true |});
    (lit "gplinks",
     {| name := lit "GPLinks";
        api_url := lit "https://gplinks.in/api";
        requires_key := true |}) ].

(** [config.SUPPORTED_SERVICES[service]['api_url']] *)
Definition service_api_url (service : str) : outcome str :=
  match assoc service SUPPORTED_SERVICES with
  | Some info => Ok (api_url info)
  | None => Raise KeyError
  end.

(* ================================================================== *)
(** ** [re.findall(r'https?://[^\s]+', text)] *)
(* ================================================================== *)

(** The pattern of the search, for reference. *)
Definition url_search_pattern : regex :=
  Seq (Lit (lit "http"))
      (Seq (Opt (Lit (lit "s")))
           (Seq (Lit (lit "://")) (Plus (Class UrlPattern.nonspace)))).

(** The longest prefix of code points that are not whitespace. *)
Fixpoint nonspace_run (s : str) : str :=
  match s with
  | c :: s' => if isspace c then [] else c :: nonspace_run s'
  | [] => []
  end.

(** [s] without its prefix [p], when it starts with [p]. *)
Definition drop_prefix (p s : str) : option str :=
  if startswith s p then Some (skipn (length p) s) else None.

(** The match of the pattern that starts at the head of [s], if any: the
    scheme, then as many non-blank code points as there are, at least one. *)
Definition match_url_at (s : str) : option str :=
  let after :=
    match drop_prefix (lit "https://") s with
    | Some rest => Some (lit "https://", rest)
    | None =>
        match drop_prefix (lit "http://") s with
        | Some rest => Some (lit "http://", rest)
        | None => None
        end
    end in
  match after with
  | Some (scheme, rest) =>
      match nonspace_run rest with
      | [] => None
      | run => Some (scheme ++ run)
      end
  | None => None
  end.

(** All matches from left to right, none overlapping; [skip] counts the
    code points still covered by the last match. *)
Fixpoint findall_from (skip : nat) (s : str) : list str :=
  match s with
  | [] => []
  | _ :: s' =>
      match skip with
      | S k => findall_from k s'
      | O =>
          match match_url_at s with
          | Some m => m :: findall_from (length m - 1) s'
          | None => findall_from 0 s'
          end
      end
  end.

Definition findall_urls (s : str) : list str := findall_from 0 s.

(* ================================================================== *)
(** ** The adapters: [shorten_url] *)
(* ================================================================== *)

(** The [headers] of the gplinks branch. *)
Definition user_agent_headers : list (str * str) :=
  [ (lit "User-Agent",
     lit "Mozilla/5.0 (Windows NT 10.0; Win64; x64) AppleWebKit/537.36");
    (lit "Accept", lit "application/json") ].

(** The branch [service == 'bitly']. *)
Definition shorten_bitly (E : Env) (url : str) : M pyobj :=
  if negb (nonempty (BITLY_TOKEN (config E))) then ret PyNone
  else
    let headers :=
      [ (lit "Authorization", lit "Bearer " ++ BITLY_TOKEN (config E));
        (lit "Content-Type", lit "application/json") ] in
    let data := [ (lit "long_url", url) ] in
    endpoint <- lift (service_api_url (lit "bitly")) ;;
    response <- requests_post E endpoint headers data [] 10 ;;
    if status_code response =? 200 then
      body <- response_json response ;;
      lift (getitem body (lit "link"))
    else ret PyNone.

(** The branch [service == 'tinyurl']. *)
Definition shorten_tinyurl (E : Env) (url : str) : M pyobj :=
  let params := [ (lit "url", url) ] in
  endpoint <- lift (service_api_url (lit "tinyurl")) ;;
  response <- requests_get E endpoint params [] 10 ;;
  if status_code response =? 200 then ret (PyStr (strip (text response)))
  else ret PyNone.

(** The branch [service == 'cuttly']. *)
Definition shorten_cuttly (E : Env) (url : str) : M pyobj :=
  if negb (nonempty (CUTTLY_API (config E))) then ret PyNone
  else
    let params := [ (lit "key", CUTTLY_API (config E)); (lit "short", url) ] in
    endpoint <- lift (service_api_url (lit "cuttly")) ;;
    response <- requests_get E endpoint params [] 10 ;;
    if status_code response =? 200 then
      data <- response_json response ;;
      u <- lift (dict_get data (lit "url") (PyDict [])) ;;
      st <- lift (dict_get u (lit "status") PyNone) ;;
      if eq_7 st then
        u' <- lift (getitem data (lit "url")) ;;
        lift (getitem u' (lit "shortLink"))
      else ret PyNone
    else ret PyNone.

(** The GET attempt of the gplinks branch.  [Some v]: the function returns
    [v] at once; [None]: control reaches the POST attempt. *)
Definition gplinks_get (E : Env) (api_url : str) (params headers : list (str * str))
    : M (option pyobj) :=
  response <- requests_get E api_url params headers 15 ;;
  if status_code response =? 200 then
    let response_text := strip (text response) in
    if startswith response_text (lit "http") then ret (Some (PyStr response_text))
    else
      try_except_value_error
        (json_data <- response_json response ;;
         st <- lift (dict_get json_data (lit "status") PyNone) ;;
         if eq_str st (lit "success") then
           a <- lift (dict_get json_data (lit "shortenedUrl") PyNone) ;;
           b <- lift (dict_get json_data (lit "shorturl") PyNone) ;;
           ret (Some (py_or a b))
         else ret None)
        (if contains response_text (lit "http") then
           match findall_urls response_text with
           | u :: _ => ret (Some (PyStr u))
           | [] => ret None
           end
         else ret None)
  else ret None.

(** The POST attempt of the gplinks branch. *)
Definition gplinks_post (E : Env) (api_url : str) (payload headers : list (str * str))
    : M pyobj :=
  response <- requests_post E api_url headers [] payload 15 ;;
  if status_code response =? 200 then
    let response_text := strip (text response) in
    if startswith response_text (lit "http") then ret (PyStr response_text)
    else ret PyNone
  else ret PyNone.

(** The branch [service == 'gplinks']. *)
Definition shorten_gplinks (E : Env) (url : str) : M pyobj :=
  if negb (nonempty (GPLINKS_API (config E))) then ret PyNone
  else
    let api_url := lit "https://gplinks.in/api" in
    let params := [ (lit "api", GPLINKS_API (config E)); (lit "url", url) ] in
    let headers := user_agent_headers in
    early <- gplinks_get E api_url params headers ;;
    match early with
    | Some v => ret v
    | None =>
        let payload := [ (lit "api", GPLINKS_API (config E)); (lit "url", url) ] in
        gplinks_post E api_url payload headers
    end.

(** [shorten_url(url, service)]; the whole body is inside
    [try: ... except Exception: return None]. *)
Definition shorten_url (E : Env) (url service : str) : M pyobj :=
  try_except
    (if negb (is_valid_url url) then ret PyNone
     else if str_eqb service (lit "bitly") then shorten_bitly E url
     else if str_eqb service (lit "tinyurl") then shorten_tinyurl E url
     else if str_eqb service (lit "cuttly") then shorten_cuttly E url
     else if str_eqb service (lit "gplinks") then shorten_gplinks E url
     else ret PyNone)
    (ret PyNone).

(* ================================================================== *)
(** ** The cache *)
(* ================================================================== *)

(** [store_url]: the id is computed, then [url_cache[url_id] = url]. *)
Definition store_url (url : str) : M str :=
  url_id <- lift (generate_url_id url) ;;
  fun w =>
    (Ok url_id,
     {| url_cache := <[url_id := url]> (url_cache w);
        requests := requests w;
        tg_calls := tg_calls w |}).

(** [get_url]: [url_cache.get(url_id, '')]. *)
Definition get_url (url_id : str) : M str :=
  fun w => (Ok (default [] (url_cache w !! url_id)), w).

(* ================================================================== *)
(** ** Formatting *)
(* ================================================================== *)

Fixpoint digits (d : Decimal.uint) : str :=
  match d with
  | Decimal.Nil => []
  | Decimal.D0 d' => 0x30 :: digits d'
  | Decimal.D1 d' => 0x31 :: digits d'
  | Decimal.D2 d' => 0x32 :: digits d'
  | Decimal.D3 d' => 0x33 :: digits d'
  | Decimal.D4 d' => 0x34 :: digits d'
  | Decimal.D5 d' => 0x35 :: digits d'
  | Decimal.D6 d' => 0x36 :: digits d'
  | Decimal.D7 d' => 0x37 :: digits d'
  | Decimal.D8 d' => 0x38 :: digits d'
  | Decimal.D9 d' => 0x39 :: digits d'
  end.

(** [str(n)] for an [int]. *)
Definition str_of_int (n : Z) : str :=
  match Z.to_int n with
  | Decimal.Pos d => digits d
  | Decimal.Neg d => 0x2D :: digits d
  end.

(** [str(o)], what an f-string puts for [{o}]. *)
Definition py_str (E : Env) (o : pyobj) : str :=
  match o with
  | PyStr s => s
  | PyNone => lit "None"
  | PyBool true => lit "True"
  | PyBool false => lit "False"
  | PyInt n => str_of_int n
  | _ => py_repr E o
  end.

(** The four marks the messages begin with, as the source file stores
    them. *)
Definition MARK_OK : str := [0x201A; 0xFA; 0xD6].
Definition MARK_FAIL : str := [0x201A; 0xF9; 0xE5].
Definition MARK_LINK : str := [0xF8FF; 0xFC; 0xEE; 0xF3].
Definition MARK_MONEY : str := [0xF8FF; 0xFC; 0xED; 0x221E].

Definition NL : str := [0x0A].

(* ================================================================== *)
(** ** Dispatch: one service *)
(* ================================================================== *)

Definition send_single_shortened_url (E : Env) (url service : str) : M unit :=
  try_except
    (let service_name :=
       match assoc service SUPPORTED_SERVICES with
       | Some service_info => name service_info
       | None => capitalize E service
       end in
     shortened_url <- shorten_url E url service ;;
     if truthy shortened_url then
       let message :=
         MARK_OK ++ lit " **" ++ service_name ++ lit "**" ++ NL
           ++ MARK_LINK ++ lit " `" ++ py_str E shortened_url ++ lit "`" in
       let message :=
         if str_eqb service (lit "gplinks") then
           message ++ NL ++ NL ++ MARK_MONEY
                   ++ lit " *Earn money with this shortened link!*"
         else message in
       tg E (EditMessageText message true)
     else
       let error_msg :=
         MARK_FAIL ++ lit " Failed to shorten URL using " ++ service_name ++ lit "." in
       tg E (EditMessageText error_msg false))
    (tg E (EditMessageText
             (MARK_FAIL ++ lit " Error generating shortened URL. Please try again.")
             false)).

(* ================================================================== *)
(** ** Dispatch: all services *)
(* ================================================================== *)

(** The [for] loop of [send_all_shortened_urls] over the services left,
    with the two variables it updates. *)
Fixpoint send_all_loop (E : Env) (url : str) (services : list (str * ServiceInfo))
    (message : str) (successful_shortens : Z) : M (str * Z) :=
  match services with
  | [] => ret (message, successful_shortens)
  | (service_key, service_info) :: services' =>
      (* [service_info.get('name', service_key.capitalize())]: every entry
         has a name *)
      let service_name := name service_info in
      shortened_url <- shorten_url E url service_key ;;
      if truthy shortened_url then
        let message :=
          message ++ MARK_OK ++ lit " **" ++ service_name ++ lit "**" ++ NL
                  ++ lit "`" ++ py_str E shortened_url ++ lit "`" in
        let message :=
          if str_eqb service_key (lit "gplinks") then message ++ lit " " ++ MARK_MONEY
          else message in
        let message := message ++ NL ++ NL in
        send_all_loop E url services' message (successful_shortens + 1)
      else
        let message :=
          message ++ MARK_FAIL ++ lit " **" ++ service_name ++ lit "** - Failed"
                  ++ NL ++ NL in
        send_all_loop E url services' message successful_shortens
  end.

Definition send_all_shortened_urls (E : Env) (url : str) : M unit :=
  try_except
    (let message := MARK_LINK ++ lit " **Shortened URLs**" ++ NL ++ NL in
     let successful_shortens := 0 in
     result <- send_all_loop E url SUPPORTED_SERVICES message successful_shortens ;;
     let '(message, successful_shortens) := result in
     let message :=
       if successful_shortens =? 0 then
         MARK_FAIL ++ lit " All services failed. Please try again later."
       else
         message ++ MARK_OK ++ lit " **" ++ str_of_int successful_shortens ++ lit "/"
                 ++ str_of_int (Z.of_nat (length SUPPORTED_SERVICES))
                 ++ lit " successful**" in
     tg E (EditMessageText message true))
    (tg E (EditMessageText
             (MARK_FAIL ++ lit " Error generating shortened URLs. Please try again.")
             false)).

(* ================================================================== *)
(** ** The callback handler *)
(* ================================================================== *)

(** The part of [s] before the first [sep], and the part after it when
    there is one. *)
Fixpoint break_at (sep : Z) (s : str) : str * option str :=
  match s with
  | [] => ([], None)
  | c :: s' =>
      if c =? sep then ([], Some s')
      else let '(a, b) := break_at sep s' in (c :: a, b)
  end.

(** [s.split(sep, maxsplit)] for a separator of one character. *)
Fixpoint split (sep : Z) (maxsplit : nat) (s : str) : list str :=
  match maxsplit with
  | O => [s]
  | S n =>
      match break_at sep s with
      | (a, Some rest) => a :: split sep n rest
      | (a, None) => [a]
      end
  end.

(** The dict [service_map] of [button_handler]. *)
Definition service_map : list (str * str) :=
  [ (lit "bitly", lit "bitly");
    (lit "tiny", lit "tinyurl");
    (lit "cutt", lit "cuttly");
    (lit "gpl", lit "gplinks");
    (lit "all", lit "all") ].

Definition MSG_NOT_FOUND : str := MARK_FAIL ++ lit " URL not found. Please try again.".
Definition MSG_INVALID : str := MARK_FAIL ++ lit " Invalid request. Please try again.".
Definition MSG_UNKNOWN : str := MARK_FAIL ++ lit " Unknown command. Please try again.".
Definition MSG_ERROR : str := MARK_FAIL ++ lit " An error occurred. Please try again.".

(** [button_handler]; [data] is [query.data], a string for every button
    this bot makes. *)
Definition button_handler (E : Env) (data : str) : M unit :=
  try_except
    (tg E Answer >>
     if startswith data (lit "s_") then
       match split 0x5F 2 data with
       | [_; service_code; url_id] =>
           let service := default service_code (assoc service_code service_map) in
           url <- get_url url_id ;;
           if negb (nonempty url) then tg E (EditMessageText MSG_NOT_FOUND false)
           else
             tg E (ReplyChatAction (lit "typing")) >>
             if str_eqb service (lit "all") then send_all_shortened_urls E url
             else send_single_shortened_url E url service
       | _ => tg E (EditMessageText MSG_INVALID false)
       end
     else tg E (EditMessageText MSG_UNKNOWN false))
    (try_except (tg E (EditMessageText MSG_ERROR false))
                (tg E (ReplyText MSG_ERROR))).

(* ================================================================== *)
(** ** Service status ([check_service_status] and [/api/status]) *)
(* ================================================================== *)

(** [check_service_status]: the dict of flags and
    [sum(status.values()) + 1]. *)
Definition check_service_status (c : Config) : list (str * bool) * Z :=
  let status :=
    [ (lit "bitly", nonempty (BITLY_TOKEN c));
      (lit "cuttly", nonempty (CUTTLY_API c));
      (lit "gplinks", nonempty (GPLINKS_API c)) ] in
  let connected_count :=
    fold_left (fun acc kv => acc + Z.b2z (snd kv)) status 0 + 1 in
  (status, connected_count).

Record ServiceEntry : Type := { connected : bool; has_key : bool }.

Record Summary : Type := {
  total_services : Z;
  connected_services : Z }.

Record ApiStatus : Type := {
  status : str;
  timestamp : str;
  services : list (str * ServiceEntry);
  summary : Summary }.

(** [services_status[k]]; the three keys read are always there. *)
Definition status_of (k : str) (services_status : list (str * bool)) : bool :=
  default false (assoc k services_status).

(** The dict [api_status] returns; [now] is [datetime.now().isoformat()]. *)
Definition api_status (c : Config) (now : str) : ApiStatus :=
  let '(services_status, connected_count) := check_service_status c in
  {| status := lit "online";
     timestamp := now;
     services :=
       [ (lit "bitly",
          {| connected := status_of (lit "bitly") services_status;
             has_key := nonempty (BITLY_TOKEN c) |});
         (lit "tinyurl", {| connected := true; has_key := false |});
         (lit "cuttly",
          {| connected := status_of (lit "cuttly") services_status;
             has_key := nonempty (CUTTLY_API c) |});
         (lit "gplinks",
          {| connected := status_of (lit "gplinks") services_status;
             has_key := nonempty (GPLINKS_API c) |}) ];
     summary :=
       {| total_services := 4;
          connected_services := connected_count |} |}.

(* ================================================================== *)
(** ** The shape of a valid URL, in the words of the specification *)
(* ================================================================== *)

(** [s] is the literal [x] up to the case rules of [re.IGNORECASE]. *)
Definition eq_ic (x s : str) : Prop :=
  Forall2 (fun a c => char_ic a c = true) x s.

(** Every code point of [s] is in the class [p]. *)
Definition all_in (p : Z -> bool) (s : str) : Prop :=
  Forall (fun c => p c = true) s.

(** [http://] or [https://], in any case. *)
Definition is_scheme (p : str) : Prop :=
  eq_ic (lit "http://") p \/ eq_ic (lit "https://") p.

(** A label: 1 to 63 letters, digits and hyphens, no hyphen at either
    end. *)
Definition is_label (l : str) : Prop :=
  (exists a, l = [a] /\ UrlPattern.alnum a = true)
  \/ (exists a mid b,
        l = a :: mid ++ [b]
        /\ UrlPattern.alnum a = true
        /\ all_in UrlPattern.alnum_hyphen mid /\ (length mid <= 61)%nat
        /\ UrlPattern.alnum b = true).

(** Labels, each followed by a dot, then a top-level domain of 2 to 6
    letters, then possibly one more dot. *)
Definition is_domain (h : str) : Prop :=
  exists labels tld trailing,
    h = concat (map (fun l => l ++ lit ".") labels) ++ tld ++ trailing
    /\ labels <> []
    /\ Forall is_label labels
    /\ (2 <= length tld <= 6)%nat /\ all_in letter_ic tld
    /\ (trailing = [] \/ trailing = lit ".").

Definition is_localhost (h : str) : Prop := eq_ic (lit "localhost") h.

Definition is_octet (o : str) : Prop :=
  (1 <= length o <= 3)%nat /\ all_in isdecimal o.

(** Four groups of one to three decimal digits, separated by dots. *)
Definition is_dotted_quad (h : str) : Prop :=
  exists a b c d,
    h = a ++ lit "." ++ b ++ lit "." ++ c ++ lit "." ++ d
    /\ is_octet a /\ is_octet b /\ is_octet c /\ is_octet d.

Definition is_host (h : str) : Prop :=
  is_domain h \/ is_localhost h \/ is_dotted_quad h.

(** Nothing, or a colon and at least one decimal digit. *)
Definition is_port (p : str) : Prop :=
  p = [] \/ exists ds, p = lit ":" ++ ds /\ ds <> [] /\ all_in isdecimal ds.

(** Nothing, a single slash, or a slash or question mark followed by at
    least one code point, none of them whitespace. *)
Definition is_path_or_query (t : str) : Prop :=
  t = [] \/ t = lit "/"
  \/ exists c rest,
       t = c :: rest /\ UrlPattern.slash_or_query c = true
       /\ rest <> [] /\ all_in UrlPattern.nonspace rest.

Definition url_shape (s : str) : Prop :=
  exists scheme host port tail newline,
    s = scheme ++ host ++ port ++ tail ++ newline
    /\ is_scheme scheme /\ is_host host /\ is_port port
    /\ is_path_or_query tail
    /\ (newline = [] \/ newline = NL).

(** [s] starts with the literal [x], in any case. *)
Fixpoint startswith_ic (s x : str) : bool :=
  match x, s with
  | [], _ => true
  | a :: x', c :: s' => char_ic a c && startswith_ic s' x'
  | _ :: _, [] => false
  end.

Definition has_scheme (s : str) : bool :=
  startswith_ic s (lit "http://") || startswith_ic s (lit "https://").

(* ================================================================== *)
(** ** The adapters as a request and a reading of the reply *)
(* ================================================================== *)

(** The world after some more provider calls. *)
Definition add_requests (w : World) (rs : list request) : World :=
  {| url_cache := url_cache w;
     requests := requests w ++ rs;
     tg_calls := tg_calls w |}.

(** The world after some more calls on [query]. *)
Definition add_tg_calls (w : World) (cs : list tg_call) : World :=
  {| url_cache := url_cache w;
     requests := requests w;
     tg_calls := tg_calls w ++ cs |}.

Definition bitly_request (E : Env) (url : str) : request :=
  {| req_method := POST;
     req_url := lit "https://api-ssl.bitly.com/v4/shorten";
     req_params := [];
     req_headers :=
       [ (lit "Authorization", lit "Bearer " ++ BITLY_TOKEN (config E));
         (lit "Content-Type", lit "application/json") ];
     req_json := [ (lit "long_url", url) ];
     req_data := [];
     req_timeout := 10 |}.

Definition tinyurl_request (url : str) : request :=
  {| req_method := GET;
     req_url := lit "http://tinyurl.com/api-create.php";
     req_params := [ (lit "url", url) ];
     req_headers := [];
     req_json := [];
     req_data := [];
     req_timeout := 10 |}.

Definition cuttly_request (E : Env) (url : str) : request :=
  {| req_method := GET;
     req_url := lit "https://cutt.ly/api/api.php";
     req_params := [ (lit "key", CUTTLY_API (config E)); (lit "short", url) ];
     req_headers := [];
     req_json := [];
     req_data := [];
     req_timeout := 10 |}.

Definition gplinks_get_request (E : Env) (url : str) : request :=
  {| req_method := GET;
     req_url := lit "https://gplinks.in/api";
     req_params := [ (lit "api", GPLINKS_API (config E)); (lit "url", url) ];
     req_headers := user_agent_headers;
     req_json := [];
     req_data := [];
     req_timeout := 15 |}.

Definition gplinks_post_request (E : Env) (url : str) : request :=
  {| req_method := POST;
     req_url := lit "https://gplinks.in/api";
     req_params := [];
     req_headers := user_agent_headers;
     req_json := [];
     req_data := [ (lit "api", GPLINKS_API (config E)); (lit "url", url) ];
     req_timeout := 15 |}.

(** A value, or absent when the computation of it raised. *)
Definition or_absent (o : outcome pyobj) : pyobj :=
  match o with
  | Ok v => v
  | Raise _ => PyNone
  end.

(** bitly: status 200 and the field [link] of the JSON body. *)
Definition bitly_extract (p : reply) : pyobj :=
  match p with
  | Fails => PyNone
  | Reply r =>
      if status_code r =? 200 then
        match json r with
        | Ok body => or_absent (getitem body (lit "link"))
        | Raise _ => PyNone
        end
      else PyNone
  end.

(** tinyurl: status 200 and the trimmed body. *)
Definition tinyurl_extract (p : reply) : pyobj :=
  match p with
  | Fails => PyNone
  | Reply r =>
      if status_code r =? 200 then PyStr (strip (text r)) else PyNone
  end.

(** cuttly: status 200, [url.status] equal to 7, and [url.shortLink]. *)
Definition cuttly_extract (p : reply) : pyobj :=
  match p with
  | Fails => PyNone
  | Reply r =>
      if status_code r =? 200 then
        match json r with
        | Ok (PyDict d) =>
            match default (PyDict []) (assoc (lit "url") d) with
            | PyDict u =>
                if eq_7 (default PyNone (assoc (lit "status") u)) then
                  or_absent (getitem (PyDict u) (lit "shortLink"))
                else PyNone
            | _ => PyNone
            end
        | _ => PyNone
        end
      else PyNone
  end.

(** What the GET attempt of gplinks settles: the value to return, or that
    the POST attempt follows. *)
Inductive verdict : Type :=
| Return (v : pyobj)
| Retry.

(** The strategies on the GET reply, in the order the code applies them:
    - a trimmed body that starts with [http] is the result;
    - else a JSON object with [status == "success"] gives [shortenedUrl],
      or [shorturl] when that is missing or falsy, and a JSON object with
      another status leads to the POST;
    - else, only when the body is not JSON (parsing it raises
      [ValueError]), the first match of the URL search in the body is the
      result, and the POST follows if there is none;
    a status other than 200 leads to the POST; a failed call, JSON that is
    not an object, or a parser that raises another exception, ends the
    adapter with absent. *)
Definition gplinks_after_get (g : reply) : verdict :=
  match g with
  | Fails => Return PyNone
  | Reply r =>
      if status_code r =? 200 then
        let body := strip (text r) in
        if startswith body (lit "http") then Return (PyStr body)
        else
          match json r with
          | Ok (PyDict d) =>
              if eq_str (default PyNone (assoc (lit "status") d)) (lit "success")
              then Return (py_or (default PyNone (assoc (lit "shortenedUrl") d))
                                 (default PyNone (assoc (lit "shorturl") d)))
              else Retry
          | Ok _ => Return PyNone
          | Raise e =>
              if is_value_error e then
                if contains body (lit "http") then
                  match findall_urls body with
                  | u :: _ => Return (PyStr u)
                  | [] => Retry
                  end
                else Retry
              else Return PyNone
          end
      else Retry
  end.

(** The one check on the POST reply. *)
Definition gplinks_after_post (p : reply) : pyobj :=
  match p with
  | Fails => PyNone
  | Reply r =>
      if status_code r =? 200 then
        let body := strip (text r) in
        if startswith body (lit "http") then PyStr body else PyNone
      else PyNone
  end.


(* ================================================================== *)
(** ** What an answer gives, in the words of the specification *)
(* ================================================================== *)

(** A string with no whitespace at either end. *)
Definition trimmed (s : str) : Prop :=
  (forall c s', s = c :: s' -> isspace c = false)
  /\ (forall c s', s = s' ++ [c] -> isspace c = false).

(** [body] is [text] without the whitespace at its two ends. *)
Definition trimmed_of (text body : str) : Prop :=
  exists leading trailing,
    text = leading ++ body ++ trailing
    /\ all_in isspace leading /\ all_in isspace trailing
    /\ trimmed body.

(** [s] begins with the four letters [http]. *)
Definition starts_http (s : str) : Prop := exists rest, s = lit "http" ++ rest.

(** A link as the search looks for it: [http://] or [https://], then one
    or more code points, none of them whitespace. *)
Definition is_link (u : str) : Prop :=
  exists run,
    run <> [] /\ all_in UrlPattern.nonspace run
    /\ (u = lit "http://" ++ run \/ u = lit "https://" ++ run).

(** [s] is empty or begins with whitespace: a link before it cannot go
    on. *)
Definition ends_link (s : str) : Prop :=
  s = [] \/ exists c s', s = c :: s' /\ isspace c = true.

(** [u] is the first link in [body]: no link begins further left, and [u]
    is as long as it can be. *)
Definition first_link (body u : str) : Prop :=
  exists before after,
    body = before ++ u ++ after
    /\ is_link u /\ ends_link after
    /\ forall before' m after',
         body = before' ++ m ++ after' -> is_link m ->
         (length before <= length before')%nat.

(** There is no link anywhere in [body]. *)
Definition no_link (body : str) : Prop :=
  forall before m after, body = before ++ m ++ after -> ~ is_link m.

(** The call was answered by [r] with status 200, and [body] is its
    trimmed text. *)
Definition answered (p : reply) (r : response) (body : str) : Prop :=
  p = Reply r /\ status_code r = 200 /\ trimmed_of (text r) body.

(** bitly: a 200 answer whose body is a JSON object with the field
    [link]. *)
Definition bitly_reads (p : reply) (v : pyobj) : Prop :=
  exists r d,
    p = Reply r /\ status_code r = 200
    /\ json r = Ok (PyDict d) /\ assoc (lit "link") d = Some v.

(** tinyurl: the trimmed body of a 200 answer, whatever it holds. *)
Definition tinyurl_reads (p : reply) (v : pyobj) : Prop :=
  exists r body, answered p r body /\ v = PyStr body.

(** cuttly: a 200 answer whose body is a JSON object with an object [url]
    whose [status] equals 7 and which has the field [shortLink]. *)
Definition cuttly_reads (p : reply) (v : pyobj) : Prop :=
  exists r d u st,
    p = Reply r /\ status_code r = 200
    /\ json r = Ok (PyDict d)
    /\ assoc (lit "url") d = Some (PyDict u)
    /\ assoc (lit "status") u = Some st /\ eq_7 st = true
    /\ assoc (lit "shortLink") u = Some v.

(** The POST of gplinks: a 200 answer whose trimmed body starts with
    [http]. *)
Definition post_reads (p : reply) (v : pyobj) : Prop :=
  exists r body, answered p r body /\ starts_http body /\ v = PyStr body.

(** The value read from the answer, or absent when nothing can be read from
    it. *)
Definition gives (reads : pyobj -> Prop) (v : pyobj) : Prop :=
  reads v \/ (v = PyNone /\ forall v', ~ reads v').

(** What the GET of gplinks settles, case by case and in the order of the
    strategies. *)
Inductive get_verdict (g : reply) : verdict -> Prop :=
| get_raises :
    g = Fails -> get_verdict g (Return PyNone)
| get_other_status r :
    g = Reply r -> status_code r <> 200 -> get_verdict g Retry
| get_body_is_link r body :
    answered g r body -> starts_http body ->
    get_verdict g (Return (PyStr body))
| get_json_success r body d :
    answered g r body -> ~ starts_http body ->
    json r = Ok (PyDict d) ->
    assoc (lit "status") d = Some (PyStr (lit "success")) ->
    get_verdict g
      (Return (py_or (default PyNone (assoc (lit "shortenedUrl") d))
                     (default PyNone (assoc (lit "shorturl") d))))
| get_json_other_status r body d :
    answered g r body -> ~ starts_http body ->
    json r = Ok (PyDict d) ->
    assoc (lit "status") d <> Some (PyStr (lit "success")) ->
    get_verdict g Retry
| get_json_not_object r body o :
    answered g r body -> ~ starts_http body ->
    json r = Ok o -> (forall d, o <> PyDict d) ->
    get_verdict g (Return PyNone)
| get_text_link r body e u :
    answered g r body -> ~ starts_http body ->
    json r = Raise e -> is_value_error e = true ->
    first_link body u ->
    get_verdict g (Return (PyStr u))
| get_text_no_link r body e :
    answered g r body -> ~ starts_http body ->
    json r = Raise e -> is_value_error e = true ->
    no_link body ->
    get_verdict g Retry
| get_parser_raises r body e :
    answered g r body -> ~ starts_http body ->
    json r = Raise e -> is_value_error e = false ->
    get_verdict g (Return PyNone).

(** gplinks: the value and the calls of one run from [w]. *)
Definition gplinks_gives (E : Env) (url : str) (w : World)
    (v : pyobj) (rs : list request) : Prop :=
  let get := gplinks_get_request E url in
  let post := gplinks_post_request E url in
  exists t,
    get_verdict (net E (requests w) get) t
    /\ match t with
       | Return v' => v = v' /\ rs = [get]
       | Retry =>
           gives (post_reads (net E (requests w ++ [get]) post)) v
           /\ rs = [get; post]
       end.

(* ================================================================== *)
(** ** The aggregate message of an "all services" dispatch *)
(* ================================================================== *)

(** One adapter run from the world [w]: its value and the world after. *)
Definition adapter_result (E : Env) (url key : str) (w : World) : pyobj * World :=
  match shorten_url E url key w with
  | (Ok v, w') => (v, w')
  | (Raise _, w') => (PyNone, w')
  end.

(** The adapters of [keys] run one after the other, each from the world
    the one before left. *)
Fixpoint run_adapters (E : Env) (url : str) (keys : list str) (w : World)
    : list pyobj * World :=
  match keys with
  | [] => ([], w)
  | key :: keys' =>
      let '(v, w1) := adapter_result E url key w in
      let '(vs, w') := run_adapters E url keys' w1 in
      (v :: vs, w')
  end.

(** The keys of the configured services, in the order of the dict. *)
Definition service_keys : list str :=
  [ lit "bitly"; lit "tinyurl"; lit "cuttly"; lit "gplinks" ].

(** The line of a service that gave the value [v]. *)
Definition success_line (E : Env) (key service_name : str) (v : pyobj) : str :=
  MARK_OK ++ lit " **" ++ service_name ++ lit "**" ++ NL
    ++ lit "`" ++ py_str E v ++ lit "`"
    ++ (if str_eqb key (lit "gplinks") then lit " " ++ MARK_MONEY else [])
    ++ NL ++ NL.

(** The line of a service that gave nothing. *)
Definition failure_line (service_name : str) : str :=
  MARK_FAIL ++ lit " **" ++ service_name ++ lit "** - Failed" ++ NL ++ NL.

(** A value counts as a result when it is truthy, as the code tests it:
    [None] and the empty string do not count. *)
Definition service_line (E : Env) (svc : str * ServiceInfo) (v : pyobj) : str :=
  if truthy v then success_line E (fst svc) (name (snd svc)) v
  else failure_line (name (snd svc)).

(** One line for each service, in order. *)
Fixpoint service_lines (E : Env) (svcs : list (str * ServiceInfo))
    (vs : list pyobj) : str :=
  match svcs, vs with
  | svc :: svcs', v :: vs' => service_line E svc v ++ service_lines E svcs' vs'
  | _, _ => []
  end.

(** How many adapters gave a result. *)
Fixpoint successes (vs : list pyobj) : Z :=
  match vs with
  | [] => 0
  | v :: vs' => (if truthy v then 1 else 0) + successes vs'
  end.

Definition ALL_HEADER : str := MARK_LINK ++ lit " **Shortened URLs**" ++ NL ++ NL.

(** The trailer "[k]/4 successful". *)
Definition trailer (k : Z) : str :=
  MARK_OK ++ lit " **" ++ str_of_int k ++ lit "/4 successful**".






Definition ALL_FAILED : str :=
  MARK_FAIL ++ lit " All services failed. Please try again later.".

Definition MSG_ALL_ERROR : str :=
  MARK_FAIL ++ lit " Error generating shortened URLs. Please try again.".

Definition MSG_SINGLE_ERROR : str :=
  MARK_FAIL ++ lit " Error generating shortened URL. Please try again.".

(* ================================================================== *)
(** ** Reachable worlds *)
(* ================================================================== *)

(** The worlds the bot can be in: it starts with an empty cache, and then
    stores URLs, looks ids up and handles callbacks, in any order and
    against any environment. *)
Inductive reachable : World -> Prop :=
| reach_start rs cs :
    reachable {| url_cache := ∅; requests := rs; tg_calls := cs |}
| reach_store_url url w :
    reachable w -> reachable (snd (store_url url w))
| reach_get_url url_id w :
    reachable w -> reachable (snd (get_url url_id w))
| reach_button_handler E data w :
    reachable w -> reachable (snd (button_handler E data w)).

(** Every entry of the cache sits under the id of its URL. *)
Definition cache_consistent (w : World) : Prop :=
  map_Forall (fun (k : list Z) (v : str) => generate_url_id v = Ok k) (url_cache w).

(** A digit of lower-case hexadecimal. *)
Definition is_hex_digit (c : Z) : bool :=
  in_range 0x30 0x39 c || in_range 0x61 0x66 c.

(** [w'] is [w] with more provider calls and more calls on [query] at the
    end of the logs, and the same cache. *)
Definition grows (w w' : World) : Prop :=
  url_cache w' = url_cache w
  /\ (exists rs, requests w' = requests w ++ rs)
  /\ (exists cs, tg_calls w' = tg_calls w ++ cs).

(** A computation that leaves the cache as it was and only adds to the
    logs. *)
Definition logs_only {A : Type} (m : M A) : Prop :=
  forall w, grows w (snd (m w)).

(* ================================================================== *)
(** ** Environments for the examples *)
(* ================================================================== *)

Definition empty_world : World :=
  {| url_cache := ∅; requests := []; tg_calls := [] |}.

Definition example_config : Config :=
  {| BITLY_TOKEN := lit "b1tly-token";
     CUTTLY_API := lit "cuttly-key";
     GPLINKS_API := lit "gplinks-key" |}.

(** The double quote, for JSON bodies. *)
Definition QUOTE : str := [0x22].

(** Python objects print as a placeholder; ASCII capitalisation. *)
Definition example_repr (o : pyobj) : str := lit "<object>".

Definition example_capitalize (s : str) : str :=
  match s with
  | [] => []
  | c :: s' =>
      (if is_lower_ascii c then c - 32 else c)
        :: map (fun x => if is_upper_ascii x then x + 32 else x) s'
  end.

(** bitly and tinyurl answer with a short link, cuttly cannot be reached,
    gplinks answers 500 to every call. *)
Definition two_of_four_net (history : list request) (r : request) : reply :=
  if str_eqb (req_url r) (lit "https://api-ssl.bitly.com/v4/shorten") then
    Reply {| status_code := 200;
             text := lit "{" ++ QUOTE ++ lit "link" ++ QUOTE ++ lit ": " ++ QUOTE
                       ++ lit "https://bit.ly/3xYz" ++ QUOTE ++ lit "}";
             json := Ok (PyDict [ (lit "link", PyStr (lit "https://bit.ly/3xYz")) ]) |}
  else if str_eqb (req_url r) (lit "http://tinyurl.com/api-create.php") then
    Reply {| status_code := 200;
             text := lit "https://tinyurl.com/abc123";
             json := Raise ValueError |}
  else if str_eqb (req_url r) (lit "https://cutt.ly/api/api.php") then Fails
  else Reply {| status_code := 500; text := lit "Internal Server Error";
                json := Raise ValueError |}.

Definition two_of_four_env : Env :=
  {| config := example_config;
     net := two_of_four_net;
     tg_raises := fun _ _ => false;
     py_repr := example_repr;
     capitalize := example_capitalize |}.

(** No provider can be reached. *)
Definition offline_env : Env :=
  {| config := example_config;
     net := fun _ _ => Fails;
     tg_raises := fun _ _ => false;
     py_repr := example_repr;
     capitalize := example_capitalize |}.

(** No credential is configured; tinyurl answers. *)
Definition no_credentials_env : Env :=
  {| config := {| BITLY_TOKEN := []; CUTTLY_API := []; GPLINKS_API := [] |};
     net := two_of_four_net;
     tg_raises := fun _ _ => false;
     py_repr := example_repr;
     capitalize := example_capitalize |}.





(** Two valid URLs whose short ids collide. *)
Definition URL_1548 : str := lit "https://example.com/1548".
Definition URL_2133 : str := lit "https://example.com/2133".

(** A valid URL that [str.encode()] refuses: its path is a lone
    surrogate. *)
Definition URL_SURROGATE : str := lit "http://a.co/" ++ [0xD800].

(** Number of services reported as connected. *)
Definition count_connected (st : ApiStatus) : Z :=
  Z.of_nat (length (filter (fun kv => connected (snd kv) = true) (services st))).

(* ================================================================== *)
(** ** Failures of a provider call, as the specification lists them *)
(* ================================================================== *)

(** The service needs a credential and none is configured. *)
Definition credential_missing (E : Env) (service : str) : Prop :=
  (service = lit "bitly" /\ BITLY_TOKEN (config E) = [])
  \/ (service = lit "cuttly" /\ CUTTLY_API (config E) = [])
  \/ (service = lit "gplinks" /\ GPLINKS_API (config E) = []).

(** The value and the provider calls of one adapter run from [w], for a
    valid URL and with the credential of the service configured. *)
Definition adapter_gives (E : Env) (url service : str) (w : World)
    (v : pyobj) (rs : list request) : Prop :=
  (service = lit "bitly"
   /\ rs = [bitly_request E url]
   /\ gives (bitly_reads (net E (requests w) (bitly_request E url))) v)
  \/ (service = lit "tinyurl"
      /\ rs = [tinyurl_request url]
      /\ gives (tinyurl_reads (net E (requests w) (tinyurl_request url))) v)
  \/ (service = lit "cuttly"
      /\ rs = [cuttly_request E url]
      /\ gives (cuttly_reads (net E (requests w) (cuttly_request E url))) v)
  \/ (service = lit "gplinks" /\ gplinks_gives E url w v rs).

(** The call [r], made after the calls [h], raised or was answered with a
    status other than 200. *)
Definition call_failed (E : Env) (h : list request) (r : request) : Prop :=
  net E h r = Fails
  \/ exists resp, net E h r = Reply resp /\ status_code resp <> 200.

(** The call [r], made after the calls [h], was answered with status 200
    and a body that the parser refuses, whatever it raises. *)
Definition body_unparseable (E : Env) (h : list request) (r : request) : Prop :=
  exists resp e,
    net E h r = Reply resp /\ status_code resp = 200 /\ json resp = Raise e.

(** One adapter run from [w] for a valid URL, with the credential of the
    service configured, gave the value [v] after the calls [rs], and it
    fails closed: [v] and [rs] are what the answers give and nothing else;
    [v] is absent when the last call raised or was answered with a status
    other than 200; and for bitly and cuttly, which read JSON, when the
    parser refused the body. *)
Definition fails_closed (E : Env) (url service : str) (w : World)
    (v : pyobj) (rs : list request) : Prop :=
  adapter_gives E url service w v rs
  /\ (forall v' rs', adapter_gives E url service w v' rs' -> v' = v /\ rs' = rs)
  /\ (forall h r, rs = h ++ [r] -> call_failed E (requests w ++ h) r -> v = PyNone)
  /\ (service = lit "bitly" \/ service = lit "cuttly" ->
      forall r, rs = [r] -> body_unparseable E (requests w) r -> v = PyNone).

(** What [send_single_shortened_url] does with a first edit [edit] from
    the world [w1]: the edit alone when the SDK takes it, and the apology
    after it when the SDK refuses it; it raises only if the SDK refuses the
    apology too. *)
Definition edits_once_or_apologises (E : Env) (w1 : World) (edit : tg_call)
    (result : outcome unit * World) : Prop :=
  let apology := EditMessageText MSG_SINGLE_ERROR false in
  result
  = if tg_raises E (tg_calls w1) edit then
      (if tg_raises E (tg_calls w1 ++ [edit]) apology
       then Raise TelegramError else Ok tt,
       add_tg_calls w1 [edit; apology])
    else (Ok tt, add_tg_calls w1 [edit]).

Definition MSG_GPLINKS_FAILED : str :=
  MARK_FAIL ++ lit " Failed to shorten URL using GPLinks.".

(** The message of [send_single_shortened_url] for the value [v]. *)
Definition single_message (E : Env) (service : str) (v : pyobj) : str :=
  let service_name :=
    match assoc service SUPPORTED_SERVICES with
    | Some info => name info
    | None => capitalize E service
    end in
  if truthy v then
    MARK_OK ++ lit " **" ++ service_name ++ lit "**" ++ NL
      ++ MARK_LINK ++ lit " `" ++ py_str E v ++ lit "`"
      ++ (if str_eqb service (lit "gplinks")
          then NL ++ NL ++ MARK_MONEY ++ lit " *Earn money with this shortened link!*"
          else [])
  else MARK_FAIL ++ lit " Failed to shorten URL using " ++ service_name ++ lit ".".

(** gplinks answers the GET with status 500 and the POST with a short
    link; tinyurl answers with an error page. *)
Definition SHORT_LINK : str := lit "https://gplinks.in/abc".
Definition ERROR_PAGE : str := lit "<html>Error: service unavailable</html>".

Definition retry_net (history : list request) (r : request) : reply :=
  if str_eqb (req_url r) (lit "http://tinyurl.com/api-create.php") then
    Reply {| status_code := 200; text := ERROR_PAGE; json := Raise ValueError |}
  else
    match req_method r with
    | GET => Reply {| status_code := 500; text := lit "Internal Server Error";
                      json := Raise ValueError |}
    | POST => Reply {| status_code := 200; text := SHORT_LINK ++ NL;
                       json := Raise ValueError |}
    end.

Definition retry_env : Env :=
  {| config := example_config;
     net := retry_net;
     tg_raises := fun _ _ => false;
     py_repr := example_repr;
     capitalize := example_capitalize |}.

(* ================================================================== *)
(** ** The message handlers: [start], [help], [status], [shorten],
       [handle_message], [process_url] *)
(* ================================================================== *)

(** [InlineKeyboardButton(text, callback_data=...)] *)
Record InlineKeyboardButton : Type := {
  button_text : str;
  callback_data : str }.

(** Calls on [update.message] with their keyword arguments:
    [markdown] stands for [parse_mode='Markdown'], an empty [reply_markup]
    for none; [reply_photo] is only called with [parse_mode='HTML']. *)
Inductive message_call : Type :=
| MessageReplyChatAction (action : str)
| MessageReplyText (text : str) (markdown : bool)
    (reply_markup : list (list InlineKeyboardButton))
    (disable_web_page_preview : bool)
| MessageReplyPhoto (photo caption : str)
| MessageReplyHtml (text : str).

(** The state a message handler runs in: the world, the calls made on
    [update.message], and the calls of [requests.head] with their
    timeout. *)
Record Chat : Type := {
  world : World;
  message_calls : list message_call;
  head_calls : list (str * Z) }.

(** The environment of a message handler: that of the callbacks, whether
    a call on [update.message] raises, given the calls before it, and the
    status code [requests.head] gets for a URL, [None] when it raises. *)
Record ChatEnv : Type := {
  env : Env;
  message_raises : list message_call -> message_call -> bool;
  head_status : list (str * Z) -> str -> option Z }.

(** What else [start] and [status] read of the configuration.  The bot
    only exists when [BOT_TOKEN] is set, so it is a string here. *)
Record BotConfig : Type := {
  BOT_TOKEN : str;
  WEBHOOK_URL : str;
  WELCOME_IMAGE_URL : str }.

(** Computations of the message handlers. *)
Definition H (A : Type) : Type := Chat -> outcome A * Chat.

Definition h_ret {A : Type} (a : A) : H A := fun c => (Ok a, c).

Definition h_bind {A B : Type} (m : H A) (k : A -> H B) : H B :=
  fun c =>
    match m c with
    | (Ok a, c') => k a c'
    | (Raise e, c') => (Raise e, c')
    end.

(** [try: m except Exception: h] *)
Definition h_try_except {A : Type} (m : H A) (h : H A) : H A :=
  fun c =>
    match m c with
    | (Ok a, c') => (Ok a, c')
    | (Raise _, c') => h c'
    end.

(** A computation on the world, run inside a message handler. *)
Definition in_world {A : Type} (m : M A) : H A :=
  fun c =>
    let '(o, w') := m (world c) in
    (o, {| world := w'; message_calls := message_calls c;
           head_calls := head_calls c |}).

Notation "x <~ m ;; k" := (h_bind m (fun x => k))
  (at level 100, m at next level, right associativity).
Notation "m ~> k" := (h_bind m (fun _ => k))
  (at level 100, right associativity).

(** A call on [update.message]: recorded, then it returns or raises. *)
Definition message (CE : ChatEnv) (call : message_call) : H unit :=
  fun c =>
    let c' := {| world := world c;
                 message_calls := message_calls c ++ [call];
                 head_calls := head_calls c |} in
    if message_raises CE (message_calls c) call then (Raise TelegramError, c')
    else (Ok tt, c').

(** [update.message.reply_text(text)] and
    [update.message.reply_text(text, parse_mode='Markdown')]. *)
Definition reply_text (CE : ChatEnv) (text : str) : H unit :=
  message CE (MessageReplyText text false [] false).

Definition reply_markdown (CE : ChatEnv) (text : str) : H unit :=
  message CE (MessageReplyText text true [] false).

Definition MARK_GLOBE : str := [0xF8FF; 0xFC; 0xE5; 0xEA].
Definition MARK_CHART : str := [0xF8FF; 0xFC; 0xEC; 0xE4].
Definition MARK_ROCKET : str := [0xF8FF; 0xFC; 0xF6; 0xC4].
Definition MARK_WRENCH : str := [0xF8FF; 0xFC; 0xEE; 0xDF].

Definition MSG_INVALID_URL : str :=
  MARK_FAIL ++ lit " Please provide a valid URL starting with http:// or https://".
Definition MSG_PROCESS_ERROR : str :=
  MARK_FAIL ++ lit " An error occurred while processing your URL. Please try again.".
Definition MSG_NO_SCHEME : str :=
  lit "Please send a valid URL starting with http:// or https://".
Definition MSG_USAGE : str :=
  lit "Please provide a URL to shorten. Usage: `/shorten <URL>`".
Definition MSG_STATUS_ERROR : str := MARK_FAIL ++ lit " Error checking status".

(** The two parts of the f-string [welcome_text] of [start], around
    [user.mention_html()], and [help_text], as the source file stores
    them. *)
Definition WELCOME_HEAD : str :=
  NL ++
  [0xF8FF; 0xFC; 0xEB; 0xE3] ++ lit " Hello ".

Definition WELCOME_TAIL : str :=
  lit "!" ++ NL ++
  NL ++
  lit "**Welcome to URL Shortener Bot!** " ++ [0xF8FF; 0xFC; 0xE5; 0xEA] ++
  NL ++
  NL ++
  lit "I can shorten your long URLs using various services and help you earn money with shortened links!" ++
  NL ++
  NL ++
  [0x201A; 0xFA; 0xAE] ++ lit " **Features:**" ++ NL ++
  [0x201A; 0xC4; 0xA2] ++ lit " Multiple URL shortening services" ++ NL ++
  [0x201A; 0xC4; 0xA2] ++ lit " Easy-to-use interface" ++ NL ++
  [0x201A; 0xC4; 0xA2] ++ lit " Monetization options with GPLinks" ++ NL ++
  [0x201A; 0xC4; 0xA2] ++ lit " Fast and reliable service" ++ NL ++
  NL ++
  [0xF8FF; 0xFC; 0xEC; 0xE3] ++ lit " **Available Commands:**" ++ NL ++
  lit "/start - Start the bot" ++ NL ++
  lit "/help - Show help message  " ++ NL ++
  lit "/shorten - Shorten a URL" ++ NL ++
  lit "/status - Check API key status" ++ NL ++
  NL ++
  [0xF8FF; 0xFC; 0xF6; 0xC4] ++ lit " **Get Started:**" ++ NL ++
  lit "Simply send me a URL or use /shorten command to begin!" ++ NL ++
  lit "            ".

Definition HELP_TEXT : str :=
  NL ++
  [0xF8FF; 0xFC; 0xA7; 0xF1] ++ lit " **URL Shortener Bot Help Guide**" ++
  NL ++
  NL ++
  [0xF8FF; 0xFC; 0xEC; 0xF1] ++ lit " **How to use:**" ++ NL ++
  lit "1. Send me any long URL directly" ++ NL ++
  lit "2. Or use `/shorten <URL>` command" ++ NL ++
  lit "3. Choose your preferred shortening service" ++ NL ++
  lit "4. Get your shortened link instantly!" ++ NL ++
  NL ++
  [0xF8FF; 0xFC; 0xF5; 0x2020] ++ lit " **Supported Services:**" ++ NL ++
  [0x201A; 0xFA; 0xD6] ++ lit " **Bitly** - Professional URL shortening with analytics" ++
  NL ++
  [0x201A; 0xFA; 0xD6] ++ lit " **TinyURL** - Simple, reliable, no API key required  " ++
  NL ++
  [0x201A; 0xFA; 0xD6] ++ lit " **Cuttly** - Advanced analytics and customization" ++
  NL ++
  [0x201A; 0xFA; 0xD6] ++ lit " **GPLinks** - Earn money from your shortened links!" ++
  NL ++
  NL ++
  [0xF8FF; 0xFC; 0xED; 0x221E] ++ lit " **Monetization:**" ++ NL ++
  lit "With GPLinks, you can earn revenue from every click!" ++ NL ++
  lit "Sign up at https://gplinks.in for your API key." ++ NL ++
  lit "            ".


(** [raise] *)
Definition h_raise {A : Type} (e : exn) : H A := fun c => (Raise e, c).

(** [is_image_accessible]: a HEAD request with a timeout of 10 seconds;
    any failure counts as not accessible. *)
Definition is_image_accessible (CE : ChatEnv) (url : str) : H bool :=
  fun c =>
    (Ok match head_status CE (head_calls c) url with
        | Some status_code => status_code =? 200
        | None => false
        end,
     {| world := world c;
        message_calls := message_calls c;
        head_calls := head_calls c ++ [(url, 10)] |}).

(** [start]; [user] is [user.mention_html()] of [update.effective_user],
    [None] for an update without user, where the attribute access
    raises. *)
Definition start (CE : ChatEnv) (bc : BotConfig) (user : option str) : H unit :=
  h_try_except
    (mention <~ match user with
                | Some mention => h_ret mention
                | None => h_raise AttributeError
                end ;;
     let welcome_text := WELCOME_HEAD ++ mention ++ WELCOME_TAIL in
     accessible <~ (if nonempty (WELCOME_IMAGE_URL bc)
                    then is_image_accessible CE (WELCOME_IMAGE_URL bc)
                    else h_ret false) ;;
     image_sent <~ (if accessible then
                      h_try_except
                        (message CE (MessageReplyPhoto (WELCOME_IMAGE_URL bc)
                                       welcome_text) ~>
                         h_ret true)
                        (h_ret false)
                    else h_ret false) ;;
     if negb image_sent then message CE (MessageReplyHtml welcome_text)
     else h_ret tt)
    (reply_text CE MSG_ERROR).

(** [help] *)
Definition help (CE : ChatEnv) : H unit :=
  h_try_except (reply_markdown CE HELP_TEXT) (reply_text CE MSG_ERROR).

(** The [keyboard] of [process_url] for the id [url_id]. *)
Definition keyboard (url_id : str) : list (list InlineKeyboardButton) :=
  [ [ {| button_text := MARK_GLOBE ++ lit " Bitly";
         callback_data := lit "s_bitly_" ++ url_id |};
      {| button_text := MARK_LINK ++ lit " TinyURL";
         callback_data := lit "s_tiny_" ++ url_id |} ];
    [ {| button_text := MARK_CHART ++ lit " Cuttly";
         callback_data := lit "s_cutt_" ++ url_id |};
      {| button_text := MARK_MONEY ++ lit " GPLinks";
         callback_data := lit "s_gpl_" ++ url_id |} ];
    [ {| button_text := MARK_ROCKET ++ lit " All Services";
         callback_data := lit "s_all_" ++ url_id |} ] ].

(** [display_url]: the URL, cut to 47 characters and ["..."] when it has
    more than 50. *)
Definition display_url (url : str) : str :=
  if (50 <? length url)%nat then firstn 47 url ++ lit "..." else url.

(** [process_url] *)
Definition process_url (CE : ChatEnv) (url : str) : H unit :=
  h_try_except
    (if negb (is_valid_url url) then reply_text CE MSG_INVALID_URL
     else
       message CE (MessageReplyChatAction (lit "typing")) ~>
       url_id <~ in_world (store_url url) ;;
       let reply_markup := keyboard url_id in
       message CE
         (MessageReplyText
            (MARK_LINK ++ lit " **Original URL:**" ++ NL ++ lit "`"
               ++ display_url url ++ lit "`" ++ NL ++ NL
               ++ lit "**Choose a service to shorten:**")
            true reply_markup true))
    (reply_text CE MSG_PROCESS_ERROR).

(** [handle_message]; [text] is [update.message.text]. *)
Definition handle_message (CE : ChatEnv) (text : str) : H unit :=
  h_try_except
    (let url := strip text in
     if negb (startswith url (lit "http://") || startswith url (lit "https://"))
     then reply_text CE MSG_NO_SCHEME
     else process_url CE url)
    (reply_text CE MSG_ERROR).

(** [sep.join(parts)] *)
Fixpoint join (sep : str) (parts : list str) : str :=
  match parts with
  | [] => []
  | [p] => p
  | p :: parts' => p ++ sep ++ join sep parts'
  end.

(** [shorten]; [args] is [context.args]. *)
Definition shorten (CE : ChatEnv) (args : list str) : H unit :=
  h_try_except
    (match args with
     | [] => reply_markdown CE MSG_USAGE
     | _ => let url := join (lit " ") args in process_url CE url
     end)
    (reply_text CE MSG_ERROR).

(** [s.replace(old, new)] for a non-empty [old]: the occurrences are
    taken from left to right, none overlapping; [skip] counts the code
    points still covered by the last one. *)
Fixpoint replace_from (skip : nat) (old new s : str) : str :=
  match s with
  | [] => []
  | c :: s' =>
      match skip with
      | S k => replace_from k old new s'
      | O =>
          if startswith s old then new ++ replace_from (length old - 1) old new s'
          else c :: replace_from 0 old new s'
      end
  end.

Definition str_replace (s old new : str) : str := replace_from 0 old new s.

(** The body of the loop of [status] for one service: what it adds to
    [status_text]. *)
Definition status_line (c : Config) (svc : str * ServiceInfo) : str :=
  let '(service_key, service_info) := svc in
  let service_name := name service_info in
  let requires_key := requires_key service_info in
  let '(has_key, key_preview) :=
    if str_eqb service_key (lit "bitly") then
      let has_key := nonempty (BITLY_TOKEN c) in
      (has_key, if has_key then firstn 8 (BITLY_TOKEN c) ++ lit "..." else lit "Not set")
    else if str_eqb service_key (lit "cuttly") then
      let has_key := nonempty (CUTTLY_API c) in
      (has_key, if has_key then firstn 8 (CUTTLY_API c) ++ lit "..." else lit "Not set")
    else if str_eqb service_key (lit "gplinks") then
      let has_key := nonempty (GPLINKS_API c) in
      (has_key, if has_key then firstn 8 (GPLINKS_API c) ++ lit "..." else lit "Not set")
    else (true, lit "Not required") in
  lit "**" ++ service_name ++ lit "**: "
    ++ (if requires_key then (if has_key then MARK_OK else MARK_FAIL) else MARK_OK)
    ++ lit " (" ++ key_preview ++ lit ")" ++ NL.

(** The text [status] builds. *)
Definition status_text (c : Config) (bc : BotConfig) : str :=
  let status_text := MARK_WRENCH ++ lit " **API Key Status**" ++ NL ++ NL in
  let status_text :=
    fold_left (fun text svc => text ++ status_line c svc) SUPPORTED_SERVICES
              status_text in
  if nonempty (WEBHOOK_URL bc) then
    let dashboard_url := str_replace (WEBHOOK_URL bc) (lit "/" ++ BOT_TOKEN bc) [] in
    status_text ++ NL ++ MARK_GLOBE ++ lit " **Web Dashboard:** " ++ dashboard_url
  else status_text.

(** [status] *)
Definition status_command (CE : ChatEnv) (bc : BotConfig) : H unit :=
  h_try_except
    (reply_markdown CE (status_text (config (env CE)) bc))
    (reply_text CE MSG_STATUS_ERROR).

(* ================================================================== *)
(** ** Words for the further properties *)
(* ================================================================== *)

(** A code point that UTF-8 can encode: in the range of Unicode and not a
    surrogate. *)
Definition is_scalar_value (c : Z) : bool :=
  (0 <=? c) && (c <? 0x110000) && negb (in_range 0xD800 0xDFFF c).

(** The chat after some more calls on [update.message]. *)
Definition add_message_calls (c : Chat) (cs : list message_call) : Chat :=
  {| world := world c; message_calls := message_calls c ++ cs;
     head_calls := head_calls c |}.

(** The updates the handlers are registered for: [/start] from a user
    (or from none), [/help], [/shorten] with its arguments, [/status], a
    text that is no command, and a press of a button with its
    [callback_data]. *)
Inductive update : Type :=
| StartCommand (user : option str)
| HelpCommand
| TextMessage (text : str)
| ShortenCommand (args : list str)
| StatusCommand
| CallbackQuery (data : str).

Definition handle (CE : ChatEnv) (bc : BotConfig) (u : update) : H unit :=
  match u with
  | StartCommand user => start CE bc user
  | HelpCommand => help CE
  | TextMessage text => handle_message CE text
  | ShortenCommand args => shorten CE args
  | StatusCommand => status_command CE bc
  | CallbackQuery data => in_world (button_handler (env CE) data)
  end.

(** The chats the bot can be in: it starts with an empty cache and then
    handles one update after the other, against any configuration,
    providers and SDK. *)
Inductive handled : Chat -> Prop :=
| handled_start rs cs ms hs :
    handled {| world := {| url_cache := ∅; requests := rs; tg_calls := cs |};
               message_calls := ms; head_calls := hs |}
| handled_update CE bc u c :
    handled c -> handled (snd (handle CE bc u c)).

(** What pressing a button runs once the URL is found. *)
Definition dispatch (E : Env) (url service : str) : M unit :=
  if str_eqb service (lit "all") then send_all_shortened_urls E url
  else send_single_shortened_url E url service.

(** The [except] branch of [button_handler]. *)
Definition apologise (E : Env) : M unit :=
  try_except (tg E (EditMessageText MSG_ERROR false))
             (tg E (ReplyText MSG_ERROR)).

(** An SDK whose calls on [update.message] all succeed. *)
Definition quiet (E : Env) : ChatEnv :=
  {| env := E;
     message_raises := fun _ _ => false;
     head_status := fun _ _ => Some 200 |}.

Definition empty_chat : Chat :=
  {| world := empty_world; message_calls := []; head_calls := [] |}.

Definition example_webhook : BotConfig :=
  {| BOT_TOKEN := lit "123456:ABC-DEF";
     WEBHOOK_URL := lit "https://bot.example.com/123456:ABC-DEF";
     WELCOME_IMAGE_URL := lit "https://iili.io/Kcbrql9.th.jpg" |}.

(** The message [process_url] sends with the keyboard. *)
Definition choose_message (url url_id : str) : message_call :=
  MessageReplyText
    (MARK_LINK ++ lit " **Original URL:**" ++ NL ++ lit "`"
       ++ display_url url ++ lit "`" ++ NL ++ NL
       ++ lit "**Choose a service to shorten:**")
    true (keyboard url_id) true.

Definition TYPING : message_call := MessageReplyChatAction (lit "typing").

(** A plain reply. *)
Definition plain (text : str) : message_call := MessageReplyText text false [] false.

(** The URL an update asks the bot to offer buttons for, if any. *)
Definition offered_url (u : update) : option str :=
  match u with
  | TextMessage text => Some (strip text)
  | ShortenCommand (arg :: args) => Some (join (lit " ") (arg :: args))
  | _ => None
  end.

(** The apology a handler ends with when everything else failed. *)
Definition last_resort (u : update) : message_call + tg_call :=
  match u with
  | StartCommand _ | HelpCommand | TextMessage _ | ShortenCommand _ =>
      inl (plain MSG_ERROR)
  | StatusCommand => inl (plain MSG_STATUS_ERROR)
  | CallbackQuery _ => inr (ReplyText MSG_ERROR)
  end.

(** An SDK that refuses every call on [update.message]. *)
Definition deaf (E : Env) : ChatEnv :=
  {| env := E;
     message_raises := fun _ _ => true;
     head_status := fun _ _ => None |}.

(** The provider calls one adapter run can make, as the sequences it can
    add to the log: none, its one call, or for gplinks the GET alone or the
    GET and then the POST. *)
Definition possible_requests (E : Env) (url service : str) : list (list request) :=
  if str_eqb service (lit "bitly") then [ []; [bitly_request E url] ]
  else if str_eqb service (lit "tinyurl") then [ []; [tinyurl_request url] ]
  else if str_eqb service (lit "cuttly") then [ []; [cuttly_request E url] ]
  else if str_eqb service (lit "gplinks") then
    [ []; [gplinks_get_request E url];
      [gplinks_get_request E url; gplinks_post_request E url] ]
  else [ [] ].

(** The fields of a request that carry arguments. *)
Definition arguments (r : request) : list (str * str) :=
  req_params r ++ req_json r ++ req_data r.

(** cuttly answers with a short link; no other provider can be reached. *)
Definition cuttly_env : Env :=
  {| config := example_config;
     net := fun _ r =>
       if str_eqb (req_url r) (lit "https://cutt.ly/api/api.php") then
         Reply {| status_code := 200;
                  text := lit "{...}";
                  json := Ok (PyDict
                    [ (lit "url",
                       PyDict [ (lit "status", PyInt 7);
                                (lit "shortLink", PyStr (lit "https://cutt.ly/abc")) ]) ]) |}
       else Fails;
     tg_raises := fun _ _ => false;
     py_repr := example_repr;
     capitalize := example_capitalize |}.

(** How many provider calls one adapter run can make. *)
Definition call_bound (service : str) : nat :=
  if str_eqb service (lit "gplinks") then 2 else 1.

(** A computation that adds at most [n] provider calls. *)
Definition calls_at_most {A : Type} (n : nat) (m : M A) : Prop :=
  forall w, exists rs,
    requests (snd (m w)) = requests w ++ rs /\ (length rs <= n)%nat.

(** gplinks answers every call with a page of text that mentions a link. *)
Definition gplinks_text_env : Env :=
  {| config := example_config;
     net := fun _ r =>
       if str_eqb (req_url r) (lit "https://gplinks.in/api") then
         Reply {| status_code := 200;
                  text := lit "Your link: https://gplinks.co/abc (valid for 30 days)";
                  json := Raise ValueError |}
       else Fails;
     tg_raises := fun _ _ => false;
     py_repr := example_repr;
     capitalize := example_capitalize |}.

(** A configuration whose credentials agree with [example_config] on their
    first eight characters. *)
Definition other_config : Config :=
  {| BITLY_TOKEN := lit "b1tly-toXYZ";
     CUTTLY_API := lit "cuttly-kXYZ";
     GPLINKS_API := lit "gplinks-XYZ" |}.

(** A computation of a message handler that leaves the world alone. *)
Definition keeps_world {A : Type} (m : H A) : Prop :=
  forall c, world (snd (m c)) = world c.

(** The welcome of [start] for a user, and the two calls that can carry
    it. *)
Definition welcome_text (mention : str) : str :=
  WELCOME_HEAD ++ mention ++ WELCOME_TAIL.

Definition welcome_photo (bc : BotConfig) (mention : str) : message_call :=
  MessageReplyPhoto (WELCOME_IMAGE_URL bc) (welcome_text mention).

Definition welcome_html (mention : str) : message_call :=
  MessageReplyHtml (welcome_text mention).

(** The image cannot be reached, and the SDK takes every call. *)
Definition no_image (E : Env) : ChatEnv :=
  {| env := E;
     message_raises := fun _ _ => false;
     head_status := fun _ _ => Some 404 |}.

(* ================================================================== *)
(** * Properties *)
(* ================================================================== *)

(** ** Strings *)

Lemma nonempty_true (s : str) : nonempty s = true <-> s <> [].
Proof. destruct s; simpl; split; congruence. Qed.

Example strip_examples :
  strip (lit "  http://x.y " ++ NL) = lit "http://x.y"
  /\ strip (0xA0 :: lit "a b" ++ [0x2003]) = lit "a b"
  /\ strip (lit " " ++ NL) = [].
Proof. vm_compute. auto. Qed.

Example split_examples :
  split 0x5F 2 (lit "s_gpl_deadbeef") = [lit "s"; lit "gpl"; lit "deadbeef"]
  /\ split 0x5F 2 (lit "s_all_ab_cd") = [lit "s"; lit "all"; lit "ab_cd"]
  /\ split 0x5F 2 (lit "s_") = [lit "s"; []]
  /\ split 0x5F 2 (lit "start") = [lit "start"].
Proof. vm_compute. auto. Qed.

Example findall_examples :
  findall_urls (lit "Error: see http://x.y/z now or https://w.v") =
    [lit "http://x.y/z"; lit "https://w.v"]
  /\ findall_urls (lit "http:// and HTTP://a.b") = []
  /\ findall_urls (lit "xhttps://a.bhttp://c d") = [lit "https://a.bhttp://c"].
Proof. vm_compute. auto. Qed.

(** The test suite of RFC 1321. *)
Example md5_test_suite :
  map (fun s => MD5.hexdigest (lit s))
      [ EmptyString; "a"; "abc"; "message digest"; "abcdefghijklmnopqrstuvwxyz";
        "ABCDEFGHIJKLMNOPQRSTUVWXYZabcdefghijklmnopqrstuvwxyz0123456789";
        "12345678901234567890123456789012345678901234567890123456789012345678901234567890"
      ]%string
  = map lit
      [ "d41d8cd98f00b204e9800998ecf8427e"; "0cc175b9c0f1b6a831c399e269772661";
        "900150983cd24fb0d6963f7d28e17f72"; "f96b697d7cb7938d525a2f31aaf161d0";
        "c3fcd3d76192e4007dfb496cca67e13b"; "d174ab98d277d9f5a5611c2c9f419d9f";
        "57edf4a22be3c955ac49da2e2107b67a" ]%string.
Proof. vm_compute. reflexivity. Qed.

Example short_ids :
  generate_url_id (lit "http://example.com") = Ok (lit "a9b9f043")
  /\ generate_url_id (lit "https://" ++ [0xE9] ++ lit ".co/" ++ [0x20AC; 0x1F600])
     = Ok (lit "4c3c512c").
Proof. vm_compute. auto. Qed.

(** ** The matcher decides the language of a regular expression *)

Lemma lang_never s : ~ re_lang Never s.
Proof. intros H; inversion H. Qed.

Lemma lang_eps s : re_lang Eps s <-> s = [].
Proof. split; [intros H; now inversion H | intros ->; constructor]. Qed.

Lemma lang_class p s : re_lang (Class p) s <-> exists c, s = [c] /\ p c = true.
Proof.
  split.
  - intros H; inversion H; subst; eauto.
  - intros (c & -> & Hc); now constructor.
Qed.

Lemma lang_seq r1 r2 s :
  re_lang (Seq r1 r2) s <->
  exists s1 s2, s = s1 ++ s2 /\ re_lang r1 s1 /\ re_lang r2 s2.
Proof.
  split.
  - intros H; inversion H; subst; eauto.
  - intros (s1 & s2 & -> & H1 & H2); now constructor.
Qed.

Lemma lang_alt r1 r2 s : re_lang (Alt r1 r2) s <-> re_lang r1 s \/ re_lang r2 s.
Proof.
  split.
  - intros H; inversion H; subst; auto.
  - intros [H | H]; [now apply L_alt_l | now apply L_alt_r].
Qed.

Lemma lang_opt r s : re_lang (Opt r) s <-> s = [] \/ re_lang r s.
Proof. unfold Opt. rewrite lang_alt, lang_eps. tauto. Qed.

Lemma nullable_spec r : nullable r = true <-> re_lang r [].
Proof.
  induction r; simpl.
  - split; [discriminate | intros H; inversion H].
  - split; [constructor | reflexivity].
  - split; [discriminate | intros H; inversion H].
  - rewrite andb_true_iff, IHr1, IHr2, lang_seq. split.
    + intros [H1 H2]. exists [], []. auto.
    + intros (s1 & s2 & Hs & H1 & H2).
      symmetry in Hs. apply app_eq_nil in Hs as [-> ->]. auto.
  - rewrite orb_true_iff, IHr1, IHr2, lang_alt. tauto.
  - split; [constructor | reflexivity].
Qed.

Lemma mk_seq_lang r1 r2 s : re_lang (mk_seq r1 r2) s <-> re_lang (Seq r1 r2) s.
Proof.
  rewrite lang_seq.
  assert (Hn1 : forall r, re_lang Never s <->
                          exists s1 s2, s = s1 ++ s2 /\ re_lang Never s1 /\ re_lang r s2).
  { intros r; split; [intros H; inversion H |].
    intros (? & ? & _ & H & _); inversion H. }
  assert (Hn2 : forall r, re_lang Never s <->
                          exists s1 s2, s = s1 ++ s2 /\ re_lang r s1 /\ re_lang Never s2).
  { intros r; split; [intros H; inversion H |].
    intros (? & ? & _ & _ & H); inversion H. }
  assert (He : forall r, re_lang r s <->
                         exists s1 s2, s = s1 ++ s2 /\ re_lang Eps s1 /\ re_lang r s2).
  { intros r; split.
    - intros H; exists [], s; repeat split; [constructor | assumption].
    - intros (s1 & s2 & -> & H1 & H2). apply lang_eps in H1 as ->. assumption. }
  destruct r1; simpl; try apply Hn1;
    destruct r2; simpl; try apply Hn2; try apply He; apply lang_seq.
Qed.

Lemma mk_alt_lang r1 r2 s : re_lang (mk_alt r1 r2) s <-> re_lang (Alt r1 r2) s.
Proof.
  rewrite lang_alt.
  pose proof (lang_never s) as Hn.
  destruct r1; simpl; try tauto; destruct r2; simpl; try tauto; apply lang_alt.
Qed.

Lemma star_cons_inv r c s :
  re_lang (Star r) (c :: s) ->
  exists s1 s2, s = s1 ++ s2 /\ re_lang r (c :: s1) /\ re_lang (Star r) s2.
Proof.
  intros H. remember (Star r) as r' eqn:Er. remember (c :: s) as t eqn:Et.
  revert c s Er Et.
  induction H; intros c' s' Er Et; try discriminate.
  injection Er as ->.
  destruct s1 as [| a s1].
  - simpl in Et. apply IHre_lang2; auto.
  - simpl in Et. injection Et as -> <-. eauto.
Qed.

Lemma deriv_spec c r s : re_lang (deriv c r) s <-> re_lang r (c :: s).
Proof.
  revert s; induction r; intros s; simpl.
  - split; intros H; inversion H.
  - split; intros H; inversion H.
  - destruct (p c) eqn:Hp.
    + rewrite lang_eps, lang_class. split.
      * intros ->; eauto.
      * intros (c' & [= -> ->] & _); reflexivity.
    + split; [intros H; inversion H |].
      rewrite lang_class. intros (c' & [= -> ->] & Hc). congruence.
  - rewrite mk_alt_lang, lang_alt, mk_seq_lang, !lang_seq. split.
    + intros [(s1 & s2 & -> & H1 & H2) | H].
      * exists (c :: s1), s2. rewrite <- IHr1. auto.
      * destruct (nullable r1) eqn:Hn; [| inversion H].
        exists [], (c :: s). rewrite <- nullable_spec, <- IHr2. auto.
    + intros (s1 & s2 & Hs & H1 & H2). destruct s1 as [| a s1].
      * right. simpl in Hs; subst s2.
        apply nullable_spec in H1 as ->. now apply IHr2.
      * left. injection Hs as <- ->. exists s1, s2. rewrite IHr1. auto.
  - rewrite mk_alt_lang, !lang_alt, IHr1, IHr2. tauto.
  - rewrite mk_seq_lang, lang_seq. split.
    + intros (s1 & s2 & -> & H1 & H2).
      apply IHr in H1. change (re_lang (Star r) ((c :: s1) ++ s2)).
      now constructor.
    + intros H. apply star_cons_inv in H as (s1 & s2 & -> & H1 & H2).
      exists s1, s2. rewrite IHr. auto.
Qed.

Theorem matches_spec r s : matches r s = true <-> re_lang r s.
Proof.
  revert r; induction s as [| c s IH]; intros r; simpl.
  - apply nullable_spec.
  - rewrite IH. apply deriv_spec.
Qed.

(** ** Languages of the derived forms *)

Lemma lang_star_class p s : re_lang (Star (Class p)) s <-> all_in p s.
Proof.
  split.
  - induction s as [| c s IH]; intros H; [constructor |].
    apply star_cons_inv in H as (s1 & s2 & -> & H1 & H2).
    apply lang_class in H1 as (c' & [= -> ->] & Hc).
    constructor; [assumption | apply IH, H2].
  - induction 1 as [| c s Hc _ IH]; [constructor |].
    change (re_lang (Star (Class p)) ([c] ++ s)).
    constructor; [now constructor | assumption].
Qed.

Lemma lang_plus_class p s :
  re_lang (Plus (Class p)) s <-> s <> [] /\ all_in p s.
Proof.
  unfold Plus. rewrite lang_seq. split.
  - intros (s1 & s2 & -> & H1 & H2).
    apply lang_class in H1 as (c & -> & Hc). apply lang_star_class in H2.
    split; [discriminate | now constructor].
  - intros [Hne Hall]. destruct Hall as [| c s Hc Hs]; [congruence |].
    exists [c], s. rewrite lang_star_class, lang_class. eauto.
Qed.

Lemma lang_upto_class p n s :
  re_lang (UpTo (Class p) n) s <-> (length s <= n)%nat /\ all_in p s.
Proof.
  revert s; induction n as [| n IH]; intros s; simpl.
  - rewrite lang_eps. split.
    + intros ->; split; [simpl; lia | constructor].
    + intros [Hl _]. destruct s; [reflexivity | simpl in Hl; lia].
  - rewrite lang_opt, lang_seq. split.
    + intros [-> | (s1 & s2 & -> & H1 & H2)].
      * split; [simpl; lia | constructor].
      * apply lang_class in H1 as (c & -> & Hc). apply IH in H2 as [Hl Ha].
        split; [simpl; lia | now constructor].
    + intros [Hl Ha]. destruct Ha as [| c s Hc Hs]; [now left | right].
      exists [c], s. rewrite lang_class, IH. simpl in Hl.
      repeat split; eauto. lia.
Qed.

Lemma lang_times_class p m rest s :
  re_lang (Times (Class p) m rest) s <->
  exists s1 s2, s = s1 ++ s2 /\ length s1 = m /\ all_in p s1 /\ re_lang rest s2.
Proof.
  revert s; induction m as [| m IH]; intros s; simpl.
  - split.
    + intros H. exists [], s. repeat split; [constructor | assumption].
    + intros (s1 & s2 & -> & Hl & _ & H). now destruct s1.
  - rewrite lang_seq. split.
    + intros (t1 & t2 & -> & H1 & H2).
      apply lang_class in H1 as (c & -> & Hc).
      apply IH in H2 as (s1 & s2 & -> & Hl & Ha & Hr).
      exists (c :: s1), s2. simpl. repeat split; auto. now constructor.
    + intros (s1 & s2 & -> & Hl & Ha & Hr).
      destruct Ha as [| c s1 Hc Hs]; [discriminate |].
      exists [c], (s1 ++ s2). rewrite lang_class, IH.
      repeat split; eauto. exists s1, s2. simpl in Hl. repeat split; auto; lia.
Qed.

Lemma all_in_app p s1 s2 : all_in p (s1 ++ s2) <-> all_in p s1 /\ all_in p s2.
Proof. apply Forall_app. Qed.

Lemma lang_rep_class p m n s :
  (m <= n)%nat ->
  re_lang (Rep (Class p) m n) s <-> (m <= length s <= n)%nat /\ all_in p s.
Proof.
  intros Hmn. unfold Rep. rewrite lang_times_class. split.
  - intros (s1 & s2 & -> & Hl & Ha & Hr). apply lang_upto_class in Hr as [Hl2 Ha2].
    rewrite length_app, all_in_app. repeat split; auto; lia.
  - intros [Hl Ha]. exists (firstn m s), (skipn m s).
    rewrite lang_upto_class, firstn_skipn, length_firstn, length_skipn.
    rewrite <- (firstn_skipn m s) in Ha. apply all_in_app in Ha as [Ha1 Ha2].
    repeat split; auto; lia.
Qed.

Lemma lang_lit_ic x s : re_lang (LitIC x) s <-> eq_ic x s.
Proof.
  revert s; induction x as [| a x IH]; intros s; simpl.
  - rewrite lang_eps. split; [intros ->; constructor | intros H; now inversion H].
  - rewrite lang_seq. split.
    + intros (s1 & s2 & -> & H1 & H2).
      apply lang_class in H1 as (c & -> & Hc). apply IH in H2.
      now constructor.
    + intros H. inversion H as [| a' c x' s' Hc Hs]; subst.
      exists [c], s'. rewrite lang_class, IH. eauto.
Qed.

Lemma lang_star r s :
  re_lang (Star r) s <-> exists ss, s = concat ss /\ Forall (re_lang r) ss.
Proof.
  split.
  - intros H. remember (Star r) as r' eqn:Er. revert Er.
    induction H; intros Er; try discriminate.
    + exists []. split; [reflexivity | constructor].
    + injection Er as ->. destruct (IHre_lang2 eq_refl) as (ss & -> & Hss).
      exists (s1 :: ss). split; [reflexivity | now constructor].
  - intros (ss & -> & Hss). induction Hss as [| s1 ss H1 _ IH]; simpl.
    + constructor.
    + now constructor.
Qed.

Lemma lang_plus r s :
  re_lang (Plus r) s <->
  exists ss, ss <> [] /\ s = concat ss /\ Forall (re_lang r) ss.
Proof.
  unfold Plus. rewrite lang_seq. split.
  - intros (s1 & s2 & -> & H1 & H2). apply lang_star in H2 as (ss & -> & Hss).
    exists (s1 :: ss). repeat split; [discriminate | now constructor].
  - intros (ss & Hne & -> & Hss). destruct Hss as [| s1 ss H1 Hss]; [congruence |].
    exists s1, (concat ss). rewrite lang_star. repeat split; eauto.
Qed.

(** ** The pieces of the URL pattern *)

Lemma lang_char x s : re_lang (Class (Z.eqb x)) s <-> s = [x].
Proof.
  rewrite lang_class. split.
  - intros (c & -> & Hc). apply Z.eqb_eq in Hc as ->. reflexivity.
  - intros ->. exists x. split; [reflexivity | apply Z.eqb_refl].
Qed.

Lemma eq_ic_app x y s :
  eq_ic (x ++ y) s <-> exists s1 s2, s = s1 ++ s2 /\ eq_ic x s1 /\ eq_ic y s2.
Proof.
  unfold eq_ic. split.
  - intros H. apply Forall2_app_inv_l in H as (s1 & s2 & H1 & H2 & ->). eauto.
  - intros (s1 & s2 & -> & H1 & H2). now apply Forall2_app.
Qed.

Lemma lang_scheme p : re_lang UrlPattern.scheme p <-> is_scheme p.
Proof.
  unfold UrlPattern.scheme, is_scheme.
  rewrite lang_seq.
  change (lit "http://") with (lit "http" ++ lit "://").
  change (lit "https://") with (lit "http" ++ (lit "s" ++ lit "://")).
  rewrite !eq_ic_app. split.
  - intros (a & t & -> & Ha & Ht). apply lang_lit_ic in Ha.
    apply lang_seq in Ht as (b & c & -> & Hb & Hc).
    apply lang_lit_ic in Hc. apply lang_opt in Hb as [-> | Hb].
    + left. exists a, c. auto.
    + right. apply lang_lit_ic in Hb. exists a, (b ++ c). repeat split; auto.
      apply eq_ic_app. eauto.
  - intros [(a & c & -> & Ha & Hc) | (a & t & -> & Ha & Ht)].
    + exists a, c. rewrite lang_lit_ic, lang_seq. repeat split; auto.
      exists [], c. rewrite lang_opt, !lang_lit_ic. repeat split; auto.
    + apply eq_ic_app in Ht as (b & c & -> & Hb & Hc).
      exists a, (b ++ c). rewrite lang_lit_ic, lang_seq. repeat split; auto.
      exists b, c. rewrite lang_opt, !lang_lit_ic. repeat split; auto.
Qed.

Lemma lang_label_dot s :
  re_lang UrlPattern.label_dot s <-> exists l, s = l ++ lit "." /\ is_label l.
Proof.
  unfold UrlPattern.label_dot, UrlPattern.dot, is_label. rewrite lang_seq. split.
  - intros (s1 & t & -> & H1 & Ht).
    apply lang_class in H1 as (a & -> & Ha).
    apply lang_seq in Ht as (o & d & -> & Ho & Hd).
    apply lang_char in Hd as ->.
    apply lang_opt in Ho as [-> | Ho].
    + exists [a]. split; [reflexivity | left; eauto].
    + apply lang_seq in Ho as (mid & e & -> & Hm & He).
      apply lang_class in He as (b & -> & Hb).
      apply lang_rep_class in Hm as [Hl Hm]; [| lia].
      exists (a :: mid ++ [b]). split.
      * simpl. now rewrite <- !app_assoc.
      * right. exists a, mid, b. repeat split; auto; lia.
  - intros (l & -> & [(a & -> & Ha) | (a & mid & b & -> & Ha & Hm & Hl & Hb)]).
    + exists [a], (lit "."). rewrite lang_class, lang_seq. repeat split; eauto.
      exists [], (lit "."). rewrite lang_opt, lang_char. repeat split; auto.
    + exists [a], ((mid ++ [b]) ++ lit "."). rewrite lang_class, lang_seq.
      repeat split; eauto.
      exists (mid ++ [b]), (lit "."). rewrite lang_opt, lang_char, lang_seq.
      repeat split; auto. right.
      exists mid, [b]. rewrite lang_class, lang_rep_class by lia.
      repeat split; eauto; lia.
Qed.

Lemma lang_labels ss :
  Forall (re_lang UrlPattern.label_dot) ss <->
  exists labels, ss = map (fun l => l ++ lit ".") labels /\ Forall is_label labels.
Proof.
  split.
  - induction 1 as [| s ss Hs _ (labels & -> & Hl)].
    + exists []. split; [reflexivity | constructor].
    + apply lang_label_dot in Hs as (l & -> & Hl').
      exists (l :: labels). split; [reflexivity | now constructor].
  - intros (labels & -> & Hl). induction Hl as [| l labels Hl _ IH]; simpl.
    + constructor.
    + constructor; [| assumption]. apply lang_label_dot. eauto.
Qed.

Lemma lang_domain h : re_lang UrlPattern.domain h <-> is_domain h.
Proof.
  unfold UrlPattern.domain, UrlPattern.dot, is_domain. rewrite lang_seq. split.
  - intros (s1 & t & -> & H1 & Ht).
    apply lang_plus in H1 as (ss & Hne & -> & Hss).
    apply lang_labels in Hss as (labels & -> & Hl).
    apply lang_seq in Ht as (tld & d & -> & Htld & Hd).
    apply lang_rep_class in Htld as [Hlen Htld]; [| lia].
    exists labels, tld, d. repeat split; auto; try lia.
    + intros ->. now apply Hne.
    + apply lang_opt in Hd as [-> | Hd]; [now left | right].
      now apply lang_char in Hd.
  - intros (labels & tld & d & -> & Hne & Hl & Hlen & Htld & Hd).
    exists (concat (map (fun l => l ++ lit ".") labels)), (tld ++ d).
    rewrite lang_plus, lang_seq. repeat split.
    + exists (map (fun l => l ++ lit ".") labels). repeat split.
      * destruct labels; [congruence | discriminate].
      * apply lang_labels. eauto.
    + exists tld, d. rewrite lang_rep_class, lang_opt, lang_char by lia.
      repeat split; auto; lia.
Qed.

Lemma lang_octet o : re_lang UrlPattern.octet o <-> is_octet o.
Proof. unfold UrlPattern.octet, is_octet. apply lang_rep_class. lia. Qed.

Lemma lang_ip h : re_lang UrlPattern.ip h <-> is_dotted_quad h.
Proof.
  unfold UrlPattern.ip, UrlPattern.dot, is_dotted_quad. split.
  - intros H.
    apply lang_seq in H as (a & t1 & -> & Ha & H).
    apply lang_seq in H as (d1 & t2 & -> & Hd1 & H). apply lang_char in Hd1 as ->.
    apply lang_seq in H as (b & t3 & -> & Hb & H).
    apply lang_seq in H as (d2 & t4 & -> & Hd2 & H). apply lang_char in Hd2 as ->.
    apply lang_seq in H as (c & t5 & -> & Hc & H).
    apply lang_seq in H as (d3 & d & -> & Hd3 & Hd). apply lang_char in Hd3 as ->.
    apply lang_octet in Ha, Hb, Hc, Hd.
    exists a, b, c, d. split; [reflexivity | tauto].
  - intros (a & b & c & d & -> & Ha & Hb & Hc & Hd).
    apply lang_octet in Ha, Hb, Hc, Hd.
    repeat (apply L_seq; [first [assumption | now apply lang_char] |]).
    assumption.
Qed.

Lemma lang_host h : re_lang UrlPattern.host h <-> is_host h.
Proof.
  unfold UrlPattern.host, UrlPattern.localhost, is_host, is_localhost.
  now rewrite !lang_alt, lang_domain, lang_lit_ic, lang_ip.
Qed.

Lemma lang_port p : re_lang UrlPattern.port p <-> is_port p.
Proof.
  unfold UrlPattern.port, is_port. rewrite lang_opt, lang_seq. split.
  - intros [-> | (c & ds & -> & Hc & Hds)]; [now left | right].
    apply lang_char in Hc as ->. apply lang_plus_class in Hds as [Hne Hds].
    exists ds. auto.
  - intros [-> | (ds & -> & Hne & Hds)]; [now left | right].
    exists (lit ":"), ds. rewrite lang_char, lang_plus_class. auto.
Qed.

Lemma lang_tail t : re_lang UrlPattern.tail t <-> is_path_or_query t.
Proof.
  unfold UrlPattern.tail, is_path_or_query.
  rewrite lang_alt, lang_opt, lang_char, lang_seq. split.
  - intros [[-> | ->] | (c & rest & -> & Hc & Hr)]; auto.
    apply lang_class in Hc as (c' & -> & Hc).
    apply lang_plus_class in Hr as [Hne Hr]. right; right. exists c', rest. auto.
  - intros [-> | [-> | (c & rest & -> & Hc & Hne & Hr)]]; auto.
    right. exists [c], rest. rewrite lang_class, lang_plus_class.
    repeat split; eauto.
Qed.

Lemma lang_pattern s : re_lang UrlPattern.pattern s <-> url_shape s.
Proof.
  unfold UrlPattern.pattern, url_shape, Dollar. split.
  - intros H.
    apply lang_seq in H as (p & t1 & -> & Hp & H).
    apply lang_seq in H as (h & t2 & -> & Hh & H).
    apply lang_seq in H as (po & t3 & -> & Hpo & H).
    apply lang_seq in H as (t & n & -> & Ht & Hn).
    apply lang_scheme in Hp. apply lang_host in Hh. apply lang_port in Hpo.
    apply lang_tail in Ht. rewrite lang_opt, lang_char in Hn.
    exists p, h, po, t, n. repeat split; auto.
  - intros (p & h & po & t & n & -> & Hp & Hh & Hpo & Ht & Hn).
    apply lang_scheme in Hp. apply lang_host in Hh. apply lang_port in Hpo.
    apply lang_tail in Ht.
    repeat (apply L_seq; [assumption |]).
    rewrite lang_opt, lang_char. exact Hn.
Qed.

Lemma is_valid_url_shape s : is_valid_url s = true <-> url_shape s.
Proof. unfold is_valid_url. now rewrite matches_spec, lang_pattern. Qed.

Lemma startswith_ic_spec s x :
  startswith_ic s x = true <-> exists p rest, s = p ++ rest /\ eq_ic x p.
Proof.
  revert s; induction x as [| a x IH]; intros s; simpl.
  - split; [| intros _; now destruct s].
    intros _. exists [], s. split; [reflexivity | constructor].
  - destruct s as [| c s].
    + split; [discriminate |]. intros (p & rest & Hs & Hp).
      inversion Hp; subst. discriminate.
    + simpl. rewrite andb_true_iff, IH. split.
      * intros (Hc & p & rest & -> & Hp). exists (c :: p), rest.
        split; [reflexivity | now constructor].
      * intros (p & rest & Hs & Hp). inversion Hp as [| a' c' x' p' Hc Hp']; subst.
        injection Hs as -> ->. eauto.
Qed.

Lemma url_shape_has_scheme s : url_shape s -> has_scheme s = true.
Proof.
  intros (p & h & po & t & n & -> & Hp & _). unfold has_scheme.
  apply orb_true_iff. destruct Hp as [Hp | Hp]; [left | right];
    apply startswith_ic_spec; eauto.
Qed.

(** ** The URL search of the gplinks adapter *)

Lemma startswith_spec s p : startswith s p = true <-> exists rest, s = p ++ rest.
Proof.
  revert s; induction p as [| x p IH]; intros s.
  - split; [intros _; now exists s | intros _; now destruct s].
  - destruct s as [| c s]; simpl.
    + split; [discriminate | intros (rest & H); discriminate].
    + rewrite andb_true_iff, Z.eqb_eq, IH. split.
      * intros (-> & rest & ->). now exists rest.
      * intros (rest & [= -> ->]). eauto.
Qed.

Lemma drop_prefix_spec p s rest : drop_prefix p s = Some rest <-> s = p ++ rest.
Proof.
  unfold drop_prefix. destruct (startswith s p) eqn:Hs.
  - apply startswith_spec in Hs as (rest' & ->).
    rewrite drop_app_length. split.
    + now intros [= ->].
    + intros ->%app_inv_head. reflexivity.
  - split; [discriminate |]. intros ->.
    assert (startswith (p ++ rest) p = true) by (apply startswith_spec; eauto).
    congruence.
Qed.

Lemma lang_lit x s : re_lang (Lit x) s <-> s = x.
Proof.
  revert s; induction x as [| a x IH]; intros s; simpl.
  - apply lang_eps.
  - rewrite lang_seq. split.
    + intros (s1 & s2 & -> & ->%lang_char & ->%IH). reflexivity.
    + intros ->. exists [a], x. rewrite lang_char, IH. auto.
Qed.

Lemma lang_url_search m :
  re_lang url_search_pattern m <->
  exists run,
    run <> [] /\ all_in UrlPattern.nonspace run
    /\ (m = lit "http://" ++ run \/ m = lit "https://" ++ run).
Proof.
  unfold url_search_pattern. split.
  - intros (a & t1 & -> & ->%lang_lit & H)%lang_seq.
    apply lang_seq in H as (b & t2 & -> & Hb%lang_opt & H).
    apply lang_seq in H as (c & run & -> & ->%lang_lit & [Hne Hrun]%lang_plus_class).
    exists run. repeat split; auto.
    destruct Hb as [-> | ->%lang_lit]; [now left | now right].
  - intros (run & Hne & Hrun & [-> | ->]).
    + apply (L_seq _ _ (lit "http") (lit "://" ++ run)); [now apply lang_lit |].
      apply (L_seq _ _ [] (lit "://" ++ run)); [apply lang_opt; now left |].
      apply L_seq; [now apply lang_lit | now apply lang_plus_class].
    + apply (L_seq _ _ (lit "http") (lit "s" ++ lit "://" ++ run));
        [now apply lang_lit |].
      apply L_seq; [apply lang_opt; right; now apply lang_lit |].
      apply L_seq; [now apply lang_lit | now apply lang_plus_class].
Qed.

Lemma nonspace_run_spec s :
  exists rest,
    s = nonspace_run s ++ rest
    /\ all_in UrlPattern.nonspace (nonspace_run s)
    /\ (rest = [] \/ exists c rest', rest = c :: rest' /\ isspace c = true).
Proof.
  induction s as [| c s (rest & Hs & Hall & Hrest)]; simpl.
  - exists []. repeat split; [constructor | now left].
  - destruct (isspace c) eqn:Hc.
    + exists (c :: s). repeat split; [constructor | right; eauto].
    + exists rest. repeat split; [simpl; congruence | | assumption].
      constructor; [| assumption]. unfold UrlPattern.nonspace. now rewrite Hc.
Qed.

Lemma nonspace_run_app run rest :
  all_in UrlPattern.nonspace run -> run <> [] -> nonspace_run (run ++ rest) <> [].
Proof.
  intros Hall Hne. destruct Hall as [| c run Hc _]; [congruence |].
  simpl. unfold UrlPattern.nonspace in Hc. apply negb_true_iff in Hc.
  rewrite Hc. discriminate.
Qed.

(** [match_url_at] is the greedy match of the search pattern at the head
    of the text: what it returns is in the language of the pattern and
    stops at the end of the text or before whitespace, ... *)
Lemma match_url_at_sound s m :
  match_url_at s = Some m ->
  re_lang url_search_pattern m
  /\ exists rest,
       s = m ++ rest
       /\ (rest = [] \/ exists c rest', rest = c :: rest' /\ isspace c = true).
Proof.
  unfold match_url_at. intros H.
  assert (Hcase : exists scheme body,
             (scheme = lit "http://" \/ scheme = lit "https://")
             /\ s = scheme ++ body /\ nonspace_run body <> []
             /\ m = scheme ++ nonspace_run body).
  { destruct (drop_prefix (lit "https://") s) as [body |] eqn:H1.
    - apply drop_prefix_spec in H1.
      destruct (nonspace_run body) eqn:Hr; [discriminate |].
      injection H as <-. exists (lit "https://"), body. rewrite Hr. auto.
    - destruct (drop_prefix (lit "http://") s) as [body |] eqn:H2; [| discriminate].
      apply drop_prefix_spec in H2.
      destruct (nonspace_run body) eqn:Hr; [discriminate |].
      injection H as <-. exists (lit "http://"), body. rewrite Hr. auto. }
  destruct Hcase as (scheme & body & Hscheme & -> & Hne & ->).
  destruct (nonspace_run_spec body) as (rest & Hbody & Hall & Hrest).
  split.
  - apply lang_url_search. exists (nonspace_run body).
    destruct Hscheme as [-> | ->]; auto.
  - exists rest. split; [| assumption]. rewrite <- app_assoc. congruence.
Qed.

(** ... and when it returns nothing, no prefix of the text is in the
    language of the pattern. *)
Lemma match_url_at_complete s m rest :
  match_url_at s = None -> s = m ++ rest -> ~ re_lang url_search_pattern m.
Proof.
  unfold match_url_at. intros H -> (run & Hne & Hall & Hm)%lang_url_search.
  destruct Hm as [-> | ->]; rewrite <- app_assoc in H.
  - replace (drop_prefix (lit "https://") (lit "http://" ++ run ++ rest))
      with (@None str) in H.
    + rewrite (proj2 (drop_prefix_spec _ _ _) eq_refl) in H.
      pose proof (nonspace_run_app run rest Hall Hne) as Hr.
      destruct (nonspace_run (run ++ rest)); [congruence | discriminate].
    + symmetry. unfold drop_prefix. now destruct run.
  - rewrite (proj2 (drop_prefix_spec _ _ _) eq_refl) in H.
    pose proof (nonspace_run_app run rest Hall Hne) as Hr.
    destruct (nonspace_run (run ++ rest)); [congruence | discriminate].
Qed.

(** ** The adapters, one provider at a time *)

Lemma str_eqb_refl (s : str) : str_eqb s s = true.
Proof. unfold str_eqb. now apply bool_decide_eq_true. Qed.

Lemma str_eqb_eq (a b : str) : str_eqb a b = true <-> a = b.
Proof. unfold str_eqb. apply bool_decide_eq_true. Qed.

(** Runs the monadic plumbing of a goal as far as it is determined. *)
Ltac mred :=
  cbv beta iota zeta delta
    [ret bind lift try_except try_except_value_error response_json
     requests_get requests_post send_request tg is_value_error negb
     or_absent dict_get getitem add_requests add_tg_calls];
  cbn [url_cache requests tg_calls from_option id].

Lemma shorten_url_bitly E url :
  shorten_url E url (lit "bitly") =
  try_except (if negb (is_valid_url url) then ret PyNone else shorten_bitly E url)
             (ret PyNone).
Proof. reflexivity. Qed.

Lemma shorten_url_tinyurl E url :
  shorten_url E url (lit "tinyurl") =
  try_except (if negb (is_valid_url url) then ret PyNone else shorten_tinyurl E url)
             (ret PyNone).
Proof. reflexivity. Qed.

Lemma shorten_url_cuttly E url :
  shorten_url E url (lit "cuttly") =
  try_except (if negb (is_valid_url url) then ret PyNone else shorten_cuttly E url)
             (ret PyNone).
Proof. reflexivity. Qed.

Lemma shorten_url_gplinks E url :
  shorten_url E url (lit "gplinks") =
  try_except (if negb (is_valid_url url) then ret PyNone else shorten_gplinks E url)
             (ret PyNone).
Proof. reflexivity. Qed.

Tactic Notation "case_net" constr(E) "as" ident(r) :=
  match goal with
  | |- context [net E ?h ?q] => destruct (net E h q) as [r |]
  end; mred; try reflexivity.

Tactic Notation "cases" constr(x) "as" simple_intropattern(p) :=
  destruct x as p; mred; try reflexivity.

Tactic Notation "cases" constr(x) :=
  destruct x; mred; try reflexivity.

Lemma shorten_bitly_run E url w :
  BITLY_TOKEN (config E) <> [] ->
  shorten_url E url (lit "bitly") w =
  if is_valid_url url then
    (Ok (bitly_extract (net E (requests w) (bitly_request E url))),
     add_requests w [bitly_request E url])
  else (Ok PyNone, w).
Proof.
  intros Hk. apply nonempty_true in Hk.
  rewrite shorten_url_bitly. unfold shorten_bitly.
  destruct (is_valid_url url); [| reflexivity].
  rewrite Hk.
  change (service_api_url (lit "bitly"))
    with (Ok (A := str) (lit "https://api-ssl.bitly.com/v4/shorten")).
  unfold bitly_extract, bitly_request. mred.
  case_net E as r.
  cases (status_code r =? 200).
  cases (json r) as [[| | | | | | d] | e].
  cases (assoc (lit "link") d).
Qed.

Lemma shorten_tinyurl_run E url w :
  shorten_url E url (lit "tinyurl") w =
  if is_valid_url url then
    (Ok (tinyurl_extract (net E (requests w) (tinyurl_request url))),
     add_requests w [tinyurl_request url])
  else (Ok PyNone, w).
Proof.
  rewrite shorten_url_tinyurl. unfold shorten_tinyurl.
  destruct (is_valid_url url); [| reflexivity].
  change (service_api_url (lit "tinyurl"))
    with (Ok (A := str) (lit "http://tinyurl.com/api-create.php")).
  unfold tinyurl_extract, tinyurl_request. mred.
  case_net E as r.
  cases (status_code r =? 200).
Qed.

Lemma shorten_cuttly_run E url w :
  CUTTLY_API (config E) <> [] ->
  shorten_url E url (lit "cuttly") w =
  if is_valid_url url then
    (Ok (cuttly_extract (net E (requests w) (cuttly_request E url))),
     add_requests w [cuttly_request E url])
  else (Ok PyNone, w).
Proof.
  intros Hk. apply nonempty_true in Hk.
  rewrite shorten_url_cuttly. unfold shorten_cuttly.
  destruct (is_valid_url url); [| reflexivity].
  rewrite Hk.
  change (service_api_url (lit "cuttly"))
    with (Ok (A := str) (lit "https://cutt.ly/api/api.php")).
  unfold cuttly_extract, cuttly_request. mred.
  case_net E as r.
  cases (status_code r =? 200).
  cases (json r) as [[| | | | | | d] | e].
  cases (assoc (lit "url") d) as [[| | | | | | u] |].
  cases (assoc (lit "status") u) as [st |].
  cases (eq_7 st).
  cases (assoc (lit "shortLink") u).
Qed.

(** The POST attempt, once the GET attempt has settled nothing. *)
Ltac retry_post E :=
  match goal with
  | |- context [net E ?h ?q] => destruct (net E h q) as [? |]
  end;
  mred; rewrite <- ?app_assoc; [| reflexivity];
  match goal with
  | |- context [status_code ?r0 =? 200] => destruct (status_code r0 =? 200)
  end;
  [| reflexivity];
  match goal with
  | |- context [startswith ?a ?b] => destruct (startswith a b)
  end;
  reflexivity.

Lemma shorten_gplinks_run E url w :
  GPLINKS_API (config E) <> [] ->
  shorten_url E url (lit "gplinks") w =
  if is_valid_url url then
    match gplinks_after_get (net E (requests w) (gplinks_get_request E url)) with
    | Return v => (Ok v, add_requests w [gplinks_get_request E url])
    | Retry =>
        (Ok (gplinks_after_post
               (net E (requests w ++ [gplinks_get_request E url])
                    (gplinks_post_request E url))),
         add_requests w [gplinks_get_request E url; gplinks_post_request E url])
    end
  else (Ok PyNone, w).
Proof.
  intros Hk. apply nonempty_true in Hk.
  rewrite shorten_url_gplinks. unfold shorten_gplinks, gplinks_get, gplinks_post.
  destruct (is_valid_url url); [| reflexivity].
  rewrite Hk.
  unfold gplinks_after_get, gplinks_after_post,
    gplinks_get_request, gplinks_post_request.
  mred.
  case_net E as r.
  cases (status_code r =? 200); [| retry_post E].
  cases (startswith (strip (text r)) (lit "http")).
  cases (json r) as [[| | | | | | d] | e].
  - cases (assoc (lit "status") d) as [st |].
    + cases (eq_str st (lit "success")); [| retry_post E].
      cases (assoc (lit "shortenedUrl") d); cases (assoc (lit "shorturl") d).
    + change (eq_str PyNone (lit "success")) with false. mred. retry_post E.
  - cases e;
      (cases (contains (strip (text r)) (lit "http")); [| retry_post E]);
      cases (findall_urls (strip (text r))) as [| u us]; retry_post E.
Qed.

Lemma shorten_url_invalid E url service w :
  is_valid_url url = false -> shorten_url E url service w = (Ok PyNone, w).
Proof. intros H. unfold shorten_url. rewrite H. reflexivity. Qed.

Lemma shorten_url_total E url service w :
  exists v w', shorten_url E url service w = (Ok v, w').
Proof.
  unfold shorten_url, try_except.
  match goal with |- context [match ?m w with _ => _ end] => destruct (m w) as [[v | e] w'] end;
    mred; eauto.
Qed.

Lemma shorten_bitly_no_token E url w :
  BITLY_TOKEN (config E) = [] -> shorten_url E url (lit "bitly") w = (Ok PyNone, w).
Proof.
  intros Hk. rewrite shorten_url_bitly. unfold shorten_bitly. rewrite Hk.
  destruct (is_valid_url url); reflexivity.
Qed.

Lemma shorten_cuttly_no_key E url w :
  CUTTLY_API (config E) = [] -> shorten_url E url (lit "cuttly") w = (Ok PyNone, w).
Proof.
  intros Hk. rewrite shorten_url_cuttly. unfold shorten_cuttly. rewrite Hk.
  destruct (is_valid_url url); reflexivity.
Qed.

Lemma shorten_gplinks_no_key E url w :
  GPLINKS_API (config E) = [] -> shorten_url E url (lit "gplinks") w = (Ok PyNone, w).
Proof.
  intros Hk. rewrite shorten_url_gplinks. unfold shorten_gplinks. rewrite Hk.
  destruct (is_valid_url url); reflexivity.
Qed.

Lemma shorten_url_unknown E url service w :
  ~ In service service_keys -> shorten_url E url service w = (Ok PyNone, w).
Proof.
  intros Hs. unfold shorten_url.
  assert (Hne : forall k, In k service_keys -> str_eqb service k = false).
  { intros k Hk. destruct (str_eqb service k) eqn:He; [| reflexivity].
    apply str_eqb_eq in He as ->. contradiction. }
  rewrite !Hne by (simpl; auto).
  destruct (is_valid_url url); reflexivity.
Qed.

(** ** Computations that leave the cache alone and only add to the logs *)

Lemma grows_refl w : grows w w.
Proof.
  repeat split; [exists [] | exists []]; now rewrite app_nil_r.
Qed.

Lemma grows_trans w1 w2 w3 : grows w1 w2 -> grows w2 w3 -> grows w1 w3.
Proof.
  intros (Hc1 & (rs1 & Hr1) & (cs1 & Ht1)) (Hc2 & (rs2 & Hr2) & (cs2 & Ht2)).
  repeat split.
  - congruence.
  - exists (rs1 ++ rs2). now rewrite Hr2, Hr1, app_assoc.
  - exists (cs1 ++ cs2). now rewrite Ht2, Ht1, app_assoc.
Qed.

Lemma grows_add_requests w rs : grows w (add_requests w rs).
Proof. repeat split; [now exists rs | exists []; simpl; now rewrite app_nil_r]. Qed.

Lemma grows_add_tg_calls w cs : grows w (add_tg_calls w cs).
Proof. repeat split; [exists []; simpl; now rewrite app_nil_r | now exists cs]. Qed.

Lemma logs_ret {A} (a : A) : logs_only (ret a).
Proof. intros w; apply grows_refl. Qed.

Lemma logs_lift {A} (o : outcome A) : logs_only (lift o).
Proof. intros w; apply grows_refl. Qed.

Lemma logs_bind {A B} (m : M A) (k : A -> M B) :
  logs_only m -> (forall a, logs_only (k a)) -> logs_only (bind m k).
Proof.
  intros Hm Hk w. unfold bind. specialize (Hm w).
  destruct (m w) as [[a | e] w1]; simpl in *; [| assumption].
  eapply grows_trans; [exact Hm | apply Hk].
Qed.

Lemma logs_try_except {A} (m h : M A) :
  logs_only m -> logs_only h -> logs_only (try_except m h).
Proof.
  intros Hm Hh w. unfold try_except. specialize (Hm w).
  destruct (m w) as [[a | e] w1]; simpl in *; [assumption |].
  eapply grows_trans; [exact Hm | apply Hh].
Qed.

Lemma logs_try_except_value_error {A} (m h : M A) :
  logs_only m -> logs_only h -> logs_only (try_except_value_error m h).
Proof.
  intros Hm Hh w. unfold try_except_value_error. specialize (Hm w).
  destruct (m w) as [[a | e] w1]; simpl in *; [assumption |].
  destruct (is_value_error e); simpl; [| assumption].
  eapply grows_trans; [exact Hm | apply Hh].
Qed.

Lemma logs_send_request E r : logs_only (send_request E r).
Proof.
  intros w. unfold send_request.
  destruct (net E (requests w) r); apply (grows_add_requests w [r]).
Qed.

Lemma logs_tg E c : logs_only (tg E c).
Proof.
  intros w. unfold tg.
  destruct (tg_raises E (tg_calls w) c); apply (grows_add_tg_calls w [c]).
Qed.

Lemma logs_get_url url_id : logs_only (get_url url_id).
Proof. intros w; apply grows_refl. Qed.

Lemma logs_response_json r : logs_only (response_json r).
Proof. unfold response_json. apply logs_lift. Qed.

Ltac logs :=
  repeat first
    [ apply logs_ret | apply logs_lift | apply logs_send_request
    | apply logs_tg | apply logs_get_url | apply logs_response_json
    | match goal with H : context [logs_only] |- _ => apply H end
    | apply logs_bind; [| intros ?]
    | apply logs_try_except
    | apply logs_try_except_value_error
    | match goal with
      | |- logs_only (if ?b then _ else _) => destruct b
      | |- logs_only (match ?x with _ => _ end) => destruct x
      | |- logs_only (let '(_, _) := ?x in _) => destruct x
      end ].

Lemma logs_shorten_url E url service : logs_only (shorten_url E url service).
Proof.
  unfold shorten_url, shorten_bitly, shorten_tinyurl, shorten_cuttly,
    shorten_gplinks, gplinks_get, gplinks_post, requests_get, requests_post.
  logs.
Qed.

Lemma logs_send_single E url service :
  logs_only (send_single_shortened_url E url service).
Proof.
  unfold send_single_shortened_url.
  pose proof (logs_shorten_url E url service). logs.
Qed.

Lemma logs_send_all_loop E url svcs message k :
  logs_only (send_all_loop E url svcs message k).
Proof.
  revert message k. induction svcs as [| [key info] svcs IH]; intros message k; simpl.
  - apply logs_ret.
  - pose proof (logs_shorten_url E url key). logs; apply IH.
Qed.

Lemma logs_send_all E url : logs_only (send_all_shortened_urls E url).
Proof.
  unfold send_all_shortened_urls.
  pose proof (logs_send_all_loop E url SUPPORTED_SERVICES). logs.
Qed.

Lemma logs_button_handler E data : logs_only (button_handler E data).
Proof.
  unfold button_handler.
  pose proof (logs_send_all E) as Hall. pose proof (logs_send_single E) as Hone.
  logs.
Qed.

(* ================================================================== *)
(** * The claims *)
(* ================================================================== *)

(** ** URL validation *)

Example valid_urls :
  map is_valid_url
      [ lit "https://example.com/very/long/path"; lit "http://localhost:8080";
        lit "http://127.0.0.1/x?y=1"; lit "http://a.co."; lit "http://a.co" ++ NL;
        lit "http://999.999.999.999" ]
  = [ true; true; true; true; true; true ].
Proof. vm_compute. reflexivity. Qed.

Example invalid_urls :
  map is_valid_url
      [ []; lit "ftp://a.co"; lit "example.com"; lit "http://a.c";
        lit "http://-a.co"; lit "http://a.co/a b"; lit "http://a.co" ++ NL ++ NL ]
  = [ false; false; false; false; false; false; false ].
Proof. vm_compute. reflexivity. Qed.

Example unicode_urls :
  map is_valid_url
      [ lit "http" ++ [0x17F] ++ lit "://a.co";      (* long s for the s of https *)
        lit "http://a." ++ [0x212A] ++ lit "k";      (* Kelvin sign in the domain *)
        lit "http://localhost:" ++ [0x663];          (* an Arabic-Indic digit *)
        lit "http://a.co/" ++ [0x1F600];
        lit "http://a.co/" ++ [0xA0];                (* a no-break space *)
        lit "http://" ++ [0xE9] ++ lit ".co" ]
  = [ true; true; true; true; false; false ].
Proof. vm_compute. reflexivity. Qed.

(** C1 as stated fails: the pattern is compiled with [re.IGNORECASE], so
    [HTTP://a.co] is valid although it starts with neither [http://] nor
    [https://]. *)
Lemma is_valid_url_uppercase_scheme :
  startswith (lit "HTTP://a.co") (lit "http://") = false
  /\ startswith (lit "HTTP://a.co") (lit "https://") = false
  /\ is_valid_url (lit "HTTP://a.co") = true.
Proof. vm_compute. auto. Qed.

(** C1, amended: [is_valid_url s] is false for every [s] that does not
    start with [http://] or [https://] in some mix of cases, and it is true
    exactly for the strings made of such a scheme; then a host, which is
    either labels each followed by a dot, a top-level domain of 2 to 6
    letters and possibly a final dot, or [localhost] in any case, or four
    groups of one to three decimal digits separated by dots; then possibly
    a colon and digits; then nothing, [/], or a [/] or [?] followed by one or
    more code points that are not whitespace; then possibly one final
    newline. *)
Theorem is_valid_url_characterised (s : str) :
  (has_scheme s = false -> is_valid_url s = false)
  /\ (is_valid_url s = true <-> url_shape s).
Proof.
  split; [| apply is_valid_url_shape].
  intros Hs. destruct (is_valid_url s) eqn:Hv; [| reflexivity].
  apply is_valid_url_shape, url_shape_has_scheme in Hv. congruence.
Qed.

(** The characterisation at a valid and at an invalid string. *)
Lemma is_valid_url_characterised_witness :
  url_shape (lit "https://example.com/very/long/path")
  /\ is_valid_url (lit "example.com/very/long/path") = false.
Proof.
  split.
  - apply (proj2 (is_valid_url_characterised _)). vm_compute. reflexivity.
  - apply (proj1 (is_valid_url_characterised _)). vm_compute. reflexivity.
Defined.

(** ** Trimming and searching, against their descriptions *)

Lemma lstrip_spec s : exists ws, s = ws ++ lstrip s /\ all_in isspace ws.
Proof.
  induction s as [| c s (ws & IH & Hws)]; [exists []; split; [reflexivity | constructor] |].
  cbn [lstrip]. destruct (isspace c) eqn:Hc.
  - exists (c :: ws). cbn [app]. rewrite <- IH. split; [reflexivity |].
    constructor; assumption.
  - exists []. split; [reflexivity | constructor].
Qed.

Lemma lstrip_head s c s' : lstrip s = c :: s' -> isspace c = false.
Proof.
  induction s as [| a s IH]; cbn [lstrip]; [discriminate |].
  destruct (isspace a) eqn:Ha; [exact IH |]. now intros [= <- _].
Qed.

Lemma lstrip_fixed s :
  (forall c s', s = c :: s' -> isspace c = false) -> lstrip s = s.
Proof.
  destruct s as [| c s]; [reflexivity |]. intros Hh. cbn [lstrip].
  now rewrite (Hh c s eq_refl).
Qed.

Lemma lstrip_spaces l x : all_in isspace l -> lstrip (l ++ x) = lstrip x.
Proof.
  induction 1 as [| c l Hc _ IH]; [reflexivity |].
  cbn [app lstrip]. now rewrite Hc.
Qed.

Lemma strip_trimmed s : trimmed (strip s).
Proof.
  unfold strip, rstrip.
  destruct (lstrip_spec (rev (lstrip s))) as (ws & Hws & _).
  set (u := lstrip (rev (lstrip s))) in *.
  assert (Ht : lstrip s = rev u ++ rev ws).
  { rewrite <- (rev_involutive (lstrip s)), Hws, rev_app_distr. reflexivity. }
  split; intros c s' Hc.
  - rewrite Hc in Ht. cbn [app] in Ht. now apply lstrip_head in Ht.
  - apply (f_equal (@rev Z)) in Hc. rewrite rev_involutive, rev_app_distr in Hc.
    cbn [rev app] in Hc. now apply lstrip_head in Hc.
Qed.

Lemma strip_fixed s : trimmed s -> strip s = s.
Proof.
  intros [Hh Hl]. unfold strip, rstrip. rewrite (lstrip_fixed s Hh).
  rewrite lstrip_fixed; [apply rev_involutive |].
  intros c s' Hc. apply (Hl c (rev s')).
  rewrite <- (rev_involutive s), Hc. reflexivity.
Qed.

(** [strip] removes the whitespace at the two ends, and nothing else. *)
Lemma strip_trimmed_of text : trimmed_of text (strip text).
Proof.
  destruct (lstrip_spec text) as (l & Hl & Hls).
  destruct (lstrip_spec (rev (lstrip text))) as (ws & Hws & Hwss).
  exists l, (rev ws). split; [| split; [exact Hls | split]].
  - unfold strip, rstrip. rewrite <- rev_app_distr, <- Hws, rev_involutive.
    exact Hl.
  - apply Forall_rev. exact Hwss.
  - apply strip_trimmed.
Qed.

Lemma trimmed_of_strip text body : trimmed_of text body -> body = strip text.
Proof.
  intros (l & r & -> & Hl & Hr & [Hh Ht]). unfold strip, rstrip.
  rewrite (lstrip_spaces l _ Hl).
  destruct body as [| c b].
  - cbn [app].
    assert (Hnil : lstrip r = []).
    { rewrite <- (app_nil_r r). now rewrite (lstrip_spaces r [] Hr). }
    rewrite Hnil. reflexivity.
  - assert (Hb : lstrip ((c :: b) ++ r) = (c :: b) ++ r).
    { cbn [app lstrip]. now rewrite (Hh c b eq_refl). }
    rewrite Hb, rev_app_distr, lstrip_spaces by (apply Forall_rev; exact Hr).
    rewrite lstrip_fixed; [now rewrite rev_involutive |].
    intros c' s' Hc. apply (Ht c' (rev s')).
    rewrite <- (rev_involutive (c :: b)), Hc. reflexivity.
Qed.

Lemma starts_http_spec s : starts_http s <-> startswith s (lit "http") = true.
Proof. unfold starts_http. symmetry. apply startswith_spec. Qed.

Lemma link_nonspace u : is_link u -> all_in UrlPattern.nonspace u.
Proof.
  intros (run & _ & Hrun & [-> | ->]); apply all_in_app;
    (split; [repeat constructor | exact Hrun]).
Qed.

Lemma link_nonempty : ~ is_link [].
Proof. intros (run & _ & _ & [H | H]); discriminate. Qed.

Lemma match_url_at_link s m :
  match_url_at s = Some m ->
  is_link m /\ exists after, s = m ++ after /\ ends_link after.
Proof.
  intros [Hl Hrest]%match_url_at_sound. split; [| exact Hrest].
  now apply lang_url_search.
Qed.

Lemma match_url_at_none s m rest :
  match_url_at s = None -> s = m ++ rest -> ~ is_link m.
Proof.
  intros Hn Hs Hl. apply (match_url_at_complete s m rest Hn Hs).
  now apply lang_url_search.
Qed.

(** The first match of the search is the first link of the text. *)
Lemma findall_from_first s u us : findall_from 0 s = u :: us -> first_link s u.
Proof.
  induction s as [| c s IH]; cbn [findall_from]; [discriminate |].
  destruct (match_url_at (c :: s)) as [m |] eqn:Hm.
  - intros [= <- _]. destruct (match_url_at_link _ _ Hm) as (Hl & after & Hs & He).
    exists [], after. split; [exact Hs |]. split; [exact Hl |]. split; [exact He |].
    intros. cbn [length]. lia.
  - intros Hf. destruct (IH Hf) as (before & after & Hs & Hl & He & Hleft).
    exists (c :: before), after. split; [cbn [app]; now rewrite <- Hs |].
    split; [exact Hl |]. split; [exact He |].
    intros before' m after' Hd Hlm. destruct before' as [| c' b'].
    + exfalso. exact (match_url_at_none (c :: s) m after' Hm Hd Hlm).
    + cbn [app] in Hd. injection Hd as _ Hd. cbn [length].
      specialize (Hleft b' m after' Hd Hlm). lia.
Qed.

Lemma findall_from_none s : findall_from 0 s = [] -> no_link s.
Proof.
  induction s as [| c s IH]; cbn [findall_from].
  - intros _ before m after Hd Hl.
    destruct before; [| discriminate]. destruct m; [| discriminate].
    exact (link_nonempty Hl).
  - destruct (match_url_at (c :: s)) as [m |] eqn:Hm; [discriminate |].
    intros Hf before m after Hd Hl. destruct before as [| c' b'].
    + exact (match_url_at_none (c :: s) m after Hm Hd Hl).
    + cbn [app] in Hd. injection Hd as _ Hd. exact (IH Hf b' m after Hd Hl).
Qed.

Lemma contains_skip before x p :
  contains x p = true -> contains (before ++ x) p = true.
Proof.
  intros Hx. induction before as [| c before IH]; [exact Hx |].
  cbn [app contains]. rewrite IH. apply orb_true_r.
Qed.

Lemma link_contains_http before m after :
  is_link m -> contains (before ++ m ++ after) (lit "http") = true.
Proof.
  intros Hl. apply contains_skip.
  assert (Hs : startswith (m ++ after) (lit "http") = true).
  { apply startswith_spec. destruct Hl as (run & _ & _ & [-> | ->]).
    - exists (lit "://" ++ run ++ after). rewrite <- !app_assoc. reflexivity.
    - exists (lit "s://" ++ run ++ after). rewrite <- !app_assoc. reflexivity. }
  destruct (m ++ after); cbn [contains]; now rewrite Hs.
Qed.

Lemma link_end_unique u a u' a' :
  u ++ a = u' ++ a' -> is_link u -> is_link u' -> ends_link a -> ends_link a' ->
  u = u'.
Proof.
  assert (Hone : forall u a u' l a',
    u = u' ++ l -> a' = l ++ a -> is_link u -> ends_link a' -> u = u').
  { intros x a0 x' l a0' -> -> Hl He. destruct l as [| c l]; [apply app_nil_r |].
    exfalso. destruct He as [He | (c' & s' & [= <- _] & Hc)]; [discriminate |].
    apply link_nonspace in Hl. apply all_in_app in Hl as [_ Hl].
    inversion Hl as [| ? ? Hns _]; subst. unfold UrlPattern.nonspace in Hns.
    rewrite Hc in Hns. discriminate. }
  intros Heq Hl Hl' He He'.
  apply app_eq_app in Heq as (l & [[Hu Ha] | [Hu Ha]]).
  - exact (Hone u a u' l a' Hu Ha Hl He').
  - symmetry. exact (Hone u' a' u l a Hu Ha Hl' He).
Qed.

Lemma first_link_findall body u :
  first_link body u -> exists us, findall_urls body = u :: us.
Proof.
  intros (b & a & Hs & Hl & He & Hleft). unfold findall_urls.
  destruct (findall_from 0 body) as [| u' us] eqn:Hf.
  - exfalso. exact (findall_from_none _ Hf b u a Hs Hl).
  - apply findall_from_first in Hf as (b' & a' & Hs' & Hl' & He' & Hleft').
    pose proof (Hleft b' u' a' Hs' Hl') as H1.
    pose proof (Hleft' b u a Hs Hl) as H2.
    assert (Hlen : length b = length b') by lia.
    rewrite Hs in Hs'. apply app_inj_1 in Hs' as [_ Hs']; [| exact Hlen].
    rewrite (link_end_unique u a u' a' Hs' Hl Hl' He He'). eauto.
Qed.

Lemma no_link_findall body : no_link body -> findall_urls body = [].
Proof.
  intros Hn. unfold findall_urls.
  destruct (findall_from 0 body) as [| u us] eqn:Hf; [reflexivity |].
  apply findall_from_first in Hf as (b & a & Hs & Hl & _).
  exfalso. exact (Hn b u a Hs Hl).
Qed.

(** ** The gplinks adapter *)

(** The table of the GET attempt is what the code computes, and it is
    determined. *)
Lemma get_verdict_table g : get_verdict g (gplinks_after_get g).
Proof.
  destruct g as [r |]; cbn [gplinks_after_get]; [| now constructor].
  destruct (status_code r =? 200) eqn:Hst;
    [apply Z.eqb_eq in Hst
    | apply Z.eqb_neq in Hst; now apply (get_other_status _ r)].
  assert (Ha : answered (Reply r) r (strip (text r))).
  { split; [reflexivity |]. split; [exact Hst | apply strip_trimmed_of]. }
  cbv zeta. destruct (startswith (strip (text r)) (lit "http")) eqn:Hs.
  { apply (get_body_is_link _ r); [exact Ha | now apply starts_http_spec]. }
  assert (Hn : ~ starts_http (strip (text r))).
  { rewrite starts_http_spec. congruence. }
  destruct (json r) as [o | e] eqn:Hj.
  - destruct o as [| b | n | f | t | l | d];
      try (apply (get_json_not_object _ r (strip (text r)) _ Ha Hn Hj);
           intros d; discriminate).
    destruct (eq_str (default PyNone (assoc (lit "status") d)) (lit "success"))
      eqn:He.
    + apply (get_json_success _ r (strip (text r)) d Ha Hn Hj).
      destruct (assoc (lit "status") d) as [[| | | | t | |] |];
        try discriminate.
      cbn [default from_option id eq_str] in He.
      apply str_eqb_eq in He. now subst.
    + apply (get_json_other_status _ r (strip (text r)) d Ha Hn Hj).
      intros Heq. rewrite Heq in He. cbn [default from_option id eq_str] in He.
      rewrite str_eqb_refl in He. discriminate.
  - destruct (is_value_error e) eqn:Hve;
      [| now apply (get_parser_raises _ r (strip (text r)) e)].
    destruct (contains (strip (text r)) (lit "http")) eqn:Hc.
    + destruct (findall_urls (strip (text r))) as [| u us] eqn:Hf.
      * apply (get_text_no_link _ r (strip (text r)) e Ha Hn Hj Hve).
        now apply findall_from_none.
      * apply (get_text_link _ r (strip (text r)) e u Ha Hn Hj Hve).
        now apply (findall_from_first _ u us).
    + apply (get_text_no_link _ r (strip (text r)) e Ha Hn Hj Hve).
      intros before m after Hd Hl.
      rewrite Hd, (link_contains_http before m after Hl) in Hc. discriminate.
Qed.

Ltac read_answer H :=
  destruct H as (-> & ?Hst & ?Ht); apply trimmed_of_strip in Ht; subst;
  cbn [gplinks_after_get gplinks_after_post];
  match goal with Hst : status_code _ = 200 |- _ => rewrite Hst end;
  change (200 =? 200) with true; cbv iota zeta.

Ltac not_http :=
  match goal with
  | Hn : ~ starts_http ?b |- _ =>
      let Hs := fresh "Hs" in
      destruct (startswith b (lit "http")) eqn:Hs;
      [apply starts_http_spec in Hs; contradiction |]
  end.

Lemma get_verdict_unique g t : get_verdict g t -> t = gplinks_after_get g.
Proof.
  intros H.
  destruct H as [Hg | r Hg Hs | r body Ha Hh | r body d Ha Hn Hj Hd
                | r body d Ha Hn Hj Hd | r body o Ha Hn Hj Ho
                | r body e u Ha Hn Hj He Hu | r body e Ha Hn Hj He Hno
                | r body e Ha Hn Hj He].
  - now subst.
  - subst. cbn [gplinks_after_get]. apply Z.eqb_neq in Hs. now rewrite Hs.
  - read_answer Ha. apply starts_http_spec in Hh. now rewrite Hh.
  - read_answer Ha. not_http. rewrite Hj, Hd.
    cbn [default from_option id eq_str]. now rewrite str_eqb_refl.
  - read_answer Ha. not_http. rewrite Hj.
    destruct (assoc (lit "status") d) as [[| | | | t | |] |];
      cbn [default from_option id eq_str]; try reflexivity.
    destruct (str_eqb t (lit "success")) eqn:Heq; [| reflexivity].
    apply str_eqb_eq in Heq. now subst.
  - read_answer Ha. not_http. rewrite Hj.
    destruct o as [| | | | | | d]; try reflexivity. now destruct (Ho d).
  - read_answer Ha. not_http. rewrite Hj, He.
    destruct (first_link_findall _ _ Hu) as (us & Hf).
    destruct Hu as (b & a & Hb & Hl & _).
    rewrite Hf. rewrite Hb at 1. now rewrite (link_contains_http b u a Hl).
  - read_answer Ha. not_http. rewrite Hj, He, (no_link_findall _ Hno).
    now destruct (contains _ _).
  - read_answer Ha. not_http. now rewrite Hj, He.
Qed.

Lemma gives_unique (reads : pyobj -> Prop) (f : pyobj) :
  (forall v, reads v -> v = f) ->
  gives reads f ->
  forall v, gives reads v <-> v = f.
Proof.
  intros Hfun Hf v. split; [| now intros ->].
  intros [H | [-> Hno]]; [now apply Hfun |].
  destruct Hf as [Hf | [-> _]]; [now destruct (Hno f) | reflexivity].
Qed.

Lemma post_reads_fun p v : post_reads p v -> v = gplinks_after_post p.
Proof.
  intros (r & body & Ha & Hh & ->). read_answer Ha.
  apply starts_http_spec in Hh. now rewrite Hh.
Qed.

Lemma post_gives_table p : gives (post_reads p) (gplinks_after_post p).
Proof.
  destruct p as [r |]; cbn [gplinks_after_post].
  2:{ right. split; [reflexivity |]. intros v (r & body & (Hp & _) & _).
      discriminate. }
  destruct (status_code r =? 200) eqn:Hst.
  - apply Z.eqb_eq in Hst. cbv zeta.
    destruct (startswith (strip (text r)) (lit "http")) eqn:Hs.
    + left. exists r, (strip (text r)). split; [| split].
      * split; [reflexivity |]. split; [exact Hst | apply strip_trimmed_of].
      * now apply starts_http_spec.
      * reflexivity.
    + right. split; [reflexivity |].
      intros v (r' & body & (Hp & _ & Ht) & Hh & _). injection Hp as <-.
      apply trimmed_of_strip in Ht. subst body.
      apply starts_http_spec in Hh. congruence.
  - right. split; [reflexivity |].
    intros v (r' & body & (Hp & Hst' & _) & _). injection Hp as <-.
    apply Z.eqb_neq in Hst. contradiction.
Qed.


(** The value and the calls of the gplinks adapter, from the table. *)
Lemma shorten_gplinks_gives E url w :
  is_valid_url url = true ->
  GPLINKS_API (config E) <> [] ->
  exists v rs,
    shorten_url E url (lit "gplinks") w = (Ok v, add_requests w rs)
    /\ gplinks_gives E url w v rs
    /\ forall v' rs', gplinks_gives E url w v' rs' -> v' = v /\ rs' = rs.
Proof.
  intros Hv Hk. rewrite shorten_gplinks_run, Hv by assumption.
  pose proof (get_verdict_table (net E (requests w) (gplinks_get_request E url)))
    as Hget.
  pose proof (post_gives_table
                (net E (requests w ++ [gplinks_get_request E url])
                   (gplinks_post_request E url))) as Hpost.
  destruct (gplinks_after_get (net E (requests w) (gplinks_get_request E url)))
    as [v |] eqn:Hafter.
  - exists v, [gplinks_get_request E url]. split; [reflexivity |]. split.
    + exists (Return v). split; [exact Hget | auto].
    + intros v' rs' (t & Ht%get_verdict_unique & Hcase). rewrite Hafter in Ht.
      subst t. destruct Hcase as [-> ->]. auto.
  - eexists _, [gplinks_get_request E url; gplinks_post_request E url].
    split; [reflexivity |]. split.
    + exists Retry. split; [exact Hget | auto].
    + intros v' rs' (t & Ht%get_verdict_unique & Hcase). rewrite Hafter in Ht.
      subst t. destruct Hcase as [Hg ->]. split; [| reflexivity].
      apply (gives_unique _ _ (post_reads_fun _) Hpost). exact Hg.
Qed.




(** ** Validation inside the adapters *)

(** C9: for a string that is not a valid URL, [shorten_url] returns [None]
    for every service key and leaves the world as it was: no provider call
    is made. *)
Theorem shorten_url_rejects_invalid (E : Env) (url service : str) (w : World) :
  is_valid_url url = false ->
  shorten_url E url service w = (Ok PyNone, w).
Proof.
  intros Hinvalid. unfold shorten_url, try_except.
  rewrite Hinvalid. cbn [negb]. reflexivity.
Qed.

(** An [ftp] URL reaches no provider. *)
Lemma shorten_url_rejects_invalid_witness :
  is_valid_url (lit "ftp://example.com") = false
  /\ shorten_url two_of_four_env (lit "ftp://example.com") (lit "tinyurl") empty_world
     = (Ok PyNone, empty_world).
Proof.
  split.
  - vm_compute. reflexivity.
  - apply (shorten_url_rejects_invalid two_of_four_env (lit "ftp://example.com")).
    vm_compute. reflexivity.
Defined.

(** ** The cache *)

Lemma store_url_ok url url_id w :
  generate_url_id url = Ok url_id ->
  store_url url w =
  (Ok url_id,
   {| url_cache := <[url_id := url]> (url_cache w);
      requests := requests w; tg_calls := tg_calls w |}).
Proof. intros H. unfold store_url, bind, lift. rewrite H. reflexivity. Qed.

Lemma store_url_raise url e w :
  generate_url_id url = Raise e -> store_url url w = (Raise e, w).
Proof. intros H. unfold store_url, bind, lift. rewrite H. reflexivity. Qed.

Lemma generate_url_id_encodable url :
  (exists bytes, encode url = Ok bytes) <-> exists url_id, generate_url_id url = Ok url_id.
Proof.
  unfold generate_url_id. split.
  - intros (b & ->). eauto.
  - intros (i & H). destruct (encode url) as [b | e]; [eauto | discriminate].
Qed.

Lemma get_after_store url url_id w w' :
  store_url url w = (Ok url_id, w') -> get_url url_id w' = (Ok url, w').
Proof.
  unfold store_url, bind, lift.
  destruct (generate_url_id url) as [i | e]; [| discriminate].
  intros [= <- <-]. unfold get_url. cbn [url_cache].
  now rewrite lookup_insert_eq.
Qed.

(** C6 as stated fails: a URL whose path holds a lone surrogate is valid,
    but [url.encode()] raises on it, so [store_url] returns no id and
    stores nothing. *)
Lemma store_url_surrogate_raises :
  is_valid_url URL_SURROGATE = true
  /\ store_url URL_SURROGATE empty_world = (Raise UnicodeEncodeError, empty_world).
Proof. vm_compute. auto. Qed.

(** C6, amended: for every valid URL [u] that can be encoded as UTF-8 (it
    holds no surrogate code point) and every prior cache state, [store_url]
    returns the short id of [u] and [get_url] of that id then returns [u];
    and if a different valid URL [u2] with the same short id is stored
    next, the entry is overwritten: [get_url] of the shared id returns [u2]
    from then on. *)
Theorem store_url_get_url (u : str) (w : World) :
  is_valid_url u = true ->
  (exists bytes, encode u = Ok bytes) ->
  exists url_id w',
    store_url u w = (Ok url_id, w')
    /\ generate_url_id u = Ok url_id
    /\ get_url url_id w' = (Ok u, w')
    /\ forall u2,
         is_valid_url u2 = true -> u2 <> u -> generate_url_id u2 = Ok url_id ->
         exists w'',
           store_url u2 w' = (Ok url_id, w'')
           /\ get_url url_id w'' = (Ok u2, w'').
Proof.
  intros _ Henc. apply generate_url_id_encodable in Henc as (url_id & Hid).
  eexists url_id, _. split; [apply store_url_ok, Hid |].
  split; [assumption |]. split.
  - eapply get_after_store, store_url_ok, Hid.
  - intros u2 _ _ Hid2. eexists. split; [apply store_url_ok, Hid2 |].
    eapply get_after_store, store_url_ok, Hid2.
Qed.

Example short_ids_collide :
  generate_url_id URL_1548 = Ok (lit "7f17b0c9")
  /\ generate_url_id URL_2133 = Ok (lit "7f17b0c9").
Proof. vm_compute. auto. Qed.

(** Two valid URLs with the same short id, stored one after the other. *)
Lemma store_url_get_url_witness :
  exists w1 w2,
    store_url URL_1548 empty_world = (Ok (lit "7f17b0c9"), w1)
    /\ get_url (lit "7f17b0c9") w1 = (Ok URL_1548, w1)
    /\ store_url URL_2133 w1 = (Ok (lit "7f17b0c9"), w2)
    /\ get_url (lit "7f17b0c9") w2 = (Ok URL_2133, w2).
Proof.
  destruct (store_url_get_url URL_1548 empty_world)
    as (url_id & w1 & Hstore & Hid & Hget & Hover).
  - vm_compute. reflexivity.
  - eexists. vm_compute. reflexivity.
  - assert (url_id = lit "7f17b0c9") as ->.
    { destruct short_ids_collide as [H1 _]. congruence. }
    destruct (Hover URL_2133) as (w2 & Hstore2 & Hget2).
    + vm_compute. reflexivity.
    + vm_compute. discriminate.
    + apply short_ids_collide.
    + exists w1, w2. auto.
Defined.

Lemma byte_range w : 0 <= Z.land w 0xFF < 256.
Proof.
  change 0xFF with (Z.ones 8). rewrite Z.land_ones by lia.
  apply Z.mod_pos_bound. lia.
Qed.

Lemma hex_digit_range d : 0 <= d < 16 -> is_hex_digit (MD5.hex_digit d) = true.
Proof.
  intros Hd. unfold MD5.hex_digit, is_hex_digit, in_range.
  destruct (d <? 10) eqn:H10; [apply Z.ltb_lt in H10 | apply Z.ltb_ge in H10].
  - apply orb_true_iff. left. apply andb_true_iff. split; apply Z.leb_le; lia.
  - apply orb_true_iff. right. apply andb_true_iff. split; apply Z.leb_le; lia.
Qed.

Lemma hex_of_byte b :
  0 <= b < 256 ->
  all_in is_hex_digit [MD5.hex_digit (Z.shiftr b 4); MD5.hex_digit (Z.land b 0xF)].
Proof.
  intros Hb. repeat constructor; apply hex_digit_range.
  - rewrite Z.shiftr_div_pow2 by lia. change (2 ^ 4) with 16.
    split; [apply Z.div_pos; lia | apply Z.div_lt_upper_bound; lia].
  - change 0xF with (Z.ones 4). rewrite Z.land_ones by lia.
    apply Z.mod_pos_bound. lia.
Qed.

Lemma bytes_of_range w : Forall (fun b => 0 <= b < 256) (MD5.bytes_of w).
Proof. unfold MD5.bytes_of. repeat constructor; apply byte_range. Qed.

Lemma hex_of_bytes bytes :
  Forall (fun b => 0 <= b < 256) bytes ->
  length (flat_map (fun b => [MD5.hex_digit (Z.shiftr b 4);
                              MD5.hex_digit (Z.land b 0xF)]) bytes)
  = (2 * length bytes)%nat
  /\ all_in is_hex_digit
       (flat_map (fun b => [MD5.hex_digit (Z.shiftr b 4);
                            MD5.hex_digit (Z.land b 0xF)]) bytes).
Proof.
  induction 1 as [| b bytes Hb _ [IHlen IHall]]; [split; [reflexivity | constructor] |].
  cbn [flat_map]. split.
  - rewrite length_app, IHlen. simpl. lia.
  - apply all_in_app. split; [now apply hex_of_byte | assumption].
Qed.

Lemma hexdigest_shape msg :
  length (MD5.hexdigest msg) = 32%nat /\ all_in is_hex_digit (MD5.hexdigest msg).
Proof.
  unfold MD5.hexdigest, MD5.digest.
  set (st := MD5.blocks _ _ _).
  destruct (hex_of_bytes
              (MD5.bytes_of (MD5.sa st) ++ MD5.bytes_of (MD5.sb st)
                 ++ MD5.bytes_of (MD5.sc st) ++ MD5.bytes_of (MD5.sd st)))
    as [Hlen Hall].
  - repeat (apply Forall_app; split); apply bytes_of_range.
  - split; [rewrite Hlen; reflexivity | exact Hall].
Qed.

Lemma generate_url_id_shape url url_id :
  generate_url_id url = Ok url_id ->
  length url_id = 8%nat /\ all_in is_hex_digit url_id.
Proof.
  unfold generate_url_id. destruct (encode url) as [bytes |]; [| discriminate].
  intros Hid. assert (url_id = firstn 8 (MD5.hexdigest bytes)) as -> by congruence.
  destruct (hexdigest_shape bytes) as [Hlen Hall]. split.
  - rewrite length_firstn, Hlen. reflexivity.
  - rewrite <- (firstn_skipn 8 (MD5.hexdigest bytes)) in Hall.
    now apply all_in_app in Hall.
Qed.

(** C7: in every world the bot can reach from the empty cache, whatever
    it stores, looks up or handles, every entry of the cache has as key the
    short id computed from its URL: the first 8 hexadecimal digits of the
    MD5 of the UTF-8 bytes of the URL. *)
Theorem cache_consistent_reachable (w : World) :
  reachable w ->
  cache_consistent w
  /\ forall url_id url,
       url_cache w !! url_id = Some url ->
       exists bytes,
         encode url = Ok bytes
         /\ url_id = firstn 8 (MD5.hexdigest bytes)
         /\ length url_id = 8%nat /\ all_in is_hex_digit url_id.
Proof.
  intros Hreach.
  assert (Hcons : cache_consistent w).
  { unfold cache_consistent.
    induction Hreach as [rs cs | url w _ IH | url_id w _ IH | E data w _ IH].
    - apply map_Forall_empty.
    - destruct (generate_url_id url) as [url_id | e] eqn:Hid.
      + rewrite (store_url_ok _ _ _ Hid). cbn [snd url_cache].
        now apply map_Forall_insert_2.
      + now rewrite (store_url_raise _ _ _ Hid).
    - exact IH.
    - destruct (logs_button_handler E data w) as [Hc _]. now rewrite Hc. }
  split; [exact Hcons |].
  intros url_id url Hlookup. specialize (Hcons url_id url Hlookup). cbn beta in Hcons.
  destruct (generate_url_id_shape _ _ Hcons) as [Hlen Hhex].
  unfold generate_url_id in Hcons.
  destruct (encode url) as [bytes |]; [| discriminate].
  exists bytes. assert (url_id = firstn 8 (MD5.hexdigest bytes)) by congruence.
  auto.
Qed.

(** The cache after the two colliding URLs were stored. *)
Lemma cache_consistent_reachable_witness :
  cache_consistent (snd (store_url URL_2133 (snd (store_url URL_1548 empty_world)))).
Proof.
  apply cache_consistent_reachable.
  apply reach_store_url, reach_store_url. exact (reach_start [] []).
Defined.

Example cache_after_collision :
  url_cache (snd (store_url URL_2133 (snd (store_url URL_1548 empty_world))))
  = {[ lit "7f17b0c9" := URL_2133 ]}.
Proof. vm_compute. reflexivity. Qed.

(** ** Dispatch to all services *)

Lemma adapter_result_run E url key w :
  shorten_url E url key w
  = (Ok (fst (adapter_result E url key w)), snd (adapter_result E url key w)).
Proof.
  unfold adapter_result.
  destruct (shorten_url_total E url key w) as (v & w' & ->). reflexivity.
Qed.

Lemma service_lines_cons E svc svcs v vs :
  service_lines E (svc :: svcs) (v :: vs)
  = service_line E svc v ++ service_lines E svcs vs.
Proof. reflexivity. Qed.

Lemma send_all_loop_run E url svcs message k w :
  send_all_loop E url svcs message k w =
  (Ok (message ++ service_lines E svcs (fst (run_adapters E url (map fst svcs) w)),
       k + successes (fst (run_adapters E url (map fst svcs) w))),
   snd (run_adapters E url (map fst svcs) w)).
Proof.
  revert message k w.
  induction svcs as [| [key info] svcs IH]; intros message k w.
  - cbn [send_all_loop map run_adapters fst snd service_lines successes].
    unfold ret. now rewrite app_nil_r, Z.add_0_r.
  - cbn [send_all_loop map run_adapters fst snd]. unfold bind.
    rewrite adapter_result_run.
    destruct (adapter_result E url key w) as [v w1]. cbn [fst snd].
    destruct (run_adapters E url (map fst svcs) w1) as [vs w'] eqn:Hrun.
    cbn [fst snd]. rewrite service_lines_cons. cbn [successes].
    unfold service_line, success_line, failure_line. cbn [fst snd].
    destruct (truthy v); rewrite IH, Hrun; cbn [fst snd].
    + replace (k + 1 + successes vs) with (k + (1 + successes vs)) by lia.
      do 3 f_equal.
      destruct (str_eqb key (lit "gplinks"));
        repeat rewrite <- app_assoc; reflexivity.
    + do 3 f_equal. repeat rewrite <- app_assoc. reflexivity.
Qed.

Lemma run_adapters_length E url keys w :
  length (fst (run_adapters E url keys w)) = length keys.
Proof.
  revert w. induction keys as [| key keys IH]; intros w; [reflexivity |].
  cbn [run_adapters]. destruct (adapter_result E url key w) as [v w1].
  specialize (IH w1). destruct (run_adapters E url keys w1). simpl in *. lia.
Qed.

Lemma successes_nonneg vs : 0 <= successes vs.
Proof. induction vs as [| v vs IH]; simpl; [lia |]. destruct (truthy v); lia. Qed.

Lemma successes_absent vs : Forall (fun v => v = PyNone) vs -> successes vs = 0.
Proof. induction 1 as [| v vs -> _ IH]; simpl; [reflexivity | assumption]. Qed.

(** What [send_all_shortened_urls] does once the adapters have run: one
    [edit_message_text] with the message, and a second one with the
    apology if the SDK refused the first. *)
Lemma send_all_run E url w :
  let run := run_adapters E url service_keys w in
  let k := successes (fst run) in
  let message :=
    if k =? 0 then ALL_FAILED
    else ALL_HEADER ++ service_lines E SUPPORTED_SERVICES (fst run) ++ trailer k in
  exists out rest,
    send_all_shortened_urls E url w
    = (out, add_tg_calls (snd run) (EditMessageText message true :: rest))
    /\ (rest = [] /\ out = Ok tt \/ rest = [EditMessageText MSG_ALL_ERROR false]).
Proof.
  intros run k message. unfold send_all_shortened_urls, try_except, bind.
  rewrite send_all_loop_run.
  change (map fst SUPPORTED_SERVICES) with service_keys.
  fold run. rewrite Z.add_0_l. fold k.
  change (str_of_int (Z.of_nat (length SUPPORTED_SERVICES))) with (lit "4").
  assert (Hmsg :
    (if k =? 0 then MARK_FAIL ++ lit " All services failed. Please try again later."
     else ((MARK_LINK ++ lit " **Shortened URLs**" ++ NL ++ NL)
             ++ service_lines E SUPPORTED_SERVICES (fst run))
            ++ MARK_OK ++ lit " **" ++ str_of_int k ++ lit "/" ++ lit "4"
            ++ lit " successful**") = message).
  { unfold message, ALL_FAILED, ALL_HEADER, trailer.
    destruct (k =? 0); [reflexivity |]. now rewrite <- !app_assoc. }
  rewrite Hmsg. unfold tg.
  destruct (tg_raises E (tg_calls (snd run)) (EditMessageText message true)).
  - cbn [tg_calls url_cache requests].
    exists (if tg_raises E (tg_calls (snd run) ++ [EditMessageText message true])
                 (EditMessageText MSG_ALL_ERROR false)
            then Raise TelegramError else Ok tt),
           [EditMessageText MSG_ALL_ERROR false].
    split; [| now right].
    unfold add_tg_calls. fold MSG_ALL_ERROR.
    destruct (tg_raises E (tg_calls (snd run) ++ [EditMessageText message true])
                (EditMessageText MSG_ALL_ERROR false));
      now rewrite <- app_assoc.
  - exists (Ok tt), []. split; [reflexivity | now left].
Qed.









Example two_of_four_succeed :
  send_all_shortened_urls two_of_four_env
    (lit "https://example.com/very/long/path") empty_world
  = (Ok tt,
     {| url_cache := ∅;
        requests :=
          [ bitly_request two_of_four_env (lit "https://example.com/very/long/path");
            tinyurl_request (lit "https://example.com/very/long/path");
            cuttly_request two_of_four_env (lit "https://example.com/very/long/path");
            gplinks_get_request two_of_four_env
              (lit "https://example.com/very/long/path");
            gplinks_post_request two_of_four_env
              (lit "https://example.com/very/long/path") ];
        tg_calls :=
          [ EditMessageText
              (MARK_LINK ++ lit " **Shortened URLs**" ++ NL ++ NL
                 ++ MARK_OK ++ lit " **Bitly**" ++ NL
                 ++ lit "`https://bit.ly/3xYz`" ++ NL ++ NL
                 ++ MARK_OK ++ lit " **TinyURL**" ++ NL
                 ++ lit "`https://tinyurl.com/abc123`" ++ NL ++ NL
                 ++ MARK_FAIL ++ lit " **Cuttly** - Failed" ++ NL ++ NL
                 ++ MARK_FAIL ++ lit " **GPLinks** - Failed" ++ NL ++ NL
                 ++ MARK_OK ++ lit " **2/4 successful**")
              true ] |}).
Proof. vm_compute. reflexivity. Qed.


Lemma startswith_app s p q : startswith s (p ++ q) = true -> startswith s p = true.
Proof.
  revert s; induction p as [| x p IH]; intros s H.
  - now destruct s.
  - destruct s as [| c s]; [discriminate |]. simpl in *.
    apply andb_true_iff in H as [Hc H]. rewrite Hc. now apply IH.
Qed.

Lemma contains_app s p q : contains s (p ++ q) = true -> contains s p = true.
Proof.
  induction s as [| c s IH]; cbn [contains]; intros H.
  - rewrite orb_false_r in *. now apply startswith_app in H.
  - apply orb_true_iff in H as [H | H].
    + apply startswith_app in H. now rewrite H.
    + rewrite (IH H). apply orb_true_r.
Qed.

Lemma not_contains_app s p q : contains s p = false -> contains s (p ++ q) = false.
Proof.
  intros H. destruct (contains s (p ++ q)) eqn:Hc; [| reflexivity].
  apply contains_app in Hc. congruence.
Qed.

Lemma all_failed_has_no_line E svc v :
  contains ALL_FAILED (service_line E svc v) = false.
Proof.
  unfold service_line, success_line, failure_line.
  destruct (truthy v).
  - apply not_contains_app. vm_compute. reflexivity.
  - rewrite app_assoc. apply not_contains_app. vm_compute. reflexivity.
Qed.

(** C4: when every one of the four adapters returns absent, the text sent
    is the blanket failure notice alone: it holds no line of any service and
    no count of successes. *)
Theorem send_all_blanket_failure (E : Env) (url : str) (w : World) :
  Forall (fun v => v = PyNone) (fst (run_adapters E url service_keys w)) ->
  (exists out rest,
     send_all_shortened_urls E url w
     = (out,
        add_tg_calls (snd (run_adapters E url service_keys w))
                     (EditMessageText ALL_FAILED true :: rest))
     /\ (rest = [] /\ out = Ok tt \/ rest = [EditMessageText MSG_ALL_ERROR false]))
  /\ (forall svc v, contains ALL_FAILED (service_line E svc v) = false)
  /\ contains ALL_FAILED (lit "successful") = false.
Proof.
  intros Habs. split; [| split].
  - destruct (send_all_run E url w) as (out & rest & Hrun & Hrest).
    exists out, rest. split; [| assumption].
    rewrite Hrun, (successes_absent _ Habs). reflexivity.
  - intros svc v. apply all_failed_has_no_line.
  - vm_compute. reflexivity.
Qed.

(** No provider can be reached. *)
Lemma send_all_blanket_failure_witness :
  exists out rest,
    send_all_shortened_urls offline_env (lit "https://example.com/page") empty_world
    = (out,
       add_tg_calls
         (snd (run_adapters offline_env (lit "https://example.com/page")
                 service_keys empty_world))
         (EditMessageText ALL_FAILED true :: rest)).
Proof.
  destruct (send_all_blanket_failure offline_env (lit "https://example.com/page")
              empty_world) as ((out & rest & Hrun & _) & _).
  - vm_compute. repeat constructor.
  - eauto.
Defined.

Example all_four_fail :
  send_all_shortened_urls offline_env (lit "https://example.com/page") empty_world
  = (Ok tt,
     {| url_cache := ∅;
        requests :=
          [ bitly_request offline_env (lit "https://example.com/page");
            tinyurl_request (lit "https://example.com/page");
            cuttly_request offline_env (lit "https://example.com/page");
            gplinks_get_request offline_env (lit "https://example.com/page") ];
        tg_calls :=
          [ EditMessageText
              (MARK_FAIL ++ lit " All services failed. Please try again later.")
              true ] |}).
Proof. vm_compute. reflexivity. Qed.

(** ** The callback handler *)

Lemma get_url_run url_id w :
  get_url url_id w = (Ok (default [] (url_cache w !! url_id)), w).
Proof. reflexivity. Qed.

Lemma try_except_grows {A} (m h : M A) w w1 :
  logs_only m -> logs_only h -> grows w w1 ->
  grows w (snd (try_except m h w1)).
Proof.
  intros Hm Hh Hw. eapply grows_trans; [exact Hw |].
  apply (logs_try_except m h Hm Hh w1).
Qed.

(** C10: [get_url] of an id that is not in the cache returns the empty
    string and raises nothing; and the callback handler, once the SDK has
    acknowledged the callback, answers "URL not found" exactly when
    [get_url] returned the empty string: then this message is its next
    call and no provider is called, otherwise its next call is the
    "typing" action that precedes the dispatch. *)
Theorem button_handler_lookup_miss (E : Env) (data p service_code url_id : str)
    (w : World) :
  startswith data (lit "s_") = true ->
  split 0x5F 2 data = [p; service_code; url_id] ->
  tg_raises E (tg_calls w) Answer = false ->
  (url_cache w !! url_id = None -> get_url url_id w = (Ok [], w))
  /\ (fst (get_url url_id w) = Ok [] ->
      exists out rest,
        button_handler E data w
        = (out, add_tg_calls w (Answer :: EditMessageText MSG_NOT_FOUND false :: rest))
        /\ (rest = [] /\ out = Ok tt
            \/ tg_raises E (tg_calls w ++ [Answer])
                 (EditMessageText MSG_NOT_FOUND false) = true))
  /\ (fst (get_url url_id w) <> Ok [] ->
      exists rest,
        tg_calls (snd (button_handler E data w))
        = tg_calls w ++ Answer :: ReplyChatAction (lit "typing") :: rest).
Proof.
  intros Hs Hsplit Hanswer. split; [| split].
  - intros Hmiss. rewrite get_url_run, Hmiss. reflexivity.
  - rewrite get_url_run. cbn [fst]. intros [= Hurl].
    unfold button_handler. unfold try_except at 1. unfold bind at 1.
    unfold tg at 1. rewrite Hanswer, Hs, Hsplit.
    unfold bind at 1. rewrite get_url_run. cbn [url_cache]. rewrite Hurl.
    cbn [nonempty negb]. unfold tg at 1. cbn [tg_calls url_cache requests].
    destruct (tg_raises E (tg_calls w ++ [Answer])
                (EditMessageText MSG_NOT_FOUND false)) eqn:Hedit.
    + match goal with
      | |- context [try_except ?m ?h ?w1] =>
          destruct (try_except m h w1) as [out w'] eqn:Hh;
          pose proof (logs_try_except m h (logs_tg E _) (logs_tg E _) w1) as Hg
      end.
      rewrite Hh in Hg. destruct Hg as (Hc & (rs & Hr) & (cs & Ht)).
      cbn [snd url_cache requests tg_calls] in *.
      assert (Hrs : requests w' = requests w).
      { unfold try_except, tg in Hh. cbn [tg_calls url_cache requests] in Hh.
        repeat match type of Hh with
               | context [if ?b then _ else _] => destruct b
               end; injection Hh as _ <-; reflexivity. }
      exists out, cs. split; [| now right].
      f_equal. destruct w'; cbn in *. unfold add_tg_calls. cbn.
      rewrite Hc, Hrs, Ht, <- !app_assoc. reflexivity.
    + exists (Ok tt), []. split; [| now left].
      unfold add_tg_calls. now rewrite <- app_assoc.
  - rewrite get_url_run. cbn [fst]. intros Hurl.
    destruct (default [] (url_cache w !! url_id)) as [| c url] eqn:Hu;
      [congruence |].
    set (w1 := add_tg_calls w [Answer]).
    set (w2 := add_tg_calls w1 [ReplyChatAction (lit "typing")]).
    assert (Hg : grows w2 (snd (button_handler E data w))).
    { unfold button_handler. unfold try_except at 1. unfold bind at 1.
      unfold tg at 1. rewrite Hanswer, Hs, Hsplit. fold (add_tg_calls w [Answer]).
      fold w1. unfold bind at 1. rewrite get_url_run.
      replace (url_cache w1 !! url_id) with (url_cache w !! url_id) by reflexivity.
      rewrite Hu. cbn [nonempty negb]. unfold bind at 1. unfold tg at 1.
      fold (add_tg_calls w1 [ReplyChatAction (lit "typing")]). fold w2.
      pose proof (logs_try_except _ _ (logs_tg E (EditMessageText MSG_ERROR false))
                    (logs_tg E (ReplyText MSG_ERROR))) as Hh.
      destruct (tg_raises E (tg_calls w1) (ReplyChatAction (lit "typing"))).
      - apply Hh.
      - match goal with
        | |- context [match ?m w2 with _ => _ end] =>
            assert (Hm : grows w2 (snd (m w2)));
            [ destruct (str_eqb (default service_code (assoc service_code service_map))
                                (lit "all"));
              [apply logs_send_all | apply logs_send_single]
            | destruct (m w2) as [[u | e] w3] ]
        end.
        + exact Hm.
        + eapply grows_trans; [exact Hm | apply Hh]. }
    destruct Hg as (_ & _ & (cs & Ht)). exists cs. rewrite Ht.
    unfold w2, w1, add_tg_calls. cbn [tg_calls]. now rewrite <- !app_assoc.
Qed.

(** A callback for an id that was never stored. *)
Lemma button_handler_lookup_miss_witness :
  button_handler two_of_four_env (lit "s_gpl_deadbeef") empty_world
  = (Ok tt,
     add_tg_calls empty_world [Answer; EditMessageText MSG_NOT_FOUND false]).
Proof.
  destruct (button_handler_lookup_miss two_of_four_env (lit "s_gpl_deadbeef")
              (lit "s") (lit "gpl") (lit "deadbeef") empty_world)
    as (_ & Hmiss & _).
  - vm_compute. reflexivity.
  - vm_compute. reflexivity.
  - reflexivity.
  - destruct Hmiss as (out & rest & Hrun & [[-> ->] | Hraise]).
    + reflexivity.
    + exact Hrun.
    + discriminate Hraise.
Defined.

Example callback_for_stored_url :
  tg_calls
    (snd (button_handler two_of_four_env (lit "s_tiny_7f17b0c9")
            (snd (store_url URL_1548 empty_world))))
  = [ Answer; ReplyChatAction (lit "typing");
      EditMessageText
        (MARK_OK ++ lit " **TinyURL**" ++ NL ++ MARK_LINK
           ++ lit " `https://tinyurl.com/abc123`")
        true ].
Proof. vm_compute. reflexivity. Qed.

(** ** Service status *)

(** C5: whatever the credentials, the status reports tinyurl as connected;
    bitly, cuttly and gplinks are connected exactly when their credential
    is a non-empty string; and the count of connected services is the
    number of entries with [connected = true], that is one plus the number
    of non-empty credentials.  [check_service_status] returns the same
    count. *)
Theorem service_status_connected (c : Config) (now : str) :
  (exists e, assoc (lit "tinyurl") (services (api_status c now)) = Some e
             /\ connected e = true)
  /\ (exists e, assoc (lit "bitly") (services (api_status c now)) = Some e
                /\ (connected e = true <-> BITLY_TOKEN c <> []))
  /\ (exists e, assoc (lit "cuttly") (services (api_status c now)) = Some e
                /\ (connected e = true <-> CUTTLY_API c <> []))
  /\ (exists e, assoc (lit "gplinks") (services (api_status c now)) = Some e
                /\ (connected e = true <-> GPLINKS_API c <> []))
  /\ connected_services (summary (api_status c now))
     = count_connected (api_status c now)
  /\ connected_services (summary (api_status c now))
     = 1 + Z.b2z (nonempty (BITLY_TOKEN c)) + Z.b2z (nonempty (CUTTLY_API c))
         + Z.b2z (nonempty (GPLINKS_API c))
  /\ snd (check_service_status c) = connected_services (summary (api_status c now)).
Proof.
  repeat split; try (eexists; split; [reflexivity|]; simpl;
                     unfold status_of; simpl; apply nonempty_true).
  - eexists; split; reflexivity.
  - unfold count_connected, api_status, check_service_status, status_of; simpl.
    destruct (BITLY_TOKEN c), (CUTTLY_API c), (GPLINKS_API c); reflexivity.
  - unfold api_status, check_service_status; simpl. lia.
Qed.

Example status_without_credentials :
  api_status {| BITLY_TOKEN := []; CUTTLY_API := []; GPLINKS_API := [] |}
             (lit "2025-01-01T00:00:00")
  = {| status := lit "online";
       timestamp := lit "2025-01-01T00:00:00";
       services :=
         [ (lit "bitly", {| connected := false; has_key := false |});
           (lit "tinyurl", {| connected := true; has_key := false |});
           (lit "cuttly", {| connected := false; has_key := false |});
           (lit "gplinks", {| connected := false; has_key := false |}) ];
       summary := {| total_services := 4; connected_services := 1 |} |}.
Proof. reflexivity. Qed.

Example status_with_two_credentials :
  connected_services
    (summary (api_status {| BITLY_TOKEN := lit "token"; CUTTLY_API := [];
                            GPLINKS_API := lit "key" |} []))
  = 3.
Proof. reflexivity. Qed.

(** ** The adapters fail closed *)

Lemma startswith_contains s p : contains s p = false -> startswith s p = false.
Proof.
  destruct s; cbn [contains]; intros H; apply orb_false_iff in H; tauto.
Qed.

Lemma add_requests_nil w : add_requests w [] = w.
Proof. destruct w. unfold add_requests. cbn. now rewrite app_nil_r. Qed.

Lemma bitly_reads_fun p v : bitly_reads p v -> v = bitly_extract p.
Proof.
  intros (r & d & -> & Hst & Hj & Hl). cbn [bitly_extract].
  rewrite Hst, Hj. change (200 =? 200) with true. cbn [getitem].
  now rewrite Hl.
Qed.

Lemma bitly_gives_table p : gives (bitly_reads p) (bitly_extract p).
Proof.
  destruct p as [r |]; cbn [bitly_extract].
  2:{ right. split; [reflexivity |]. intros v (r & d & Hp & _). discriminate. }
  destruct (status_code r =? 200) eqn:Hst.
  2:{ right. split; [reflexivity |]. intros v (r' & d & [= <-] & Hst' & _).
      apply Z.eqb_neq in Hst. contradiction. }
  apply Z.eqb_eq in Hst.
  destruct (json r) as [[| | | | | | d] | e] eqn:Hj;
    try (right; split; [reflexivity |];
         intros v (r' & d' & [= <-] & _ & Hj' & _); congruence).
  cbn [getitem]. destruct (assoc (lit "link") d) as [link |] eqn:Hl.
  - left. exists r, d. auto.
  - right. split; [reflexivity |].
    intros v (r' & d' & [= <-] & _ & Hj' & Hl'). congruence.
Qed.

Lemma tinyurl_reads_fun p v : tinyurl_reads p v -> v = tinyurl_extract p.
Proof.
  intros (r & body & (-> & Hst & Ht) & ->). apply trimmed_of_strip in Ht.
  subst body. cbn [tinyurl_extract]. now rewrite Hst.
Qed.

Lemma tinyurl_gives_table p : gives (tinyurl_reads p) (tinyurl_extract p).
Proof.
  destruct p as [r |]; cbn [tinyurl_extract].
  2:{ right. split; [reflexivity |]. intros v (r & body & (Hp & _) & _).
      discriminate. }
  destruct (status_code r =? 200) eqn:Hst.
  - apply Z.eqb_eq in Hst. left. exists r, (strip (text r)).
    split; [| reflexivity]. split; [reflexivity |].
    split; [exact Hst | apply strip_trimmed_of].
  - right. split; [reflexivity |].
    intros v (r' & body & ([= <-] & Hst' & _) & _).
    apply Z.eqb_neq in Hst. contradiction.
Qed.

Lemma cuttly_reads_fun p v : cuttly_reads p v -> v = cuttly_extract p.
Proof.
  intros (r & d & u & st & -> & Hst & Hj & Hu & Hs & H7 & Hl).
  cbn [cuttly_extract]. rewrite Hst, Hj, Hu. change (200 =? 200) with true.
  cbn [default from_option id]. rewrite Hs. cbn [default from_option id].
  rewrite H7. cbn [getitem]. now rewrite Hl.
Qed.

Lemma cuttly_gives_table p : gives (cuttly_reads p) (cuttly_extract p).
Proof.
  destruct p as [r |]; cbn [cuttly_extract].
  2:{ right. split; [reflexivity |]. intros v (r & d & u & st & Hp & _).
      discriminate. }
  destruct (status_code r =? 200) eqn:Hst.
  2:{ right. split; [reflexivity |].
      intros v (r' & d & u & st & [= <-] & Hst' & _).
      apply Z.eqb_neq in Hst. contradiction. }
  apply Z.eqb_eq in Hst.
  destruct (json r) as [[| | | | | | d] | e] eqn:Hj;
    try (right; split; [reflexivity |];
         intros v (r' & d' & u & st & [= <-] & _ & Hj' & _); congruence).
  destruct (assoc (lit "url") d) as [[| | | | | | u] |] eqn:Hu;
    cbn [default from_option id];
    try (right; split; [reflexivity |];
         intros v (r' & d' & u' & st & [= <-] & _ & Hj' & Hu' & _); congruence).
  destruct (assoc (lit "status") u) as [st |] eqn:Hs;
    cbn [default from_option id].
  - destruct (eq_7 st) eqn:H7.
    + cbn [getitem]. destruct (assoc (lit "shortLink") u) as [link |] eqn:Hl.
      * left. exists r, d, u, st. auto 8.
      * right. split; [reflexivity |].
        intros v (r' & d' & u' & st' & [= <-] & _ & Hj' & Hu' & _ & _ & Hl').
        congruence.
    + right. split; [reflexivity |].
      intros v (r' & d' & u' & st' & [= <-] & _ & Hj' & Hu' & Hs' & H7' & _).
      congruence.
  - right. split; [reflexivity |].
    intros v (r' & d' & u' & st' & [= <-] & _ & Hj' & Hu' & Hs' & _).
    congruence.
Qed.

Lemma extract_failed (p : reply) :
  (p = Fails \/ exists resp, p = Reply resp /\ status_code resp <> 200) ->
  bitly_extract p = PyNone /\ tinyurl_extract p = PyNone
  /\ cuttly_extract p = PyNone /\ gplinks_after_post p = PyNone.
Proof.
  intros [-> | (resp & -> & Hs)]; [auto |].
  apply Z.eqb_neq in Hs.
  cbn [bitly_extract tinyurl_extract cuttly_extract gplinks_after_post].
  rewrite Hs. auto.
Qed.

Lemma extract_unparseable (resp : response) (e : exn) :
  status_code resp = 200 -> json resp = Raise e ->
  bitly_extract (Reply resp) = PyNone /\ cuttly_extract (Reply resp) = PyNone.
Proof.
  intros Hs Hj. cbn [bitly_extract cuttly_extract]. rewrite Hs, Hj. auto.
Qed.

Lemma one_call (r r' : request) (h : list request) :
  [r] = h ++ [r'] -> h = [] /\ r' = r.
Proof.
  intros H. change [r] with ([] ++ [r]) in H.
  apply app_inj_tail in H as [<- <-]. auto.
Qed.

Lemma two_calls (r1 r2 r' : request) (h : list request) :
  [r1; r2] = h ++ [r'] -> h = [r1] /\ r' = r2.
Proof.
  intros H. change [r1; r2] with ([r1] ++ [r2]) in H.
  apply app_inj_tail in H as [<- <-]. auto.
Qed.

Ltac other_service :=
  match goal with
  | H : lit _ = lit _ |- _ => vm_compute in H; discriminate
  end.

(** The adapters that make one call. *)
Lemma one_call_closed E url service w r (reads : reply -> pyobj -> Prop)
    (extract : reply -> pyobj) :
  (forall v rs,
     adapter_gives E url service w v rs
     <-> rs = [r] /\ gives (reads (net E (requests w) r)) v) ->
  (forall p v, reads p v -> v = extract p) ->
  (forall p, gives (reads p) (extract p)) ->
  (forall p, (p = Fails \/ exists resp, p = Reply resp /\ status_code resp <> 200) ->
             extract p = PyNone) ->
  (service = lit "bitly" \/ service = lit "cuttly" ->
   forall resp e, status_code resp = 200 -> json resp = Raise e ->
                  extract (Reply resp) = PyNone) ->
  fails_closed E url service w (extract (net E (requests w) r)) [r].
Proof.
  intros Hgives Hfun Htable Hfailed Hparse. unfold fails_closed.
  split; [apply Hgives; auto |]. split; [| split].
  - intros v' rs' [-> Hg]%Hgives. split; [| reflexivity].
    now apply (gives_unique _ _ (Hfun _) (Htable _)).
  - intros h r' [-> ->]%one_call Hf. rewrite app_nil_r in Hf.
    now apply Hfailed.
  - intros Hs r' [= <-] (resp & e & Hr & Hst & Hj). rewrite Hr.
    now apply (Hparse Hs resp e).
Qed.

Lemma bitly_closed E url w :
  fails_closed E url (lit "bitly") w
    (bitly_extract (net E (requests w) (bitly_request E url)))
    [bitly_request E url].
Proof.
  apply (one_call_closed E url (lit "bitly") w _ bitly_reads).
  - intros v rs. unfold adapter_gives. split.
    + intros [(_ & Hrs & Hg) | [(H & _) | [(H & _) | (H & _)]]];
        [auto | other_service ..].
    + intros [-> Hg]. left. auto.
  - apply bitly_reads_fun.
  - apply bitly_gives_table.
  - intros p Hp. now apply extract_failed.
  - intros _ resp e Hs Hj. now apply (extract_unparseable resp e).
Qed.

Lemma tinyurl_closed E url w :
  fails_closed E url (lit "tinyurl") w
    (tinyurl_extract (net E (requests w) (tinyurl_request url)))
    [tinyurl_request url].
Proof.
  apply (one_call_closed E url (lit "tinyurl") w _ tinyurl_reads).
  - intros v rs. unfold adapter_gives. split.
    + intros [(H & _) | [(_ & Hrs & Hg) | [(H & _) | (H & _)]]];
        [other_service | auto | other_service ..].
    + intros [-> Hg]. right. left. auto.
  - apply tinyurl_reads_fun.
  - apply tinyurl_gives_table.
  - intros p Hp. now apply extract_failed.
  - intros [H | H]; other_service.
Qed.

Lemma cuttly_closed E url w :
  fails_closed E url (lit "cuttly") w
    (cuttly_extract (net E (requests w) (cuttly_request E url)))
    [cuttly_request E url].
Proof.
  apply (one_call_closed E url (lit "cuttly") w _ cuttly_reads).
  - intros v rs. unfold adapter_gives. split.
    + intros [(H & _) | [(H & _) | [(_ & Hrs & Hg) | (H & _)]]];
        [other_service | other_service | auto | other_service].
    + intros [-> Hg]. right. right. left. auto.
  - apply cuttly_reads_fun.
  - apply cuttly_gives_table.
  - intros p Hp. now apply extract_failed.
  - intros _ resp e Hs Hj. now apply (extract_unparseable resp e).
Qed.

Lemma gplinks_closed E url w v rs :
  gplinks_gives E url w v rs ->
  (forall v' rs', gplinks_gives E url w v' rs' -> v' = v /\ rs' = rs) ->
  fails_closed E url (lit "gplinks") w v rs.
Proof.
  intros Hg Hdet. unfold fails_closed.
  assert (Hiff : forall v' rs',
            adapter_gives E url (lit "gplinks") w v' rs'
            <-> gplinks_gives E url w v' rs').
  { intros v' rs'. unfold adapter_gives. split.
    - intros [(H & _) | [(H & _) | [(H & _) | (_ & H)]]];
        [other_service .. | exact H].
    - intros H. do 3 right. auto. }
  split; [now apply Hiff |]. split; [| split].
  - intros v' rs' H%Hiff. now apply Hdet.
  - intros h r Hrs Hf. destruct Hg as (t & Ht%get_verdict_unique & Hcase).
    destruct t as [v0 |].
    + destruct Hcase as [-> ->]. apply one_call in Hrs as [-> ->].
      rewrite app_nil_r in Hf.
      destruct Hf as [Hf | (resp & Hf & Hs)]; rewrite Hf in Ht;
        cbn [gplinks_after_get] in Ht.
      * now injection Ht.
      * apply Z.eqb_neq in Hs. rewrite Hs in Ht. discriminate.
    + destruct Hcase as [Hp ->]. apply two_calls in Hrs as [-> ->].
      apply (gives_unique _ _ (post_reads_fun _) (post_gives_table _)) in Hp.
      rewrite Hp. now apply extract_failed.
  - intros [H | H]; other_service.
Qed.

Lemma credential_present E service :
  (service = lit "bitly" -> BITLY_TOKEN (config E) <> []) ->
  (service = lit "cuttly" -> CUTTLY_API (config E) <> []) ->
  (service = lit "gplinks" -> GPLINKS_API (config E) <> []) ->
  ~ credential_missing E service.
Proof.
  intros Hb Hc Hg [[Hs Hk] | [[Hs Hk] | [Hs Hk]]];
    [apply (Hb Hs Hk) | apply (Hc Hs Hk) | apply (Hg Hs Hk)].
Qed.

(** [send_single_shortened_url], with the apology tied to the SDK. *)
Lemma send_single_unfold E url service w :
  send_single_shortened_url E url service w
  = try_except
      (v <- shorten_url E url service ;;
       tg E (EditMessageText (single_message E service v) (truthy v)))
      (tg E (EditMessageText MSG_SINGLE_ERROR false)) w.
Proof.
  unfold send_single_shortened_url, try_except, bind.
  destruct (shorten_url E url service w) as [[v | e] w1]; [| reflexivity].
  unfold single_message.
  destruct (truthy v); [| reflexivity].
  destruct (str_eqb service (lit "gplinks"));
    rewrite <- ?app_assoc, ?app_nil_r; reflexivity.
Qed.

Lemma send_single_run E url service w :
  let v := fst (adapter_result E url service w) in
  let w1 := snd (adapter_result E url service w) in
  edits_once_or_apologises E w1
    (EditMessageText (single_message E service v) (truthy v))
    (send_single_shortened_url E url service w).
Proof.
  cbv zeta. unfold edits_once_or_apologises.
  rewrite send_single_unfold. unfold try_except, bind.
  rewrite adapter_result_run.
  destruct (adapter_result E url service w) as [v w1]. cbn [fst snd].
  set (edit := EditMessageText _ _). unfold tg.
  destruct (tg_raises E (tg_calls w1) edit); [| reflexivity].
  cbn [tg_calls url_cache requests]. unfold add_tg_calls.
  destruct (tg_raises E (tg_calls w1 ++ [edit]) _); now rewrite <- app_assoc.
Qed.

Lemma send_single_gplinks_no_key E url w :
  GPLINKS_API (config E) = [] ->
  edits_once_or_apologises E w (EditMessageText MSG_GPLINKS_FAILED false)
    (send_single_shortened_url E url (lit "gplinks") w).
Proof.
  intros Hk. pose proof (send_single_run E url (lit "gplinks") w) as Hrun.
  cbv zeta in Hrun. unfold adapter_result in Hrun.
  rewrite (shorten_gplinks_no_key E url w Hk) in Hrun. exact Hrun.
Qed.

(** C8 as stated fails: a status other than 200 does not by itself yield
    absent, and neither does a body that cannot be read.  Here gplinks
    answers the GET with status 500 and the POST with a short link, and the
    adapter returns that link; tinyurl answers with an error page in HTML,
    and the adapter returns the page. *)
Lemma failed_get_then_link :
  is_valid_url (lit "https://example.com/page") = true
  /\ call_failed retry_env []
       (gplinks_get_request retry_env (lit "https://example.com/page"))
  /\ shorten_url retry_env (lit "https://example.com/page") (lit "gplinks")
       empty_world
     = (Ok (PyStr SHORT_LINK),
        add_requests empty_world
          [ gplinks_get_request retry_env (lit "https://example.com/page");
            gplinks_post_request retry_env (lit "https://example.com/page") ])
  /\ fst (shorten_url retry_env (lit "https://example.com/page") (lit "tinyurl")
            empty_world)
     = Ok (PyStr ERROR_PAGE).
Proof.
  split; [vm_compute; reflexivity |]. split; [| split; vm_compute; reflexivity].
  right. eexists. split; [vm_compute; reflexivity |]. cbn. discriminate.
Qed.

(** C8, amended: for a valid URL and each of the four adapters, no
    exception escapes [shorten_url], and a missing credential yields absent
    without any call.  With the credential configured the value and the
    calls are exactly what the answers give: bitly the field [link] of a
    200 answer that is a JSON object, tinyurl the trimmed body of any 200
    answer, cuttly [url.shortLink] of a 200 answer that is a JSON object
    with [url.status == 7], gplinks what its table of strategies gives; and
    absent whenever nothing can be read in this way.  So the value is
    absent when the last call the adapter made raised or was answered with
    a status other than 200, and for bitly and cuttly when the parser
    refused the body, whatever it raised.  A gplinks GET answered with a
    status other than 200 is followed by the POST, whose result is
    returned, and tinyurl returns any 200 body, an error page included.
    With no gplinks credential the dispatch to gplinks alone makes no
    provider call and edits the message to the failure text that names
    GPLinks; it returns normally when the SDK takes that edit, sends the
    apology when the SDK refuses it, and raises only if the SDK refuses
    the apology too. *)
Theorem shorten_url_fails_closed (E : Env) (url service : str) (w : World) :
  is_valid_url url = true ->
  In service service_keys ->
  (exists v rs,
     shorten_url E url service w = (Ok v, add_requests w rs)
     /\ (credential_missing E service -> v = PyNone /\ rs = [])
     /\ (~ credential_missing E service -> fails_closed E url service w v rs))
  /\ (GPLINKS_API (config E) = [] ->
      contains MSG_GPLINKS_FAILED (lit "GPLinks") = true
      /\ edits_once_or_apologises E w (EditMessageText MSG_GPLINKS_FAILED false)
           (send_single_shortened_url E url (lit "gplinks") w)).
Proof.
  intros Hv Hin. split.
  2:{ intros Hk. split; [vm_compute; reflexivity |].
      now apply send_single_gplinks_no_key. }
  assert (Hmissing : forall run,
    run = (Ok PyNone, w) -> credential_missing E service ->
    exists v rs,
      run = (Ok v, add_requests w rs)
      /\ (credential_missing E service -> v = PyNone /\ rs = [])
      /\ (~ credential_missing E service -> fails_closed E url service w v rs)).
  { intros run -> Hm. exists PyNone, []. rewrite add_requests_nil.
    split; [reflexivity |]. split; [auto |]. intros Hn. now destruct (Hn Hm). }
  destruct Hin as [<- | [<- | [<- | [<- | []]]]].
  - destruct (decide (BITLY_TOKEN (config E) = [])) as [Hk | Hk].
    { apply Hmissing; [now apply shorten_bitly_no_token | left; auto]. }
    rewrite shorten_bitly_run, Hv by assumption. eexists _, _.
    split; [reflexivity |]. split; [| intros _; apply bitly_closed].
    intros [[_ H] | [[H _] | [H _]]]; [contradiction | other_service ..].
  - rewrite shorten_tinyurl_run, Hv. eexists _, _.
    split; [reflexivity |]. split; [| intros _; apply tinyurl_closed].
    intros [[H _] | [[H _] | [H _]]]; other_service.
  - destruct (decide (CUTTLY_API (config E) = [])) as [Hk | Hk].
    { apply Hmissing; [now apply shorten_cuttly_no_key | right; left; auto]. }
    rewrite shorten_cuttly_run, Hv by assumption. eexists _, _.
    split; [reflexivity |]. split; [| intros _; apply cuttly_closed].
    intros [[H _] | [[_ H] | [H _]]]; [other_service | contradiction | other_service].
  - destruct (decide (GPLINKS_API (config E) = [])) as [Hk | Hk].
    { apply Hmissing; [now apply shorten_gplinks_no_key | right; right; auto]. }
    destruct (shorten_gplinks_gives E url w Hv Hk) as (v & rs & Hrun & Hg & Hdet).
    exists v, rs. split; [exact Hrun |]. split; [| intros _; now apply gplinks_closed].
    intros [[H _] | [[H _] | [_ H]]]; [other_service | other_service | contradiction].
Qed.

Example gplinks_without_credential :
  send_single_shortened_url no_credentials_env (lit "https://example.com/page")
    (lit "gplinks") empty_world
  = (Ok tt,
     add_tg_calls empty_world
       [ EditMessageText (MARK_FAIL ++ lit " Failed to shorten URL using GPLinks.")
           false ]).
Proof. vm_compute. reflexivity. Qed.

Example tinyurl_answers :
  fst (shorten_url two_of_four_env (lit "https://example.com/very/long/path")
         (lit "tinyurl") empty_world)
  = Ok (PyStr (lit "https://tinyurl.com/abc123")).
Proof. vm_compute. reflexivity. Qed.

(** A transport error of tinyurl: the value is absent after the one
    call. *)
Lemma shorten_url_fails_closed_witness :
  shorten_url offline_env (lit "https://example.com/page") (lit "tinyurl")
    empty_world
  = (Ok PyNone,
     add_requests empty_world [tinyurl_request (lit "https://example.com/page")]).
Proof.
  destruct (shorten_url_fails_closed offline_env (lit "https://example.com/page")
              (lit "tinyurl") empty_world)
    as ((v & rs & Hrun & _ & Hclosed) & _).
  - vm_compute. reflexivity.
  - right. left. reflexivity.
  - destruct Hclosed as (Hgives & _ & Hlast & _).
    { intros [[H _] | [[H _] | [H _]]]; vm_compute in H; discriminate. }
    destruct Hgives as [(H & _) | [(_ & -> & _) | [(H & _) | (H & _)]]];
      try (vm_compute in H; discriminate).
    rewrite Hrun. f_equal. f_equal.
    apply (Hlast [] (tinyurl_request (lit "https://example.com/page")) eq_refl).
    left. reflexivity.
Defined.

(* ================================================================== *)
(** * Further properties of the code *)
(* ================================================================== *)

(** ** Valid URLs hold no whitespace *)

(** Turns boolean tests on code points into comparisons. *)
Ltac to_Z H :=
  repeat first
    [ rewrite orb_true_iff in H | rewrite andb_true_iff in H
    | rewrite negb_true_iff in H | rewrite orb_false_iff in H
    | rewrite andb_false_iff in H
    | rewrite Z.eqb_eq in H | rewrite Z.eqb_neq in H
    | rewrite Z.leb_le in H | rewrite Z.leb_gt in H ].

Lemma isspace_values c :
  isspace c = true ->
  (9 <= c <= 13) \/ (28 <= c <= 32) \/ c = 0x85 \/ c = 0xA0 \/ c = 0x1680
  \/ (0x2000 <= c <= 0x200A) \/ c = 0x2028 \/ c = 0x2029 \/ c = 0x202F
  \/ c = 0x205F \/ c = 0x3000.
Proof. unfold isspace, in_range. intros H. to_Z H. lia. Qed.

Lemma letter_ic_nonspace c : letter_ic c = true -> isspace c = false.
Proof.
  intros H. destruct (isspace c) eqn:Hs; [| reflexivity].
  apply isspace_values in Hs.
  unfold letter_ic, is_upper_ascii, is_lower_ascii, in_range in H. to_Z H. lia.
Qed.

Lemma char_ic_nonspace x c :
  0x21 <= x <= 0x7E -> char_ic x c = true -> isspace c = false.
Proof.
  intros Hx H. destruct (isspace c) eqn:Hs; [| reflexivity].
  apply isspace_values in Hs.
  unfold char_ic, is_upper_ascii, is_lower_ascii, in_range in H. to_Z H. lia.
Qed.

Lemma isdecimal_nonspace c : isdecimal c = true -> isspace c = false.
Proof.
  intros H. destruct (isspace c) eqn:Hs; [| reflexivity].
  apply isspace_values in Hs.
  unfold isdecimal in H. apply existsb_exists in H as ([lo hi] & Hin & Hr).
  unfold in_range in Hr. cbn [fst snd] in Hr. to_Z Hr.
  unfold decimal_ranges in Hin.
  repeat (destruct Hin as [[= <- <-] | Hin]; [lia |]).
  destruct Hin.
Qed.

Lemma alnum_hyphen_nonspace c : UrlPattern.alnum_hyphen c = true -> isspace c = false.
Proof.
  unfold UrlPattern.alnum_hyphen, UrlPattern.alnum. intros H.
  apply orb_true_iff in H as [H | H]; [apply orb_true_iff in H as [H | H] |].
  - now apply letter_ic_nonspace.
  - destruct (isspace c) eqn:Hs; [| reflexivity]. apply isspace_values in Hs.
    unfold in_range in H. to_Z H. lia.
  - destruct (isspace c) eqn:Hs; [| reflexivity]. apply isspace_values in Hs.
    to_Z H. lia.
Qed.

Lemma alnum_nonspace c : UrlPattern.alnum c = true -> isspace c = false.
Proof.
  intros H. apply alnum_hyphen_nonspace. unfold UrlPattern.alnum_hyphen.
  now rewrite H.
Qed.

Lemma nonspace_of c : isspace c = false -> UrlPattern.nonspace c = true.
Proof. unfold UrlPattern.nonspace. now intros ->. Qed.

Lemma all_in_impl (p q : Z -> bool) s :
  (forall c, p c = true -> q c = true) -> all_in p s -> all_in q s.
Proof. intros Hpq Hs. eapply Forall_impl; [exact Hs | exact Hpq]. Qed.

Lemma all_in_concat p (ss : list str) :
  Forall (all_in p) ss -> all_in p (concat ss).
Proof.
  induction 1 as [| s ss Hs _ IH]; simpl; [constructor |].
  apply all_in_app. auto.
Qed.

Lemma eq_ic_nonspace x s :
  Forall (fun a => 0x21 <= a <= 0x7E) x -> eq_ic x s -> all_in UrlPattern.nonspace s.
Proof.
  intros Hx H. revert Hx. induction H as [| a c x s Hc _ IH]; intros Hx.
  - constructor.
  - inversion Hx; subst. constructor; [| now apply IH].
    apply nonspace_of. eapply char_ic_nonspace; eassumption.
Qed.

Lemma lit_dot_nonspace : all_in UrlPattern.nonspace (lit ".").
Proof. repeat constructor. Qed.

Lemma label_nonspace l : is_label l -> all_in UrlPattern.nonspace l.
Proof.
  intros [(a & -> & Ha) | (a & mid & b & -> & Ha & Hmid & _ & Hb)].
  - repeat constructor. now apply nonspace_of, alnum_nonspace.
  - constructor; [now apply nonspace_of, alnum_nonspace |].
    apply all_in_app. split.
    + eapply all_in_impl; [| exact Hmid].
      intros c Hc. now apply nonspace_of, alnum_hyphen_nonspace.
    + repeat constructor. now apply nonspace_of, alnum_nonspace.
Qed.

Lemma octet_nonspace o : is_octet o -> all_in UrlPattern.nonspace o.
Proof.
  intros [_ H]. eapply all_in_impl; [| exact H].
  intros c Hc. now apply nonspace_of, isdecimal_nonspace.
Qed.

Lemma host_nonspace h : is_host h -> all_in UrlPattern.nonspace h.
Proof.
  intros [Hd | [Hl | Hq]].
  - destruct Hd as (labels & tld & trailing & -> & _ & Hlabels & _ & Htld & Htr).
    apply all_in_app. split; [| apply all_in_app; split].
    + apply all_in_concat. apply Forall_map.
      eapply Forall_impl; [exact Hlabels |].
      intros l Hl. apply all_in_app. split; [now apply label_nonspace |].
      apply lit_dot_nonspace.
    + eapply all_in_impl; [| exact Htld].
      intros c Hc. now apply nonspace_of, letter_ic_nonspace.
    + destruct Htr as [-> | ->]; [constructor | apply lit_dot_nonspace].
  - eapply eq_ic_nonspace; [| exact Hl]. vm_compute. repeat constructor; discriminate.
  - destruct Hq as (a & b & c & d & -> & Ha & Hb & Hc & Hd).
    repeat (apply all_in_app; split);
      first [now apply octet_nonspace | apply lit_dot_nonspace].
Qed.

Lemma scheme_nonspace p : is_scheme p -> all_in UrlPattern.nonspace p.
Proof.
  intros [H | H]; (eapply eq_ic_nonspace; [| exact H]);
    vm_compute; repeat constructor; discriminate.
Qed.

Lemma port_nonspace p : is_port p -> all_in UrlPattern.nonspace p.
Proof.
  intros [-> | (ds & -> & _ & Hds)]; [constructor |].
  apply all_in_app. split; [repeat constructor |].
  eapply all_in_impl; [| exact Hds].
  intros c Hc. now apply nonspace_of, isdecimal_nonspace.
Qed.

Lemma tail_nonspace t : is_path_or_query t -> all_in UrlPattern.nonspace t.
Proof.
  intros [-> | [-> | (c & rest & -> & Hc & _ & Hrest)]];
    [constructor | repeat constructor |].
  constructor; [| assumption].
  unfold UrlPattern.slash_or_query in Hc. apply nonspace_of.
  destruct (isspace c) eqn:Hs; [| reflexivity]. apply isspace_values in Hs.
  to_Z Hc. lia.
Qed.

(** The parts of a valid URL: a body without whitespace, and possibly one
    newline after it. *)
Lemma valid_url_body (s : str) :
  is_valid_url s = true ->
  exists body newline,
    s = body ++ newline
    /\ all_in UrlPattern.nonspace body
    /\ (newline = [] \/ newline = NL).
Proof.
  intros (p & h & po & t & n & -> & Hp & Hh & Hpo & Ht & Hn)%is_valid_url_shape.
  exists (p ++ h ++ po ++ t), n. split; [now rewrite <- !app_assoc |].
  split; [| exact Hn].
  repeat (apply all_in_app; split);
    [now apply scheme_nonspace | now apply host_nonspace
    | now apply port_nonspace | now apply tail_nonspace].
Qed.

(** X1: a valid URL holds no whitespace, apart from one newline that may
    end it: a whitespace code point at any position of a string that
    [is_valid_url] accepts is a line feed in the last position. *)
Theorem valid_url_no_whitespace (s : str) (i : nat) (c : Z) :
  is_valid_url s = true ->
  s !! i = Some c ->
  isspace c = true ->
  c = 0x0A /\ S i = length s.
Proof.
  intros (body & n & -> & Hbody & Hn)%valid_url_body Hi Hc.
  apply lookup_app_Some in Hi as [Hi | [Hlen Hi]].
  - unfold all_in in Hbody. rewrite Forall_forall in Hbody.
    apply list_elem_of_lookup_2 in Hi. specialize (Hbody c Hi).
    unfold UrlPattern.nonspace in Hbody. rewrite Hc in Hbody. discriminate.
  - destruct Hn as [-> | ->]; [rewrite lookup_nil in Hi; discriminate |].
    destruct (i - length body)%nat as [| k] eqn:Hk; [| discriminate].
    cbn in Hi. injection Hi as <-. split; [reflexivity |].
    rewrite length_app. cbn [length NL]. lia.
Qed.

(** The newline that ends a message sent with a newline. *)
Lemma valid_url_no_whitespace_witness :
  0x0A = 0x0A
  /\ S 24 = length (lit "https://example.com/page" ++ NL).
Proof.
  apply (valid_url_no_whitespace (lit "https://example.com/page" ++ NL) 24 0x0A);
    vm_compute; reflexivity.
Defined.

(** A string with a blank in it is not a valid URL. *)
Lemma blank_not_valid (a b : str) : is_valid_url (a ++ lit " " ++ b) = false.
Proof.
  destruct (is_valid_url (a ++ lit " " ++ b)) eqn:Hv; [| reflexivity].
  apply valid_url_body in Hv as (body & n & Hs & Hbody & Hn).
  assert (Hin : In 0x20 (body ++ n)).
  { rewrite <- Hs. apply in_or_app. right. now left. }
  apply in_app_or in Hin as [Hin | Hin].
  - unfold all_in in Hbody. rewrite Forall_forall in Hbody.
    apply list_elem_of_In in Hin. specialize (Hbody _ Hin). discriminate.
  - destruct Hn as [-> | ->]; [destruct Hin |].
    destruct Hin as [Hin | []]. discriminate.
Qed.

(* ================================================================== *)
(** ** The cache *)
(* ================================================================== *)

Lemma utf8_char_scalar c :
  is_scalar_value c = true <-> exists b, utf8_char c = Some b.
Proof.
  unfold is_scalar_value, utf8_char, in_range.
  destruct (Z.leb_spec 0 c), (Z.ltb_spec c 0), (Z.ltb_spec c 0x80),
    (Z.ltb_spec c 0x800), (Z.leb_spec 0xD800 c), (Z.leb_spec c 0xDFFF),
    (Z.ltb_spec c 0x10000), (Z.ltb_spec c 0x110000);
    cbn [andb negb]; (split; [intros Hc | intros (b & Hc)]);
    try discriminate; try lia; eauto.
Qed.

Lemma encode_scalar url :
  forallb is_scalar_value url = true <-> exists bytes, encode url = Ok bytes.
Proof.
  induction url as [| c url IH]; cbn [forallb encode].
  - split; eauto.
  - rewrite andb_true_iff, IH, utf8_char_scalar. split.
    + intros [(b & ->) (bs & ->)]. eauto.
    + intros (bytes & H). destruct (utf8_char c); [| discriminate].
      destruct (encode url); [| discriminate]. eauto.
Qed.

Lemma encode_raises url e : encode url = Raise e -> e = UnicodeEncodeError.
Proof.
  destruct url as [| c url]; cbn [encode]; [discriminate |].
  destruct (utf8_char c); [destruct (encode url) |]; congruence.
Qed.

(** X2: [store_url] succeeds exactly on the strings that UTF-8 can encode:
    when every code point is in range and none is a surrogate it returns the
    id and adds the entry; otherwise it raises [UnicodeEncodeError] and
    leaves cache and logs as they were. *)
Theorem store_url_raises_iff (url : str) (w : World) :
  if forallb is_scalar_value url then
    exists url_id,
      generate_url_id url = Ok url_id
      /\ store_url url w =
         (Ok url_id,
          {| url_cache := <[url_id := url]> (url_cache w);
             requests := requests w; tg_calls := tg_calls w |})
  else store_url url w = (Raise UnicodeEncodeError, w).
Proof.
  destruct (forallb is_scalar_value url) eqn:Hs.
  - apply encode_scalar, generate_url_id_encodable in Hs as (url_id & Hid).
    exists url_id. split; [exact Hid | now apply store_url_ok].
  - destruct (generate_url_id url) as [url_id | e] eqn:Hid.
    + assert (Hex : exists i, generate_url_id url = Ok i) by eauto.
      apply generate_url_id_encodable, encode_scalar in Hex. congruence.
    + rewrite (store_url_raise _ _ _ Hid). f_equal. f_equal.
      unfold generate_url_id in Hid.
      destruct (encode url) eqn:He; [discriminate |].
      apply encode_raises in He. congruence.
Qed.

(** X3: [store_url] touches one entry only: looking up any other id gives
    what it gave before, and the logs of provider and SDK calls are as they
    were. *)
Theorem store_url_frame (url url_id other : str) (w w' : World) :
  store_url url w = (Ok url_id, w') ->
  other <> url_id ->
  get_url other w' = (fst (get_url other w), w')
  /\ requests w' = requests w /\ tg_calls w' = tg_calls w.
Proof.
  unfold store_url, bind, lift.
  destruct (generate_url_id url) as [i | e]; [| discriminate].
  intros [= <- <-] Hne. unfold get_url. cbn [url_cache requests tg_calls fst].
  rewrite lookup_insert_ne by congruence. auto.
Qed.

Lemma store_url_frame_witness :
  get_url (lit "0a137b37")
    (snd (store_url (lit "https://example.com/") empty_world))
  = (Ok [], snd (store_url (lit "https://example.com/") empty_world)).
Proof.
  refine (proj1 (store_url_frame (lit "https://example.com/")
                   (lit "182ccedb") (lit "0a137b37") empty_world _ _ _)).
  - vm_compute. reflexivity.
  - vm_compute. discriminate.
Defined.

(** X4: storing is idempotent: storing the same URL a second time returns
    the same id and leaves the world as the first time left it. *)
Theorem store_url_idempotent (url : str) (w : World) :
  store_url url (snd (store_url url w)) = store_url url w.
Proof.
  unfold store_url, bind, lift.
  destruct (generate_url_id url) as [i | e] eqn:Hid; cbn [snd]; rewrite ?Hid;
    [| reflexivity].
  cbn [url_cache requests tg_calls]. now rewrite insert_insert_eq.
Qed.

(* ================================================================== *)
(** ** The message handlers *)
(* ================================================================== *)

Ltac hred :=
  cbv beta iota zeta delta
    [h_ret h_bind h_try_except in_world message reply_text reply_markdown
     add_message_calls plain TYPING choose_message];
  cbn [world message_calls head_calls fst snd].

Lemma is_valid_url_nonempty : is_valid_url [] = false.
Proof. vm_compute. reflexivity. Qed.

(** What [process_url] does, case by case. *)
Lemma process_url_run CE url c :
  process_url CE url c =
  let apology c1 := reply_text CE MSG_PROCESS_ERROR c1 in
  if is_valid_url url then
    if message_raises CE (message_calls c) TYPING
    then apology (add_message_calls c [TYPING])
    else
      match generate_url_id url with
      | Raise _ => apology (add_message_calls c [TYPING])
      | Ok url_id =>
          let c1 := {| world := snd (store_url url (world c));
                       message_calls := message_calls c ++ [TYPING];
                       head_calls := head_calls c |} in
          if message_raises CE (message_calls c1) (choose_message url url_id)
          then apology (add_message_calls c1 [choose_message url url_id])
          else (Ok tt, add_message_calls c1 [choose_message url url_id])
      end
  else
    if message_raises CE (message_calls c) (plain MSG_INVALID_URL)
    then apology (add_message_calls c [plain MSG_INVALID_URL])
    else (Ok tt, add_message_calls c [plain MSG_INVALID_URL]).
Proof.
  unfold process_url.
  destruct (is_valid_url url); cbn [negb]; hred.
  - destruct (message_raises CE (message_calls c) _); [reflexivity |].
    unfold store_url, bind, lift.
    destruct (generate_url_id url) as [url_id | e]; [| reflexivity].
    cbn [snd world message_calls].
    destruct (message_raises CE _ _); reflexivity.
  - destruct (message_raises CE (message_calls c) _); reflexivity.
Qed.

Lemma reply_text_run CE text c :
  reply_text CE text c =
  (if message_raises CE (message_calls c) (plain text) then Raise TelegramError
   else Ok tt, add_message_calls c [plain text]).
Proof.
  unfold reply_text, message, plain, add_message_calls.
  destruct (message_raises CE _ _); reflexivity.
Qed.

(** The cache after [process_url]. *)
Lemma process_url_world CE url c :
  world (snd (process_url CE url c)) =
  if is_valid_url url && negb (message_raises CE (message_calls c) TYPING)
  then snd (store_url url (world c)) else world c.
Proof.
  rewrite process_url_run. cbv zeta.
  destruct (is_valid_url url); cbn [andb].
  - destruct (message_raises CE (message_calls c) TYPING); cbn [negb];
      [now rewrite reply_text_run |].
    destruct (generate_url_id url) as [url_id | e] eqn:Hid.
    + destruct (message_raises CE _ _); [rewrite reply_text_run |]; reflexivity.
    + rewrite reply_text_run, (store_url_raise _ _ _ Hid). reflexivity.
  - destruct (message_raises CE _ _); [rewrite reply_text_run |]; reflexivity.
Qed.

Lemma process_url_head_calls CE url c :
  head_calls (snd (process_url CE url c)) = head_calls c.
Proof.
  rewrite process_url_run. cbv zeta.
  destruct (is_valid_url url).
  - destruct (message_raises CE (message_calls c) TYPING);
      [now rewrite reply_text_run |].
    destruct (generate_url_id url) as [url_id | e];
      [| now rewrite reply_text_run].
    rewrite reply_text_run. cbn [message_calls].
    destruct (message_raises CE (message_calls c ++ [TYPING]) _); reflexivity.
  - rewrite reply_text_run.
    destruct (message_raises CE (message_calls c) _); reflexivity.
Qed.

Lemma process_url_invalid_run CE url c :
  is_valid_url url = false ->
  exists rest,
    snd (process_url CE url c)
    = add_message_calls c (plain MSG_INVALID_URL :: rest)
    /\ (rest = [] \/ rest = [plain MSG_PROCESS_ERROR]).
Proof.
  intros Hv. rewrite process_url_run, Hv. cbv zeta.
  destruct (message_raises CE _ _).
  - exists [plain MSG_PROCESS_ERROR]. rewrite reply_text_run.
    unfold add_message_calls. cbn [snd world message_calls head_calls].
    rewrite <- app_assoc. auto.
  - exists []. auto.
Qed.

(** X5: [process_url] on a string that is no valid URL answers with the
    rejection as its first call, shows no keyboard and no typing indicator,
    stores nothing and asks no provider; the only other call it can make
    is its apology, which it makes exactly when the SDK refused the
    rejection. *)
Theorem process_url_rejects_invalid (CE : ChatEnv) (url : str) (c : Chat) :
  is_valid_url url = false ->
  let c' := snd (process_url CE url c) in
  world c' = world c
  /\ head_calls c' = head_calls c
  /\ message_calls c'
     = message_calls c ++
       plain MSG_INVALID_URL ::
       (if message_raises CE (message_calls c) (plain MSG_INVALID_URL)
        then [plain MSG_PROCESS_ERROR] else []).
Proof.
  intros Hv. cbv zeta. rewrite process_url_run, Hv. cbv zeta.
  destruct (message_raises CE (message_calls c) (plain MSG_INVALID_URL)).
  - rewrite reply_text_run. unfold add_message_calls.
    cbn [snd world message_calls head_calls]. rewrite <- app_assoc. auto.
  - unfold add_message_calls. cbn [snd world message_calls head_calls]. auto.
Qed.

Lemma process_url_rejects_invalid_witness :
  let c' := snd (process_url (quiet offline_env) (lit "ftp://example.com") empty_chat) in
  world c' = world empty_chat
  /\ head_calls c' = head_calls empty_chat
  /\ message_calls c' = message_calls empty_chat ++ [plain MSG_INVALID_URL].
Proof.
  apply (process_url_rejects_invalid (quiet offline_env) (lit "ftp://example.com")
           empty_chat).
  vm_compute. reflexivity.
Defined.

Lemma payload_parses code service url_id :
  In (code, service) service_map ->
  startswith (lit "s_" ++ code ++ lit "_" ++ url_id) (lit "s_") = true
  /\ split 0x5F 2 (lit "s_" ++ code ++ lit "_" ++ url_id) = [lit "s"; code; url_id]
  /\ default code (assoc code service_map) = service
  /\ (length code <= 5)%nat.
Proof.
  intros Hin. unfold service_map in Hin.
  repeat (destruct Hin as [[= <- <-] | Hin];
          [repeat split; vm_compute; solve [reflexivity | lia] |]).
  destruct Hin.
Qed.

Lemma button_handler_dispatches E code service url_id url w :
  In (code, service) service_map ->
  url_cache w !! url_id = Some url -> url <> [] ->
  button_handler E (lit "s_" ++ code ++ lit "_" ++ url_id) w
  = try_except
      (tg E Answer >> tg E (ReplyChatAction (lit "typing")) >> dispatch E url service)
      (apologise E) w.
Proof.
  intros Hin Hlook Hne.
  destruct (payload_parses code service url_id Hin) as (Hs & Hsplit & Hsvc & _).
  unfold button_handler. rewrite Hs, Hsplit, Hsvc.
  unfold apologise, dispatch.
  set (h := try_except (tg E (EditMessageText MSG_ERROR false)) _).
  set (d := if str_eqb service _ then _ else _).
  set (t := tg E (ReplyChatAction _)).
  unfold try_except, bind, tg, get_url.
  destruct (tg_raises E (tg_calls w) Answer); [reflexivity |].
  cbn [url_cache]. rewrite Hlook. cbn [default from_option id].
  apply nonempty_true in Hne. rewrite Hne. reflexivity.
Qed.

(** X6: the keyboard of [process_url] and [button_handler] fit together.
    For a valid URL that UTF-8 can encode, once the SDK took the typing
    indicator, [process_url] stores the URL and sends one message with five
    buttons, one for each entry of [service_map], whose payloads are
    [s_<code>_<id>] and hold at most 16 characters; and in any world with
    that cache, [button_handler] on such a payload answers the press, shows
    the typing indicator and runs the dispatch of the named service on the
    URL that was stored. *)
Theorem keyboard_round_trip (CE : ChatEnv) (url : str) (c : Chat) :
  is_valid_url url = true ->
  forallb is_scalar_value url = true ->
  message_raises CE (message_calls c) TYPING = false ->
  exists url_id rest,
    generate_url_id url = Ok url_id
    /\ snd (process_url CE url c)
       = {| world := snd (store_url url (world c));
            message_calls :=
              message_calls c ++ TYPING :: choose_message url url_id :: rest;
            head_calls := head_calls c |}
    /\ (rest = [] \/ rest = [plain MSG_PROCESS_ERROR])
    /\ map callback_data (concat (keyboard url_id))
       = map (fun cs => lit "s_" ++ fst cs ++ lit "_" ++ url_id) service_map
    /\ forall code service,
         In (code, service) service_map ->
         (length (lit "s_" ++ code ++ lit "_" ++ url_id) <= 16)%nat
         /\ forall E w,
              url_cache w = url_cache (world (snd (process_url CE url c))) ->
              button_handler E (lit "s_" ++ code ++ lit "_" ++ url_id) w
              = try_except
                  (tg E Answer >> tg E (ReplyChatAction (lit "typing"))
                     >> dispatch E url service)
                  (apologise E) w.
Proof.
  intros Hv Henc Htyping.
  apply encode_scalar, generate_url_id_encodable in Henc as (url_id & Hid).
  assert (Hworld : world (snd (process_url CE url c)) = snd (store_url url (world c))).
  { rewrite process_url_world, Hv, Htyping. reflexivity. }
  assert (Hcalls : exists rest,
             message_calls (snd (process_url CE url c))
             = message_calls c ++ TYPING :: choose_message url url_id :: rest
             /\ (rest = [] \/ rest = [plain MSG_PROCESS_ERROR])).
  { rewrite process_url_run, Hv, Htyping, Hid. cbv zeta.
    rewrite reply_text_run. unfold add_message_calls.
    cbn [world message_calls].
    destruct (message_raises CE (message_calls c ++ [TYPING]) _);
      cbn [snd message_calls]; rewrite <- !app_assoc.
    - exists [plain MSG_PROCESS_ERROR]. auto.
    - exists []. auto. }
  destruct Hcalls as (rest & Hcalls & Hrest).
  exists url_id, rest. split; [exact Hid |]. split.
  { pose proof (process_url_head_calls CE url c) as Hheads.
    destruct (snd (process_url CE url c)) as [w1 ms1 hs1].
    cbn [world message_calls head_calls] in *. congruence. }
  split; [exact Hrest |]. split; [reflexivity |].
  intros code service Hin. split.
  - destruct (payload_parses code service url_id Hin) as (_ & _ & _ & Hlen).
    destruct (generate_url_id_shape _ _ Hid) as [Hlen8 _].
    rewrite !length_app, Hlen8. cbn [length lit]. simpl length. lia.
  - intros E w Hcache. apply button_handler_dispatches; [exact Hin | |].
    + rewrite Hcache, Hworld, (store_url_ok _ _ _ Hid). cbn [snd url_cache].
      apply lookup_insert_eq.
    + intros ->. rewrite is_valid_url_nonempty in Hv. discriminate.
Qed.

Lemma keyboard_round_trip_witness :
  exists url_id rest,
    generate_url_id (lit "https://example.com/") = Ok url_id
    /\ snd (process_url (quiet offline_env) (lit "https://example.com/") empty_chat)
       = {| world := snd (store_url (lit "https://example.com/") (world empty_chat));
            message_calls :=
              message_calls empty_chat
                ++ TYPING :: choose_message (lit "https://example.com/") url_id :: rest;
            head_calls := head_calls empty_chat |}
    /\ (rest = [] \/ rest = [plain MSG_PROCESS_ERROR])
    /\ map callback_data (concat (keyboard url_id))
       = map (fun cs => lit "s_" ++ fst cs ++ lit "_" ++ url_id) service_map
    /\ forall code service,
         In (code, service) service_map ->
         (length (lit "s_" ++ code ++ lit "_" ++ url_id) <= 16)%nat
         /\ forall E w,
              url_cache w
              = url_cache (world (snd (process_url (quiet offline_env)
                                         (lit "https://example.com/") empty_chat))) ->
              button_handler E (lit "s_" ++ code ++ lit "_" ++ url_id) w
              = try_except
                  (tg E Answer >> tg E (ReplyChatAction (lit "typing"))
                     >> dispatch E (lit "https://example.com/") service)
                  (apologise E) w.
Proof.
  apply (keyboard_round_trip (quiet offline_env) (lit "https://example.com/")
           empty_chat); vm_compute; reflexivity.
Defined.

(** X7: a valid URL that UTF-8 cannot encode (it holds a lone surrogate)
    gets the typing indicator and then the apology of [process_url]:
    [store_url] raised, so nothing is stored and no keyboard is shown. *)
Theorem process_url_unencodable (CE : ChatEnv) (url : str) (c : Chat) :
  is_valid_url url = true ->
  forallb is_scalar_value url = false ->
  message_raises CE (message_calls c) TYPING = false ->
  snd (process_url CE url c)
  = add_message_calls c [TYPING; plain MSG_PROCESS_ERROR].
Proof.
  intros Hv Henc Htyping. rewrite process_url_run, Hv, Htyping. cbv zeta.
  destruct (generate_url_id url) as [url_id | e] eqn:Hid.
  - assert (Hex : exists i, generate_url_id url = Ok i) by eauto.
    apply generate_url_id_encodable, encode_scalar in Hex. congruence.
  - rewrite reply_text_run. unfold add_message_calls.
    cbn [snd world message_calls]. now rewrite <- app_assoc.
Qed.

Lemma process_url_unencodable_witness :
  snd (process_url (quiet offline_env) URL_SURROGATE empty_chat)
  = add_message_calls empty_chat [TYPING; plain MSG_PROCESS_ERROR].
Proof.
  apply (process_url_unencodable (quiet offline_env) URL_SURROGATE empty_chat);
    vm_compute; reflexivity.
Defined.

Lemma handle_message_run CE text c :
  handle_message CE text c =
  let url := strip text in
  if startswith url (lit "http://") || startswith url (lit "https://") then
    h_try_except (process_url CE url) (reply_text CE MSG_ERROR) c
  else h_try_except (reply_text CE MSG_NO_SCHEME) (reply_text CE MSG_ERROR) c.
Proof.
  unfold handle_message. cbv zeta.
  destruct (startswith (strip text) (lit "http://")
            || startswith (strip text) (lit "https://")); reflexivity.
Qed.

Lemma h_try_reply_run CE text apology c :
  snd (h_try_except (reply_text CE text) (reply_text CE apology) c)
  = add_message_calls c
      (plain text ::
       if message_raises CE (message_calls c) (plain text) then [plain apology]
       else []).
Proof.
  unfold h_try_except. rewrite reply_text_run.
  destruct (message_raises CE _ _); [| reflexivity].
  rewrite reply_text_run. unfold add_message_calls.
  cbn [snd world message_calls]. now rewrite <- app_assoc.
Qed.

(** X8: [handle_message] looks for the scheme in lower case only, after
    stripping the text: a text whose stripped form starts with neither
    [http://] nor [https://] gets the hint and is not handed to
    [process_url], so nothing is stored, also when [is_valid_url] would
    accept it (as it accepts [HTTP://EXAMPLE.COM]). *)
Theorem handle_message_requires_scheme (CE : ChatEnv) (text : str) (c : Chat) :
  startswith (strip text) (lit "http://") = false ->
  startswith (strip text) (lit "https://") = false ->
  snd (handle_message CE text c)
  = add_message_calls c
      (plain MSG_NO_SCHEME ::
       if message_raises CE (message_calls c) (plain MSG_NO_SCHEME)
       then [plain MSG_ERROR] else []).
Proof.
  intros H1 H2. rewrite handle_message_run. cbv zeta. rewrite H1, H2. cbn [orb].
  apply h_try_reply_run.
Qed.

Lemma handle_message_requires_scheme_witness :
  is_valid_url (lit "HTTP://EXAMPLE.COM") = true
  /\ snd (handle_message (quiet offline_env) (lit " HTTP://EXAMPLE.COM ") empty_chat)
     = add_message_calls empty_chat
         (plain MSG_NO_SCHEME ::
          if message_raises (quiet offline_env) (message_calls empty_chat)
               (plain MSG_NO_SCHEME)
          then [plain MSG_ERROR] else []).
Proof.
  split; [vm_compute; reflexivity |].
  apply (handle_message_requires_scheme (quiet offline_env)
           (lit " HTTP://EXAMPLE.COM ") empty_chat); vm_compute; reflexivity.
Defined.

Lemma join_two sep a b rest :
  join sep (a :: b :: rest) = a ++ sep ++ join sep (b :: rest).
Proof. reflexivity. Qed.

Ltac apologies :=
  repeat (constructor; [first [left; reflexivity | right; reflexivity] |]);
  constructor.

(** X9: [/shorten] takes exactly one argument.  Without arguments it
    answers with the usage line; with two or more it joins them with
    blanks, and the result, holding a blank, is never a valid URL, so it
    answers with the rejection.  In both cases nothing is stored. *)
Theorem shorten_needs_one_argument (CE : ChatEnv) (args : list str) (c : Chat) :
  length args <> 1%nat ->
  exists first rest,
    snd (shorten CE args c) = add_message_calls c (first :: rest)
    /\ first = match args with
               | [] => MessageReplyText MSG_USAGE true [] false
               | _ => plain MSG_INVALID_URL
               end
    /\ Forall (fun m => m = plain MSG_PROCESS_ERROR \/ m = plain MSG_ERROR) rest.
Proof.
  intros Hlen. destruct args as [| a [| b args]]; [| cbn in Hlen; lia |].
  - unfold shorten, h_try_except, reply_markdown, message.
    destruct (message_raises CE _ _).
    + eexists _, [plain MSG_ERROR]. rewrite reply_text_run.
      unfold add_message_calls. cbn [snd world message_calls].
      rewrite <- app_assoc. split; [reflexivity |]. split; [reflexivity |].
      apologies.
    + eexists _, []. split; [reflexivity |]. split; [reflexivity |]. apologies.
  - unfold shorten. cbv zeta. rewrite join_two.
    pose proof (blank_not_valid a (join (lit " ") (b :: args))) as Hv.
    set (url := a ++ lit " " ++ join (lit " ") (b :: args)) in *.
    destruct (process_url_invalid_run CE url c Hv) as (rest & Hrun & Hrest).
    unfold h_try_except.
    destruct (process_url CE url c) as [[[] | e] c1]; cbn [snd] in Hrun; subst c1.
    + exists (plain MSG_INVALID_URL), rest.
      split; [reflexivity |]. split; [reflexivity |].
      destruct Hrest as [-> | ->]; apologies.
    + exists (plain MSG_INVALID_URL), (rest ++ [plain MSG_ERROR]).
      rewrite reply_text_run. unfold add_message_calls.
      cbn [snd world message_calls]. rewrite <- app_assoc.
      split; [reflexivity |]. split; [reflexivity |].
      destruct Hrest as [-> | ->]; cbn [app]; apologies.
Qed.

Lemma shorten_needs_one_argument_witness :
  exists first rest,
    snd (shorten (quiet offline_env) [lit "https://example.com"; lit "please"] empty_chat)
    = add_message_calls empty_chat (first :: rest)
    /\ first = plain MSG_INVALID_URL
    /\ Forall (fun m => m = plain MSG_PROCESS_ERROR \/ m = plain MSG_ERROR) rest.
Proof.
  apply (shorten_needs_one_argument (quiet offline_env)
           [lit "https://example.com"; lit "please"] empty_chat).
  vm_compute. discriminate.
Defined.

(* ================================================================== *)
(** ** The handlers together *)
(* ================================================================== *)

Lemma h_try_reply_raises CE (m : H unit) text c e :
  fst (h_try_except m (reply_text CE text) c) = Raise e ->
  exists h,
    message_calls (snd (h_try_except m (reply_text CE text) c)) = h ++ [plain text]
    /\ message_raises CE h (plain text) = true.
Proof.
  unfold h_try_except. destruct (m c) as [[[] | e1] c1]; [discriminate |].
  rewrite reply_text_run. cbn [fst snd add_message_calls message_calls].
  destruct (message_raises CE (message_calls c1) (plain text)) eqn:Hr;
    [| discriminate].
  intros _. exists (message_calls c1). auto.
Qed.

Lemma kw_ret {A} (a : A) : keeps_world (h_ret a).
Proof. intros c. reflexivity. Qed.

Lemma kw_raise {A} e : keeps_world (h_raise (A := A) e).
Proof. intros c. reflexivity. Qed.

Lemma kw_message CE call : keeps_world (message CE call).
Proof. intros c. unfold message. now destruct (message_raises CE _ _). Qed.

Lemma kw_head CE url : keeps_world (is_image_accessible CE url).
Proof. intros c. reflexivity. Qed.

Lemma kw_bind {A B} (m : H A) (k : A -> H B) :
  keeps_world m -> (forall a, keeps_world (k a)) -> keeps_world (h_bind m k).
Proof.
  intros Hm Hk c. unfold h_bind. specialize (Hm c).
  destruct (m c) as [[a | e] c1]; cbn [snd] in *; [| exact Hm].
  now rewrite Hk.
Qed.

Lemma kw_try_except {A} (m h : H A) :
  keeps_world m -> keeps_world h -> keeps_world (h_try_except m h).
Proof.
  intros Hm Hh c. unfold h_try_except. specialize (Hm c).
  destruct (m c) as [[a | e] c1]; cbn [snd] in *; [exact Hm |].
  now rewrite Hh.
Qed.

Ltac kw :=
  repeat first
    [ apply kw_ret | apply kw_raise | apply kw_message | apply kw_head
    | apply kw_try_except
    | apply kw_bind; [| intros ?]
    | match goal with |- keeps_world (if ?b then _ else _) => destruct b end
    | match goal with |- keeps_world (match ?o with _ => _ end) => destruct o end ].

Lemma start_world CE bc user : keeps_world (start CE bc user).
Proof. unfold start, reply_text. kw. Qed.

Lemma help_world CE : keeps_world (help CE).
Proof. unfold help, reply_markdown, reply_text. kw. Qed.

(** X10: no handler lets an exception of its body through.  Each of the
    six handlers raises only if the call it makes as a last resort was
    itself refused by the SDK: the plain apology on the message for
    [/start], [/help], [/shorten], [/status] and texts, and
    [query.message.reply_text] for a button press; that call is then the
    last one in the log. *)
Theorem handlers_absorb_errors
    (CE : ChatEnv) (bc : BotConfig) (u : update) (c : Chat) (e : exn) :
  fst (handle CE bc u c) = Raise e ->
  let c' := snd (handle CE bc u c) in
  match last_resort u with
  | inl call =>
      exists h, message_calls c' = h ++ [call] /\ message_raises CE h call = true
  | inr call =>
      exists h, tg_calls (world c') = h ++ [call]
                /\ tg_raises (env CE) h call = true
  end.
Proof.
  destruct u as [user | | text | args | | data]; cbn [handle last_resort]; cbv zeta.
  - unfold start. apply h_try_reply_raises.
  - unfold help. apply h_try_reply_raises.
  - unfold handle_message. apply h_try_reply_raises.
  - unfold shorten. apply h_try_reply_raises.
  - unfold status_command. apply h_try_reply_raises.
  - unfold in_world, button_handler, try_except.
    set (body := tg (env CE) Answer >> _).
    destruct (body (world c)) as [[[] | e1] w1]; [discriminate |].
    unfold tg.
    destruct (tg_raises (env CE) (tg_calls w1) _); [| discriminate].
    cbn [tg_calls].
    destruct (tg_raises (env CE) (tg_calls w1 ++ _) _) eqn:Hr; [| discriminate].
    intros _. cbn [fst snd world tg_calls]. eauto.
Qed.

Lemma handlers_absorb_errors_witness :
  exists h,
    message_calls (snd (handle (deaf offline_env) example_webhook StatusCommand
                          empty_chat))
    = h ++ [plain MSG_STATUS_ERROR]
    /\ message_raises (deaf offline_env) h (plain MSG_STATUS_ERROR) = true.
Proof.
  apply (handlers_absorb_errors (deaf offline_env) example_webhook StatusCommand
           empty_chat TelegramError).
  vm_compute. reflexivity.
Defined.

Lemma h_try_reply_world CE (m : H unit) text c :
  world (snd (h_try_except m (reply_text CE text) c)) = world (snd (m c)).
Proof.
  unfold h_try_except. destruct (m c) as [[[] | e1] c1]; [reflexivity |].
  now rewrite reply_text_run.
Qed.

Lemma store_url_cache url w :
  ((exists url_id,
      generate_url_id url = Ok url_id
      /\ url_cache (snd (store_url url w)) = <[url_id := url]> (url_cache w))
   \/ snd (store_url url w) = w)
  /\ requests (snd (store_url url w)) = requests w
  /\ tg_calls (snd (store_url url w)) = tg_calls w.
Proof.
  destruct (generate_url_id url) as [url_id | e] eqn:Hid.
  - rewrite (store_url_ok _ _ _ Hid). cbn [snd url_cache requests tg_calls].
    repeat split. left. eauto.
  - rewrite (store_url_raise _ _ _ Hid). cbn [snd]. auto.
Qed.

(** The cache after one update. *)
Lemma handle_cache
    (CE : ChatEnv) (bc : BotConfig) (u : update) (c : Chat) :
  let c' := snd (handle CE bc u c) in
  url_cache (world c') = url_cache (world c)
  \/ exists url url_id,
       offered_url u = Some url
       /\ is_valid_url url = true
       /\ generate_url_id url = Ok url_id
       /\ url_cache (world c') = <[url_id := url]> (url_cache (world c)).
Proof.
  assert (Hprocess : forall url,
    url_cache (world (snd (process_url CE url c))) = url_cache (world c)
    \/ exists url_id,
         is_valid_url url = true /\ generate_url_id url = Ok url_id
         /\ url_cache (world (snd (process_url CE url c)))
            = <[url_id := url]> (url_cache (world c))).
  { intros url. rewrite process_url_world.
    destruct (is_valid_url url) eqn:Hv; [| now left].
    destruct (message_raises CE _ _); cbn [andb negb]; [now left |].
    destruct (store_url_cache url (world c)) as [[(i & Hid & Hc) | Hc] _];
      [right; eauto | left; now rewrite Hc]. }
  destruct u as [user | | text | [| arg args] | | data];
    cbn [handle offered_url]; cbv zeta.
  - left. now rewrite start_world.
  - left. now rewrite help_world.
  - rewrite handle_message_run. cbv zeta.
    destruct (startswith _ _ || startswith _ _).
    + rewrite h_try_reply_world.
      destruct (Hprocess (strip text)) as [Hc | (i & Hv & Hid & Hc)];
        [now left | right; eauto 6].
    + rewrite h_try_reply_world, reply_text_run. now left.
  - unfold shorten. rewrite h_try_reply_world. left.
    unfold reply_markdown, message. now destruct (message_raises CE _ _).
  - unfold shorten. rewrite h_try_reply_world.
    destruct (Hprocess (join (lit " ") (arg :: args))) as [Hc | (i & Hv & Hid & Hc)];
      [now left | right; eauto 6].
  - unfold status_command. rewrite h_try_reply_world. left.
    unfold reply_markdown, message. now destruct (message_raises CE _ _).
  - left. unfold in_world.
    pose proof (logs_button_handler (env CE) data (world c)) as [Hc _].
    destruct (button_handler (env CE) data (world c)) as [o w1]. exact Hc.
Qed.

(** X11: what one update can do to the cache.  Looking up any id after
    the update gives what it gave before, or the URL the update offered,
    which is then a valid URL whose short id is that id.  Only a text and
    [/shorten] offer a URL: [/start], [/help], [/status] and button presses
    leave every lookup as it was; and no handler ever removes an entry. *)
Theorem update_cache_effect
    (CE : ChatEnv) (bc : BotConfig) (u : update) (c : Chat) (url_id : str) :
  let before := url_cache (world c) !! url_id in
  let after := url_cache (world (snd (handle CE bc u c))) !! url_id in
  (after = before
   \/ exists url,
        offered_url u = Some url /\ is_valid_url url = true
        /\ generate_url_id url = Ok url_id /\ after = Some url)
  /\ (is_Some before -> is_Some after)
  /\ (offered_url u = None -> after = before).
Proof.
  cbv zeta.
  destruct (handle_cache CE bc u c) as [-> | (url & i & Hoff & Hv & Hid & ->)].
  - repeat split; auto.
  - destruct (decide (i = url_id)) as [-> | Hne].
    + rewrite lookup_insert_eq. repeat split; [right; eauto | eauto | congruence].
    + rewrite lookup_insert_ne by exact Hne. repeat split; auto.
Qed.

(** X12: in every chat the bot can reach through its handlers, each URL in
    the cache is a valid URL stored under its own short id, and is not
    empty; so [get_url] returns the empty string, which [button_handler]
    reports as "URL not found", exactly for the ids that are not in the
    cache. *)
Theorem cached_urls_valid (c : Chat) (url_id : str) :
  handled c ->
  match url_cache (world c) !! url_id with
  | Some url =>
      is_valid_url url = true
      /\ generate_url_id url = Ok url_id
      /\ url <> []
      /\ get_url url_id (world c) = (Ok url, world c)
  | None => get_url url_id (world c) = (Ok [], world c)
  end.
Proof.
  intros Hc.
  assert (Hinv : map_Forall
            (fun k v => is_valid_url v = true /\ generate_url_id v = Ok k)
            (url_cache (world c))).
  { induction Hc as [rs cs ms | CE bc u c Hc IH].
    - cbn [world url_cache]. apply map_Forall_empty.
    - destruct (handle_cache CE bc u c) as [-> | (url & i & _ & Hv & Hid & ->)];
        [exact IH |].
      apply map_Forall_insert_2; auto. }
  unfold get_url.
  destruct (url_cache (world c) !! url_id) as [url |] eqn:Hlook; [| reflexivity].
  destruct (Hinv _ _ Hlook) as [Hv Hid]. repeat split; try assumption.
  intros ->. rewrite is_valid_url_nonempty in Hv. discriminate.
Qed.

Lemma cached_urls_valid_witness :
  is_valid_url (lit "https://example.com/") = true
  /\ generate_url_id (lit "https://example.com/") = Ok (lit "182ccedb")
  /\ lit "https://example.com/" <> []
  /\ get_url (lit "182ccedb")
       (world (snd (handle (quiet offline_env) example_webhook
                      (TextMessage (lit " https://example.com/ ")) empty_chat)))
     = (Ok (lit "https://example.com/"),
        world (snd (handle (quiet offline_env) example_webhook
                      (TextMessage (lit " https://example.com/ ")) empty_chat))).
Proof.
  apply (cached_urls_valid
           (snd (handle (quiet offline_env) example_webhook
                   (TextMessage (lit " https://example.com/ ")) empty_chat))
           (lit "182ccedb")).
  apply handled_update. apply (handled_start [] [] [] []).
Defined.

(* ================================================================== *)
(** ** The adapters *)
(* ================================================================== *)

Lemma possible_requests_unknown E url service :
  ~ In service service_keys -> possible_requests E url service = [ [] ].
Proof.
  intros Hs. unfold possible_requests.
  assert (Hne : forall k, In k service_keys -> str_eqb service k = false).
  { intros k Hk. destruct (str_eqb service k) eqn:He; [| reflexivity].
    apply str_eqb_eq in He as ->. contradiction. }
  rewrite !Hne by (simpl; auto). reflexivity.
Qed.

Lemma service_known_or_not (service : str) :
  service = lit "bitly" \/ service = lit "tinyurl" \/ service = lit "cuttly"
  \/ service = lit "gplinks" \/ ~ In service service_keys.
Proof.
  destruct (decide (service = lit "bitly")); [auto |].
  destruct (decide (service = lit "tinyurl")); [auto |].
  destruct (decide (service = lit "cuttly")); [auto |].
  destruct (decide (service = lit "gplinks")); [auto |].
  do 4 right. intros [H | [H | [H | [H | []]]]]; congruence.
Qed.

(** The calls of one adapter run. *)
Lemma shorten_url_requests E url service w :
  exists v rs,
    shorten_url E url service w = (Ok v, add_requests w rs)
    /\ In rs (possible_requests E url service).
Proof.
  destruct (service_known_or_not service) as [-> | [-> | [-> | [-> | Hs]]]].
  - change (possible_requests E url (lit "bitly"))
      with [ []; [bitly_request E url] ].
    destruct (decide (BITLY_TOKEN (config E) = [])) as [Hk | Hk].
    + rewrite shorten_bitly_no_token by assumption.
      exists PyNone, []. rewrite add_requests_nil. split; [reflexivity | now left].
    + rewrite shorten_bitly_run by assumption. destruct (is_valid_url url).
      * eexists _, _. split; [reflexivity | right; now left].
      * exists PyNone, []. rewrite add_requests_nil. split; [reflexivity | now left].
  - change (possible_requests E url (lit "tinyurl"))
      with [ []; [tinyurl_request url] ].
    rewrite shorten_tinyurl_run. destruct (is_valid_url url).
    + eexists _, _. split; [reflexivity | right; now left].
    + exists PyNone, []. rewrite add_requests_nil. split; [reflexivity | now left].
  - change (possible_requests E url (lit "cuttly"))
      with [ []; [cuttly_request E url] ].
    destruct (decide (CUTTLY_API (config E) = [])) as [Hk | Hk].
    + rewrite shorten_cuttly_no_key by assumption.
      exists PyNone, []. rewrite add_requests_nil. split; [reflexivity | now left].
    + rewrite shorten_cuttly_run by assumption. destruct (is_valid_url url).
      * eexists _, _. split; [reflexivity | right; now left].
      * exists PyNone, []. rewrite add_requests_nil. split; [reflexivity | now left].
  - change (possible_requests E url (lit "gplinks"))
      with [ []; [gplinks_get_request E url];
             [gplinks_get_request E url; gplinks_post_request E url] ].
    destruct (decide (GPLINKS_API (config E) = [])) as [Hk | Hk].
    + rewrite shorten_gplinks_no_key by assumption.
      exists PyNone, []. rewrite add_requests_nil. split; [reflexivity | now left].
    + rewrite shorten_gplinks_run by assumption. destruct (is_valid_url url).
      * destruct (gplinks_after_get _).
        -- eexists _, _. split; [reflexivity | right; now left].
        -- eexists _, _. split; [reflexivity | right; right; now left].
      * exists PyNone, []. rewrite add_requests_nil. split; [reflexivity | now left].
  - rewrite shorten_url_unknown, possible_requests_unknown by assumption.
    exists PyNone, []. rewrite add_requests_nil. split; [reflexivity | now left].
Qed.

Ltac discipline :=
  repeat (constructor;
          [split;
           [eexists; split; reflexivity
           | split; [first [left; reflexivity | right; reflexivity] | cbn; auto 8]]
          |]);
  constructor.

(** X13: the provider calls of [shorten_url].  Whatever the providers
    answer, one run returns a value (it never raises), leaves the cache and
    the SDK log alone, and adds at most two calls to the provider log, at
    most one unless the service is gplinks and none for a service it does
    not know.  Each call goes to the endpoint configured for the service in
    [SUPPORTED_SERVICES], with a timeout of 10 or 15 seconds, and carries
    the URL unchanged as one of its arguments. *)
Theorem shorten_url_request_discipline (E : Env) (url service : str) (w : World) :
  exists v rs,
    shorten_url E url service w = (Ok v, add_requests w rs)
    /\ (length rs <= 2)%nat
    /\ (service <> lit "gplinks" -> (length rs <= 1)%nat)
    /\ (~ In service service_keys -> rs = [])
    /\ Forall (fun r =>
         (exists info,
            assoc service SUPPORTED_SERVICES = Some info
            /\ req_url r = api_url info)
         /\ (req_timeout r = 10 \/ req_timeout r = 15)
         /\ In url (map snd (arguments r))) rs.
Proof.
  destruct (shorten_url_requests E url service w) as (v & rs & Hrun & Hin).
  exists v, rs. split; [exact Hrun |].
  destruct (service_known_or_not service) as [-> | [-> | [-> | [-> | Hs]]]].
  - change (possible_requests E url (lit "bitly"))
      with [ []; [bitly_request E url] ] in Hin.
    destruct Hin as [<- | [<- | []]];
      (split; [cbn; lia |]); (split; [intros _; cbn; lia |]);
      (split; [intros Hn; exfalso; apply Hn; cbn; auto |]); discipline.
  - change (possible_requests E url (lit "tinyurl"))
      with [ []; [tinyurl_request url] ] in Hin.
    destruct Hin as [<- | [<- | []]];
      (split; [cbn; lia |]); (split; [intros _; cbn; lia |]);
      (split; [intros Hn; exfalso; apply Hn; cbn; auto |]); discipline.
  - change (possible_requests E url (lit "cuttly"))
      with [ []; [cuttly_request E url] ] in Hin.
    destruct Hin as [<- | [<- | []]];
      (split; [cbn; lia |]); (split; [intros _; cbn; lia |]);
      (split; [intros Hn; exfalso; apply Hn; cbn; auto |]); discipline.
  - change (possible_requests E url (lit "gplinks"))
      with [ []; [gplinks_get_request E url];
             [gplinks_get_request E url; gplinks_post_request E url] ] in Hin.
    destruct Hin as [<- | [<- | [<- | []]]];
      (split; [cbn; lia |]); (split; [intros Hn; congruence |]);
      (split; [intros Hn; exfalso; apply Hn; cbn; auto 6 |]); discipline.
  - rewrite possible_requests_unknown in Hin by assumption.
    destruct Hin as [<- | []].
    split; [cbn; lia |]. split; [intros _; cbn; lia |]. split; [reflexivity |].
    constructor.
Qed.

(** X14: what tinyurl gives is the trimmed body: the value of
    [shorten_url] for tinyurl is absent or a string with no whitespace at
    either end, which [strip] leaves as it is.  The string may be empty (a
    blank body with status 200), and then counts as no result. *)
Theorem tinyurl_result_trimmed (E : Env) (url : str) (w : World) :
  match fst (shorten_url E url (lit "tinyurl") w) with
  | Ok PyNone => True
  | Ok (PyStr t) => trimmed t /\ strip t = t /\ (truthy (PyStr t) = false <-> t = [])
  | _ => False
  end.
Proof.
  rewrite shorten_tinyurl_run.
  destruct (is_valid_url url); cbn [fst]; [| exact I].
  unfold tinyurl_extract.
  destruct (net E (requests w) (tinyurl_request url)) as [r |]; [| exact I].
  destruct (status_code r =? 200); [| exact I].
  pose proof (strip_trimmed (text r)) as Ht.
  split; [exact Ht |]. split; [now apply strip_fixed |].
  cbn [truthy]. destruct (strip (text r)); cbn; split; congruence.
Qed.

(** X15: a text that [handle_message] hands on and [is_valid_url]
    accepts holds no whitespace at all: the text is stripped first, which
    removes the newline the pattern would allow at the end. *)
Theorem text_url_no_whitespace (text : str) :
  is_valid_url (strip text) = true ->
  all_in UrlPattern.nonspace (strip text).
Proof.
  intros Hv.
  destruct (valid_url_body _ Hv) as (body & n & Hs & Hbody & [-> | ->]).
  - rewrite Hs, app_nil_r. exact Hbody.
  - destruct (strip_trimmed text) as [_ Hl].
    specialize (Hl 0x0A body Hs). vm_compute in Hl. discriminate.
Qed.

Lemma text_url_no_whitespace_witness :
  all_in UrlPattern.nonspace (strip (lit "  https://example.com/a?b=c " ++ NL)).
Proof.
  apply (text_url_no_whitespace (lit "  https://example.com/a?b=c " ++ NL)).
  vm_compute. reflexivity.
Defined.

(** X16: a result of cuttly is always the [shortLink] of an answer with
    status 200 whose JSON body has [url.status] equal to 7: with a key
    configured, a value other than absent means the URL was valid, the one
    call was answered so, and the value is that field. *)
Theorem cuttly_result_origin (E : Env) (url : str) (w : World) (v : pyobj) :
  fst (shorten_url E url (lit "cuttly") w) = Ok v ->
  v <> PyNone ->
  exists r d u st,
    is_valid_url url = true
    /\ CUTTLY_API (config E) <> []
    /\ net E (requests w) (cuttly_request E url) = Reply r
    /\ status_code r = 200
    /\ json r = Ok (PyDict d)
    /\ assoc (lit "url") d = Some (PyDict u)
    /\ assoc (lit "status") u = Some st /\ eq_7 st = true
    /\ assoc (lit "shortLink") u = Some v.
Proof.
  destruct (decide (CUTTLY_API (config E) = [])) as [Hk | Hk].
  { rewrite shorten_cuttly_no_key by assumption. cbn [fst]. congruence. }
  rewrite shorten_cuttly_run by assumption.
  destruct (is_valid_url url); cbn [fst]; [| congruence].
  unfold cuttly_extract.
  destruct (net E (requests w) (cuttly_request E url)) as [r |]; [| congruence].
  destruct (status_code r =? 200) eqn:Hst; [| congruence].
  apply Z.eqb_eq in Hst.
  destruct (json r) as [[| | | | | | d] | e] eqn:Hj; try congruence.
  destruct (assoc (lit "url") d) as [[| | | | | | u] |] eqn:Hu;
    cbn [default from_option id]; try congruence;
    [| change (assoc (lit "status") []) with (@None pyobj);
       cbn [default from_option id eq_7]; congruence].
  destruct (assoc (lit "status") u) as [st |] eqn:Hs;
    cbn [default from_option id]; [| cbn [eq_7]; congruence].
  destruct (eq_7 st) eqn:H7; [| congruence].
  unfold getitem, dict_get, or_absent.
  destruct (assoc (lit "shortLink") u) as [x |] eqn:Hx; [| congruence].
  intros [= <-] _. exists r, d, u, st. repeat split; auto.
Qed.

Lemma cuttly_result_origin_witness :
  exists r d u st,
    is_valid_url (lit "https://example.com/") = true
    /\ CUTTLY_API (config cuttly_env) <> []
    /\ net cuttly_env (requests empty_world)
         (cuttly_request cuttly_env (lit "https://example.com/")) = Reply r
    /\ status_code r = 200
    /\ json r = Ok (PyDict d)
    /\ assoc (lit "url") d = Some (PyDict u)
    /\ assoc (lit "status") u = Some st /\ eq_7 st = true
    /\ assoc (lit "shortLink") u = Some (PyStr (lit "https://cutt.ly/abc")).
Proof.
  apply (cuttly_result_origin cuttly_env (lit "https://example.com/") empty_world
           (PyStr (lit "https://cutt.ly/abc"))).
  - vm_compute. reflexivity.
  - discriminate.
Defined.

(* ================================================================== *)
(** ** Dispatch of one service *)
(* ================================================================== *)

Lemma assoc_unknown_service service :
  ~ In service service_keys -> assoc service SUPPORTED_SERVICES = None.
Proof.
  intros Hs. unfold SUPPORTED_SERVICES. cbn [assoc].
  assert (Hne : forall k, In k service_keys -> str_eqb k service = false).
  { intros k Hk. destruct (str_eqb k service) eqn:He; [| reflexivity].
    apply str_eqb_eq in He as ->. contradiction. }
  rewrite !Hne by (cbn; auto). reflexivity.
Qed.

(** X17: a service that is not configured.  [send_single_shortened_url]
    for a name outside [SUPPORTED_SERVICES] calls no provider and edits the
    message once, in plain text, to the failure line that names the
    service by its capitalised key; the apology follows exactly when the
    SDK refused that edit, and the call raises only if the SDK refuses the
    apology too. *)
Theorem send_single_unknown_service (E : Env) (url service : str) (w : World) :
  ~ In service service_keys ->
  edits_once_or_apologises E w
    (EditMessageText
       (MARK_FAIL ++ lit " Failed to shorten URL using "
          ++ capitalize E service ++ lit ".") false)
    (send_single_shortened_url E url service w).
Proof.
  intros Hs.
  pose proof (send_single_run E url service w) as Hrun. cbv zeta in Hrun.
  unfold adapter_result in Hrun.
  rewrite (shorten_url_unknown E url service w Hs) in Hrun. cbn [fst snd] in Hrun.
  unfold single_message in Hrun.
  rewrite (assoc_unknown_service service Hs) in Hrun. cbn [truthy] in Hrun.
  exact Hrun.
Qed.

Lemma send_single_unknown_service_witness :
  send_single_shortened_url offline_env (lit "https://example.com/") (lit "isgd")
    empty_world
  = (Ok tt,
     add_tg_calls empty_world
       [ EditMessageText
           (MARK_FAIL ++ lit " Failed to shorten URL using "
              ++ capitalize offline_env (lit "isgd") ++ lit ".") false ]).
Proof.
  apply (send_single_unknown_service offline_env (lit "https://example.com/")
           (lit "isgd") empty_world).
  vm_compute. intros [H | [H | [H | [H | []]]]]; discriminate.
Defined.

(** X18: from the answer of tinyurl to the message.  For a valid URL,
    when tinyurl answers with status 200, [send_single_shortened_url]
    makes that one call and edits the message: to the success text with
    the trimmed body between backticks, in Markdown, when the trimmed body
    is not empty, and to the failure line, in plain text, when the body is
    blank.  That edit is the only one when the SDK takes it; the apology
    follows exactly when the SDK refused it. *)
Theorem send_single_tinyurl (E : Env) (url : str) (w : World) (r : response) :
  is_valid_url url = true ->
  net E (requests w) (tinyurl_request url) = Reply r ->
  status_code r = 200 ->
  let body := strip (text r) in
  let message :=
    if nonempty body then
      MARK_OK ++ lit " **TinyURL**" ++ NL ++ MARK_LINK ++ lit " `" ++ body ++ lit "`"
    else MARK_FAIL ++ lit " Failed to shorten URL using TinyURL." in
  edits_once_or_apologises E (add_requests w [tinyurl_request url])
    (EditMessageText message (nonempty body))
    (send_single_shortened_url E url (lit "tinyurl") w).
Proof.
  intros Hv Hnet Hst. cbv zeta.
  pose proof (send_single_run E url (lit "tinyurl") w) as Hrun. cbv zeta in Hrun.
  unfold adapter_result in Hrun.
  rewrite shorten_tinyurl_run, Hv in Hrun. cbn [fst snd] in Hrun.
  unfold tinyurl_extract in Hrun. rewrite Hnet, Hst in Hrun.
  change (200 =? 200) with true in Hrun. cbv iota in Hrun.
  unfold single_message in Hrun.
  change (assoc (lit "tinyurl") SUPPORTED_SERVICES)
    with (Some {| name := lit "TinyURL";
                  api_url := lit "http://tinyurl.com/api-create.php";
                  requires_key := false |}) in Hrun.
  change (str_eqb (lit "tinyurl") (lit "gplinks")) with false in Hrun.
  cbn [truthy py_str name] in Hrun.
  destruct (nonempty (strip (text r))); rewrite ?app_nil_r in Hrun; exact Hrun.
Qed.

Lemma send_single_tinyurl_witness :
  send_single_shortened_url two_of_four_env (lit "https://example.com/")
    (lit "tinyurl") empty_world
  = (Ok tt,
     add_tg_calls
       (add_requests empty_world [tinyurl_request (lit "https://example.com/")])
       [ EditMessageText
           (MARK_OK ++ lit " **TinyURL**" ++ NL ++ MARK_LINK ++ lit " `"
              ++ lit "https://tinyurl.com/abc123" ++ lit "`") true ]).
Proof.
  apply (send_single_tinyurl two_of_four_env (lit "https://example.com/") empty_world
           {| status_code := 200;
              text := lit "https://tinyurl.com/abc123";
              json := Raise ValueError |});
    vm_compute; reflexivity.
Defined.

(* ================================================================== *)
(** ** The callback handler *)
(* ================================================================== *)

Lemma apologise_run E w :
  exists out rest,
    apologise E w = (out, add_tg_calls w (EditMessageText MSG_ERROR false :: rest))
    /\ (rest = [] \/ rest = [ReplyText MSG_ERROR]).
Proof.
  unfold apologise, try_except, tg.
  destruct (tg_raises E (tg_calls w) _).
  - cbn [tg_calls].
    exists (if tg_raises E (tg_calls w ++ [EditMessageText MSG_ERROR false])
                 (ReplyText MSG_ERROR)
            then Raise TelegramError else Ok tt), [ReplyText MSG_ERROR].
    split; [| now right].
    unfold add_tg_calls. cbn [url_cache requests tg_calls]. rewrite <- app_assoc.
    destruct (tg_raises E (tg_calls w ++ _) _); reflexivity.
  - exists (Ok tt), []. split; [reflexivity | now left].
Qed.

(** X19: a payload this bot did not make.  Once the press is answered,
    [button_handler] turns down a payload that does not start with [s_]
    as an unknown command, and one that starts with [s_] but does not split
    into three parts at its underscores as an invalid request: it edits the
    message to that text, looks nothing up and calls no provider; the
    apologies follow only if the SDK refused the edit. *)
Theorem button_handler_malformed (E : Env) (data : str) (w : World) :
  tg_raises E (tg_calls w) Answer = false ->
  (startswith data (lit "s_") = false
   \/ forall a b c, split 0x5F 2 data <> [a; b; c]) ->
  exists out rest,
    button_handler E data w
    = (out,
       add_tg_calls w
         (Answer ::
          EditMessageText
            (if startswith data (lit "s_") then MSG_INVALID else MSG_UNKNOWN) false
          :: rest))
    /\ (rest = []
        \/ rest = [EditMessageText MSG_ERROR false]
        \/ rest = [EditMessageText MSG_ERROR false; ReplyText MSG_ERROR]).
Proof.
  intros Hanswer Hbad.
  assert (Hbody :
    button_handler E data w
    = try_except
        (tg E Answer >>
         tg E (EditMessageText
                 (if startswith data (lit "s_") then MSG_INVALID else MSG_UNKNOWN)
                 false))
        (apologise E) w).
  { unfold button_handler, apologise.
    destruct (startswith data (lit "s_")); [| reflexivity].
    destruct Hbad as [Hbad | Hbad]; [discriminate |].
    destruct (split 0x5F 2 data) as [| a [| b [| c [| d l]]]]; try reflexivity.
    destruct (Hbad a b c eq_refl). }
  rewrite Hbody. unfold try_except, bind. unfold tg at 1. rewrite Hanswer.
  set (call := EditMessageText _ false).
  set (w1 := {| url_cache := url_cache w; requests := requests w;
                tg_calls := tg_calls w ++ [Answer] |}).
  unfold tg. destruct (tg_raises E (tg_calls w1) call).
  - set (w2 := {| url_cache := url_cache w1; requests := requests w1;
                  tg_calls := tg_calls w1 ++ [call] |}).
    destruct (apologise_run E w2) as (out & rest & -> & Hrest).
    exists out, (EditMessageText MSG_ERROR false :: rest). split.
    + unfold add_tg_calls, w2, w1. cbn [url_cache requests tg_calls].
      rewrite <- !app_assoc. reflexivity.
    + destruct Hrest as [-> | ->]; auto.
  - exists (Ok tt), []. split; [| now left].
    unfold add_tg_calls, w1. cbn [url_cache requests tg_calls].
    rewrite <- !app_assoc. reflexivity.
Qed.

Lemma button_handler_malformed_witness :
  exists out rest,
    button_handler offline_env (lit "s_bitly") empty_world
    = (out,
       add_tg_calls empty_world
         (Answer ::
          EditMessageText
            (if startswith (lit "s_bitly") (lit "s_") then MSG_INVALID else MSG_UNKNOWN)
            false
          :: rest))
    /\ (rest = []
        \/ rest = [EditMessageText MSG_ERROR false]
        \/ rest = [EditMessageText MSG_ERROR false; ReplyText MSG_ERROR]).
Proof.
  apply (button_handler_malformed offline_env (lit "s_bitly") empty_world).
  - reflexivity.
  - right. intros a b c. vm_compute. discriminate.
Defined.

(** ** Provider calls of one update *)

Lemma calls_mono {A} n n' (m : M A) :
  (n <= n')%nat -> calls_at_most n m -> calls_at_most n' m.
Proof. intros Hn Hm w. destruct (Hm w) as (rs & Hrs & Hlen). exists rs. split; [auto | lia]. Qed.

Lemma calls_none {A} (m : M A) :
  (forall w, requests (snd (m w)) = requests w) -> calls_at_most 0 m.
Proof. intros Hm w. exists []. rewrite Hm, app_nil_r. auto. Qed.

Lemma calls_tg E c : calls_at_most 0 (tg E c).
Proof. apply calls_none. intros w. unfold tg. now destruct (tg_raises E _ _). Qed.

Lemma calls_bind {A B} n1 n2 (m : M A) (k : A -> M B) :
  calls_at_most n1 m -> (forall a, calls_at_most n2 (k a)) ->
  calls_at_most (n1 + n2) (bind m k).
Proof.
  intros Hm Hk w. unfold bind. destruct (Hm w) as (rs1 & Hrs1 & Hlen1).
  destruct (m w) as [[a | e] w1]; cbn [snd] in *.
  - destruct (Hk a w1) as (rs2 & Hrs2 & Hlen2). exists (rs1 ++ rs2).
    rewrite Hrs2, Hrs1, app_assoc, length_app. split; [reflexivity | lia].
  - exists rs1. split; [assumption | lia].
Qed.

Lemma calls_try_except {A} n1 n2 (m h : M A) :
  calls_at_most n1 m -> calls_at_most n2 h ->
  calls_at_most (n1 + n2) (try_except m h).
Proof.
  intros Hm Hh w. unfold try_except. destruct (Hm w) as (rs1 & Hrs1 & Hlen1).
  destruct (m w) as [[a | e] w1]; cbn [snd] in *.
  - exists rs1. split; [assumption | lia].
  - destruct (Hh w1) as (rs2 & Hrs2 & Hlen2). exists (rs1 ++ rs2).
    rewrite Hrs2, Hrs1, app_assoc, length_app. split; [reflexivity | lia].
Qed.

Lemma possible_requests_length E url service rs :
  In rs (possible_requests E url service) -> (length rs <= call_bound service)%nat.
Proof.
  destruct (service_known_or_not service) as [-> | [-> | [-> | [-> | Hs]]]].
  - change (possible_requests E url (lit "bitly"))
      with [ []; [bitly_request E url] ].
    change (call_bound (lit "bitly")) with 1%nat.
    intros [<- | [<- | []]]; cbn; lia.
  - change (possible_requests E url (lit "tinyurl"))
      with [ []; [tinyurl_request url] ].
    change (call_bound (lit "tinyurl")) with 1%nat.
    intros [<- | [<- | []]]; cbn; lia.
  - change (possible_requests E url (lit "cuttly"))
      with [ []; [cuttly_request E url] ].
    change (call_bound (lit "cuttly")) with 1%nat.
    intros [<- | [<- | []]]; cbn; lia.
  - change (possible_requests E url (lit "gplinks"))
      with [ []; [gplinks_get_request E url];
             [gplinks_get_request E url; gplinks_post_request E url] ].
    change (call_bound (lit "gplinks")) with 2%nat.
    intros [<- | [<- | [<- | []]]]; cbn; lia.
  - rewrite possible_requests_unknown by assumption.
    intros [<- | []]. cbn. lia.
Qed.

Lemma calls_shorten_url E url service :
  calls_at_most (call_bound service) (shorten_url E url service).
Proof.
  intros w. destruct (shorten_url_requests E url service w) as (v & rs & -> & Hin).
  exists rs. split; [reflexivity |]. eapply possible_requests_length, Hin.
Qed.

Lemma call_bound_le service : (call_bound service <= 2)%nat.
Proof. unfold call_bound. destruct (str_eqb _ _); lia. Qed.

Lemma calls_send_single E url service :
  calls_at_most 2 (send_single_shortened_url E url service).
Proof.
  intros w. rewrite send_single_unfold.
  apply (calls_try_except 2 0); [| apply calls_tg].
  apply (calls_bind 2 0); [| intros v; apply calls_tg].
  eapply calls_mono; [apply call_bound_le | apply calls_shorten_url].
Qed.

Lemma calls_send_all_loop E url svcs message k :
  calls_at_most (list_sum (map (fun svc => call_bound (fst svc)) svcs))
    (send_all_loop E url svcs message k).
Proof.
  revert message k.
  induction svcs as [| [key info] svcs IH]; intros message k;
    cbn [send_all_loop map list_sum fst].
  - apply calls_none. reflexivity.
  - apply calls_bind; [apply calls_shorten_url |].
    intros v. destruct (truthy v); apply IH.
Qed.

Lemma calls_send_all E url : calls_at_most 5 (send_all_shortened_urls E url).
Proof.
  unfold send_all_shortened_urls.
  apply (calls_try_except 5 0); [| apply calls_tg].
  apply (calls_bind 5 0); [apply calls_send_all_loop |].
  intros [message k]. apply calls_tg.
Qed.

Lemma calls_button_handler E data : calls_at_most 5 (button_handler E data).
Proof.
  unfold button_handler.
  apply (calls_try_except 5 0).
  2:{ apply (calls_try_except 0 0); apply calls_tg. }
  apply (calls_bind 0 5); [apply calls_tg |]. intros _.
  destruct (startswith data (lit "s_")).
  2:{ eapply calls_mono; [| apply calls_tg]. lia. }
  destruct (split 0x5F 2 data) as [| a [| b [| c [| d l]]]];
    try (eapply calls_mono; [| apply calls_tg]; lia).
  apply (calls_bind 0 5); [apply calls_none; reflexivity |]. intros url.
  destruct (negb (nonempty url)).
  { eapply calls_mono; [| apply calls_tg]. lia. }
  apply (calls_bind 0 5); [apply calls_tg |]. intros _.
  destruct (str_eqb _ _); [apply calls_send_all |].
  eapply calls_mono; [| apply calls_send_single]. lia.
Qed.

(** X20: the provider calls of one update.  Handling [/start], [/help],
    [/shorten], [/status] or a text calls no provider; handling a button
    press adds at most five calls to the log (bitly, tinyurl and cuttly once
    each, gplinks twice), whatever the providers answer. *)
Theorem update_provider_calls
    (CE : ChatEnv) (bc : BotConfig) (u : update) (c : Chat) :
  exists rs,
    requests (world (snd (handle CE bc u c))) = requests (world c) ++ rs
    /\ (length rs <= 5)%nat
    /\ match u with CallbackQuery _ => True | _ => rs = [] end.
Proof.
  assert (Hprocess : forall url,
    requests (world (snd (process_url CE url c))) = requests (world c)).
  { intros url. rewrite process_url_world.
    destruct (is_valid_url url && negb _); [| reflexivity].
    apply store_url_cache. }
  destruct u as [user | | text | args | | data]; cbn [handle].
  - exists []. rewrite app_nil_r. split; [| split; [cbn; lia | reflexivity]].
    now rewrite start_world.
  - exists []. rewrite app_nil_r. split; [| split; [cbn; lia | reflexivity]].
    now rewrite help_world.
  - exists []. rewrite app_nil_r. split; [| split; [cbn; lia | reflexivity]].
    rewrite handle_message_run. cbv zeta.
    destruct (startswith _ _ || startswith _ _); rewrite h_try_reply_world;
      [apply Hprocess | now rewrite reply_text_run].
  - exists []. rewrite app_nil_r. split; [| split; [cbn; lia | reflexivity]].
    unfold shorten. rewrite h_try_reply_world. destruct args as [| arg args].
    + unfold reply_markdown, message. now destruct (message_raises CE _ _).
    + apply Hprocess.
  - exists []. rewrite app_nil_r. split; [| split; [cbn; lia | reflexivity]].
    unfold status_command. rewrite h_try_reply_world.
    unfold reply_markdown, message. now destruct (message_raises CE _ _).
  - destruct (calls_button_handler (env CE) data (world c)) as (rs & Hrs & Hlen).
    exists rs. unfold in_world.
    destruct (button_handler (env CE) data (world c)) as [o w1].
    cbn [snd world] in *. auto.
Qed.

(* ================================================================== *)
(** ** The text results of gplinks *)
(* ================================================================== *)

Lemma findall_from_sound k s m :
  In m (findall_from k s) ->
  exists run,
    run <> [] /\ all_in UrlPattern.nonspace run
    /\ (m = lit "http://" ++ run \/ m = lit "https://" ++ run).
Proof.
  revert k. induction s as [| c s IH]; intros k; cbn [findall_from]; [intros [] |].
  destruct k as [| k]; [| apply IH].
  destruct (match_url_at (c :: s)) as [m' |] eqn:Hm; [| apply IH].
  intros [<- | Hin]; [| eapply IH; exact Hin].
  apply match_url_at_sound in Hm as [Hl _]. now apply lang_url_search.
Qed.

Lemma nonspace_trimmed s : all_in UrlPattern.nonspace s -> trimmed s.
Proof.
  intros Hall. unfold all_in in Hall. rewrite Forall_forall in Hall.
  assert (Hc : forall c, In c s -> isspace c = false).
  { intros c Hin. apply list_elem_of_In in Hin. specialize (Hall c Hin).
    unfold UrlPattern.nonspace in Hall. now apply negb_true_iff in Hall. }
  split; intros c s' ->; apply Hc; [now left |].
  apply in_or_app. right. now left.
Qed.

Lemma found_url_shape m s :
  In m (findall_urls s) -> startswith m (lit "http") = true /\ trimmed m.
Proof.
  intros (run & _ & Hrun & [-> | ->])%findall_from_sound.
  - split; [reflexivity |]. apply nonspace_trimmed, all_in_app. split; [| exact Hrun].
    repeat constructor.
  - split; [reflexivity |]. apply nonspace_trimmed, all_in_app. split; [| exact Hrun].
    repeat constructor.
Qed.

(** X21: what gplinks gives from a body of text.  When the answer to the
    GET does not parse as JSON, the value of [shorten_url] for gplinks is absent or a
    string that starts with [http] and has no whitespace at either end,
    whichever of the strategies produced it: the trimmed body, the first
    match of the URL search, or the trimmed body of the POST answer. *)
Theorem gplinks_text_result (E : Env) (url : str) (w : World) (v : pyobj) :
  (forall resp,
     net E (requests w) (gplinks_get_request E url) = Reply resp ->
     forall o, json resp <> Ok o) ->
  fst (shorten_url E url (lit "gplinks") w) = Ok v ->
  v = PyNone
  \/ exists t, v = PyStr t /\ startswith t (lit "http") = true /\ trimmed t.
Proof.
  intros Hjson.
  destruct (decide (GPLINKS_API (config E) = [])) as [Hk | Hk].
  { rewrite shorten_gplinks_no_key by assumption. intros [= <-]. now left. }
  rewrite shorten_gplinks_run by assumption.
  destruct (is_valid_url url); [| intros [= <-]; now left].
  assert (Hpost : forall p,
    gplinks_after_post p = PyNone
    \/ exists t, gplinks_after_post p = PyStr t
                 /\ startswith t (lit "http") = true /\ trimmed t).
  { intros [r |]; [| now left]. unfold gplinks_after_post.
    destruct (status_code r =? 200); [| now left].
    destruct (startswith (strip (text r)) (lit "http")) eqn:Hs; [| now left].
    right. eexists. split; [reflexivity |]. split; [exact Hs | apply strip_trimmed]. }
  unfold gplinks_after_get.
  destruct (net E (requests w) (gplinks_get_request E url)) as [r |] eqn:Hnet;
    [| intros [= <-]; now left].
  destruct (json r) as [o | e] eqn:Hj; [now destruct (Hjson r eq_refl o) |].
  destruct (status_code r =? 200); [| cbn [fst]; intros [= <-]; apply Hpost].
  destruct (startswith (strip (text r)) (lit "http")) eqn:Hs.
  { intros [= <-]. right. eexists. split; [reflexivity |].
    split; [exact Hs | apply strip_trimmed]. }
  destruct (is_value_error e); [| intros [= <-]; now left].
  destruct (contains (strip (text r)) (lit "http"));
    [| cbn [fst]; intros [= <-]; apply Hpost].
  destruct (findall_urls (strip (text r))) as [| u us] eqn:Hfind;
    [cbn [fst]; intros [= <-]; apply Hpost |].
  intros [= <-]. right. exists u. split; [reflexivity |].
  apply (found_url_shape u (strip (text r))). rewrite Hfind. now left.
Qed.

Lemma gplinks_text_result_witness :
  PyStr (lit "https://gplinks.co/abc") = PyNone
  \/ exists t,
       PyStr (lit "https://gplinks.co/abc") = PyStr t
       /\ startswith t (lit "http") = true /\ trimmed t.
Proof.
  apply (gplinks_text_result gplinks_text_env (lit "https://example.com/")
           empty_world (PyStr (lit "https://gplinks.co/abc"))).
  - intros resp. vm_compute. intros [= <-] o. discriminate.
  - vm_compute. reflexivity.
Defined.

(* ================================================================== *)
(** ** [/status] and the message of [process_url] *)
(* ================================================================== *)

Lemma nonempty_firstn s : nonempty (firstn 8 s) = nonempty s.
Proof. now destruct s. Qed.

Lemma fold_left_pointwise {A B} (f g : A -> B -> A) l a :
  (forall a b, f a b = g a b) -> fold_left f l a = fold_left g l a.
Proof.
  intros Hfg. revert a. induction l as [| b l IH]; intros a; [reflexivity |].
  cbn [fold_left]. now rewrite Hfg, IH.
Qed.

(** X22: [/status] shows no more of a credential than its first eight
    characters: two configurations whose credentials agree on their first
    eight characters get the same status text. *)
Theorem status_shows_previews_only (c c' : Config) (bc : BotConfig) :
  firstn 8 (BITLY_TOKEN c) = firstn 8 (BITLY_TOKEN c') ->
  firstn 8 (CUTTLY_API c) = firstn 8 (CUTTLY_API c') ->
  firstn 8 (GPLINKS_API c) = firstn 8 (GPLINKS_API c') ->
  status_text c bc = status_text c' bc.
Proof.
  intros Hb Hc Hg.
  assert (Hline : forall svc, status_line c svc = status_line c' svc).
  { intros [key info]. unfold status_line.
    rewrite <- (nonempty_firstn (BITLY_TOKEN c)), <- (nonempty_firstn (CUTTLY_API c)),
      <- (nonempty_firstn (GPLINKS_API c)), Hb, Hc, Hg, !nonempty_firstn.
    reflexivity. }
  unfold status_text.
  rewrite (fold_left_pointwise
             (fun text svc => text ++ status_line c svc)
             (fun text svc => text ++ status_line c' svc));
    [reflexivity |].
  intros a b. now rewrite Hline.
Qed.

Lemma status_shows_previews_only_witness :
  status_text example_config example_webhook
  = status_text other_config example_webhook.
Proof.
  apply (status_shows_previews_only example_config other_config example_webhook);
    reflexivity.
Defined.

(** X23: [/status] in the chat and [/api/status] on the web agree: for
    each configured service, the line of the status text carries the check
    mark exactly when the web status reports the service as connected. *)
Theorem status_agrees_with_api
    (c : Config) (now key : str) (info : ServiceInfo) :
  In (key, info) SUPPORTED_SERVICES ->
  exists entry preview,
    assoc key (services (api_status c now)) = Some entry
    /\ status_line c (key, info)
       = lit "**" ++ name info ++ lit "**: "
           ++ (if connected entry then MARK_OK else MARK_FAIL)
           ++ lit " (" ++ preview ++ lit ")" ++ NL.
Proof.
  unfold SUPPORTED_SERVICES.
  intros [[= <- <-] | [[= <- <-] | [[= <- <-] | [[= <- <-] | []]]]];
    eexists _, _; (split; [reflexivity |]); reflexivity.
Qed.

Lemma status_agrees_with_api_witness :
  exists entry preview,
    assoc (lit "cuttly") (services (api_status example_config (lit "2024-01-01T00:00:00")))
    = Some entry
    /\ status_line example_config
         (lit "cuttly",
          {| name := lit "Cuttly";
             api_url := lit "https://cutt.ly/api/api.php";
             requires_key := true |})
       = lit "**" ++ lit "Cuttly" ++ lit "**: "
           ++ (if connected entry then MARK_OK else MARK_FAIL)
           ++ lit " (" ++ preview ++ lit ")" ++ NL.
Proof.
  apply (status_agrees_with_api example_config (lit "2024-01-01T00:00:00")
           (lit "cuttly")
           {| name := lit "Cuttly";
              api_url := lit "https://cutt.ly/api/api.php";
              requires_key := true |}).
  vm_compute. auto.
Defined.

(** X24: the message of [process_url] shows at most 50 characters of the
    URL: the URL itself when it has no more than 50, and otherwise its
    first 47 followed by three dots. *)
Theorem display_url_bounded (url : str) :
  (length (display_url url) <= 50)%nat
  /\ (display_url url = url <-> (length url <= 50)%nat)
  /\ firstn 47 (display_url url) = firstn 47 url
  /\ ((50 < length url)%nat -> display_url url = firstn 47 url ++ lit "...").
Proof.
  unfold display_url. destruct (50 <? length url)%nat eqn:Hlen.
  - apply Nat.ltb_lt in Hlen.
    assert (Hl : length (firstn 47 url ++ lit "...") = 50%nat).
    { rewrite length_app, length_firstn. cbn [length lit]. simpl length. lia. }
    split; [lia |]. split; [| split; [| reflexivity]].
    + split; [intros Heq; rewrite Heq in Hl; lia | lia].
    + rewrite firstn_app, firstn_firstn, length_firstn.
      replace (47 - Nat.min 47 (length url))%nat with 0%nat by lia.
      cbn [firstn]. rewrite app_nil_r. f_equal.
  - apply Nat.ltb_ge in Hlen. split; [lia |].
    split; [tauto |]. split; [reflexivity | lia].
Qed.

(* ================================================================== *)
(** ** [/start] *)
(* ================================================================== *)

(** X25: the welcome reaches the user once.  If the SDK takes
    [reply_html], [start] for a user returns normally and its last call
    carries the welcome text and was accepted: the photo with the text as
    caption, which is only tried when the image URL is set and answered a
    HEAD request with status 200, or the HTML message, which follows when
    the photo was not tried or was refused.  At most one HEAD request is
    made, with a timeout of 10 seconds, and no apology is sent. *)
Theorem start_delivers_welcome
    (CE : ChatEnv) (bc : BotConfig) (mention : str) (c : Chat) :
  (forall h, message_raises CE h (welcome_html mention) = false) ->
  exists earlier last,
    start CE bc (Some mention) c
    = (Ok tt,
       {| world := world c;
          message_calls := message_calls c ++ earlier ++ [last];
          head_calls :=
            head_calls c ++
            (if nonempty (WELCOME_IMAGE_URL bc) then [(WELCOME_IMAGE_URL bc, 10)]
             else []) |})
    /\ message_raises CE (message_calls c ++ earlier) last = false
    /\ (earlier = [] /\ last = welcome_html mention
        \/ earlier = [] /\ last = welcome_photo bc mention
           /\ nonempty (WELCOME_IMAGE_URL bc) = true
           /\ head_status CE (head_calls c) (WELCOME_IMAGE_URL bc) = Some 200
        \/ earlier = [welcome_photo bc mention] /\ last = welcome_html mention
           /\ message_raises CE (message_calls c) (welcome_photo bc mention) = true).
Proof.
  intros Hhtml. unfold start.
  unfold h_try_except at 1. unfold h_bind at 1. unfold h_ret at 1. cbv zeta.
  change (WELCOME_HEAD ++ mention ++ WELCOME_TAIL) with (welcome_text mention).
  change (MessageReplyPhoto (WELCOME_IMAGE_URL bc) (welcome_text mention))
    with (welcome_photo bc mention).
  change (MessageReplyHtml (welcome_text mention)) with (welcome_html mention).
  set (photo := welcome_photo bc mention). set (html := welcome_html mention).
  assert (Hsend : forall c1,
    message CE html c1
    = (Ok tt, {| world := world c1; message_calls := message_calls c1 ++ [html];
                 head_calls := head_calls c1 |})).
  { intros c1. unfold message. subst html. now rewrite Hhtml. }
  unfold h_bind at 1.
  destruct (nonempty (WELCOME_IMAGE_URL bc)) eqn:Hurl.
  - unfold is_image_accessible.
    destruct (head_status CE (head_calls c) (WELCOME_IMAGE_URL bc)) as [st |] eqn:Hhead.
    + destruct (st =? 200) eqn:Hst.
      * apply Z.eqb_eq in Hst. subst st.
        unfold h_bind at 1. unfold h_try_except at 1. unfold h_bind at 1.
        unfold message at 1. cbn [message_calls world head_calls].
        destruct (message_raises CE (message_calls c) photo) eqn:Hp.
        -- unfold h_ret at 1. cbn [negb]. rewrite Hsend.
           cbn [message_calls world head_calls].
           exists [photo], html. subst html. rewrite Hhtml.
           split; [now rewrite <- app_assoc |]. split; [reflexivity |].
           right. right. auto.
        -- unfold h_ret. cbn [negb]. exists [], photo.
           rewrite app_nil_r, Hp. split; [reflexivity |]. split; [reflexivity |].
           right. left. auto.
      * unfold h_bind, h_ret. cbn [negb]. rewrite Hsend.
        cbn [message_calls world head_calls].
        exists [], html. subst html. rewrite app_nil_r, Hhtml. auto.
    + unfold h_bind, h_ret. cbn [negb]. rewrite Hsend.
      cbn [message_calls world head_calls].
      exists [], html. subst html. rewrite app_nil_r, Hhtml. auto.
  - unfold h_bind, h_ret. cbn [negb]. rewrite Hsend.
    exists [], html. subst html. rewrite !app_nil_r, Hhtml. auto.
Qed.

Lemma start_delivers_welcome_witness :
  exists earlier last,
    start (no_image offline_env) example_webhook (Some (lit "Ada")) empty_chat
    = (Ok tt,
       {| world := world empty_chat;
          message_calls := message_calls empty_chat ++ earlier ++ [last];
          head_calls :=
            head_calls empty_chat ++
            (if nonempty (WELCOME_IMAGE_URL example_webhook)
             then [(WELCOME_IMAGE_URL example_webhook, 10)]
             else []) |})
    /\ message_raises (no_image offline_env) (message_calls empty_chat ++ earlier) last
       = false
    /\ (earlier = [] /\ last = welcome_html (lit "Ada")
        \/ earlier = [] /\ last = welcome_photo example_webhook (lit "Ada")
           /\ nonempty (WELCOME_IMAGE_URL example_webhook) = true
           /\ head_status (no_image offline_env) (head_calls empty_chat)
                (WELCOME_IMAGE_URL example_webhook) = Some 200
        \/ earlier = [welcome_photo example_webhook (lit "Ada")]
           /\ last = welcome_html (lit "Ada")
           /\ message_raises (no_image offline_env) (message_calls empty_chat)
                (welcome_photo example_webhook (lit "Ada")) = true).
Proof.
  apply (start_delivers_welcome (no_image offline_env) example_webhook (lit "Ada")
           empty_chat).
  intros h. reflexivity.
Defined.

(** [/start] in an update without a user sends no welcome and asks for no
    image: reading the user raises, and the only call is the plain
    apology. *)
Lemma start_without_user (CE : ChatEnv) (bc : BotConfig) (c : Chat) :
  start CE bc None c
  = (if message_raises CE (message_calls c) (plain MSG_ERROR)
     then Raise TelegramError else Ok tt,
     add_message_calls c [plain MSG_ERROR]).
Proof.
  unfold start, h_try_except. unfold h_bind at 1. unfold h_raise.
  apply reply_text_run.
Qed.
